(** * Weather-driven commodity pricing model: ensemble forecaster

    A shallow embedding of [WeatherCommodityForecaster] (src/Model.Py):
    the drought index, the fit pipeline with its failure policy, the
    cross-validation weights, the blended prediction, the evaluation
    metrics and the forecast extension.

    Numbers.  The program computes with IEEE doubles.  Here a finite
    double is idealised as an exact rational ([Q], compared with [==]),
    and the three non-finite results that the program can produce by
    dividing by zero (plus and minus infinity, and not-a-number) are kept
    as separate values of [fval].  Rounding and the sign of zero are not
    modelled.  The values that the fitted models predict are finite,
    except in [Raw], which is [predict] on arrays that can hold
    not-a-number and infinities.

    Libraries.  Training, cross-validated scoring and per-model
    prediction are calls into scikit-learn, statsmodels and TensorFlow.
    Their outcomes (a value or an exception) enter the model as data:
    a fitted regressor is a function from a feature matrix to the outcome
    of its [predict] call, and one run of [fit] reads its outcomes from a
    [fit_env] record. *)

From Stdlib Require Import String QArith Qminmax Qabs ZArith List Lia Lqa Bool.
Import ListNotations.

Open Scope Q_scope.

(** ** Python exceptions and results *)

Inductive exn : Type :=
| ValueError (msg : string)      (* raised by the program or by pandas/numpy *)
| LibraryError (msg : string).   (* any exception coming out of a library call *)

Inductive result (A : Type) : Type :=
| Ok (a : A)
| Raise (e : exn).
Arguments Ok {A} a.
Arguments Raise {A} e.

Definition returns {A} (r : result A) : bool :=
  match r with Ok _ => true | Raise _ => false end.

(** ** Idealised floating-point values *)

Inductive fval : Type :=
| Fin (q : Q)
| PInf
| NInf
| NaN.

(** Equality of values up to the equality of rationals. *)
Definition feq (x y : fval) : Prop :=
  match x, y with
  | Fin a, Fin b => a == b
  | PInf, PInf | NInf, NInf | NaN, NaN => True
  | _, _ => False
  end.

Definition is_finite (x : fval) : bool :=
  match x with Fin _ => true | _ => false end.

(** [a / b] on two finite doubles: a zero divisor gives an infinity of the
    sign of [a], or not-a-number when [a] is zero as well. *)
Definition fdiv (a b : Q) : fval :=
  if Qeq_bool b 0 then
    match a ?= 0 with
    | Eq => NaN
    | Gt => PInf
    | Lt => NInf
    end
  else Fin (a / b).

(** [np.maximum(0, x)]: not-a-number propagates. *)
Definition np_maximum0 (x : fval) : fval :=
  match x with
  | Fin q => Fin (Qmax 0 q)
  | PInf => PInf
  | NInf => Fin 0
  | NaN => NaN
  end.

(** [Series.fillna(0)]: only not-a-number is replaced. *)
Definition fillna0 (x : fval) : fval :=
  match x with
  | NaN => Fin 0
  | _ => x
  end.

(** [np.abs], addition, and scaling by a positive constant. *)
Definition fabs (x : fval) : fval :=
  match x with
  | Fin q => Fin (Qabs q)
  | PInf | NInf => PInf
  | NaN => NaN
  end.

Definition fadd (x y : fval) : fval :=
  match x, y with
  | NaN, _ | _, NaN => NaN
  | PInf, NInf | NInf, PInf => NaN
  | PInf, _ | _, PInf => PInf
  | NInf, _ | _, NInf => NInf
  | Fin a, Fin b => Fin (a + b)
  end.

Definition fscale (c : Q) (x : fval) : fval :=
  match x with
  | Fin q => Fin (q * c)
  | _ => x
  end.

(** The test [x > 0] on a finite value. *)
Definition Qgt0 (x : Q) : bool := negb (Qle_bool x 0).

(** ** Sums and means of finite sequences *)

Fixpoint Qsum (l : list Q) : Q :=
  match l with
  | [] => 0
  | x :: t => x + Qsum t
  end.

Definition Qlen {A} (l : list A) : Q := inject_Z (Z.of_nat (length l)).

Definition mean (l : list Q) : Q := Qsum l / Qlen l.

(** ** Drought index (src/Model.Py, [_calculate_drought_index]) *)

(** Rows [max(0, i+1-w) .. i] of the series: the trailing window that
    [rolling(window=w, min_periods=1)] sees at position [i]. *)
Definition window_slice (w i : nat) (p : list Q) : list Q :=
  skipn (S i - w) (firstn (S i) p).

Definition rolling_mean (w : nat) (p : list Q) : list Q :=
  map (fun i => mean (window_slice w i p)) (seq 0 (length p)).

(** [expanding().mean()]: the mean of rows [0 .. i]. *)
Definition expanding_mean (p : list Q) : list Q :=
  map (fun i => mean (firstn (S i) p)) (seq 0 (length p)).

(** Element-wise [(long_term_avg - rolling_precip) / long_term_avg]. *)
Fixpoint deficit_ratio (long_term_avg rolling_precip : list Q) : list fval :=
  match long_term_avg, rolling_precip with
  | l :: ls, r :: rs => fdiv (l - r) l :: deficit_ratio ls rs
  | _, _ => []
  end.

(** pandas rejects a window below [min_periods = 1] when the rolling
    object is built. *)
Definition _calculate_drought_index (precipitation : list Q) (window : Z)
  : result (list fval) :=
  if (window <? 1)%Z then
    Raise (ValueError "min_periods 1 must be <= window")
  else
    let rolling_precip := rolling_mean (Z.to_nat window) precipitation in
    let long_term_avg := expanding_mean precipitation in
    let drought_index := map np_maximum0 (deficit_ratio long_term_avg rolling_precip) in
    Ok (map fillna0 drought_index).

Definition default_window : Z := 30%Z.

(** The value the program computes at position [i]: the three array
    operations applied to the two means at that position. *)
Definition drought_at (w : nat) (p : list Q) (i : nat) : fval :=
  let e := mean (firstn (S i) p) in
  let r := mean (window_slice w i p) in
  fillna0 (np_maximum0 (fdiv (e - r) e)).

(** The drought index as the specification words it: at every position
    the clamped relative deficit, and 0 where the expanding mean is 0. *)
Definition drought_spec_value (w i : nat) (p : list Q) : fval :=
  let e := mean (firstn (S i) p) in
  let r := mean (window_slice w i p) in
  if Qeq_bool e 0 then Fin 0 else Fin (Qmax 0 ((e - r) / e)).

Definition drought_index_as_specified (p : list Q) (window : Z) : Prop :=
  exists d, _calculate_drought_index p window = Ok d /\
    length d = length p /\
    forall i, (i < length p)%nat ->
      feq (nth i d NaN) (drought_spec_value (Z.to_nat window) i p).

Definition in_unit_interval (x : fval) : Prop :=
  match x with
  | Fin q => 0 <= q /\ q <= 1
  | _ => False
  end.

Definition nonneg_value (x : fval) : Prop :=
  match x with
  | Fin q => 0 <= q
  | PInf => True
  | _ => False
  end.

(** The range property as the specification words it, at the default
    window the program uses. *)
Definition drought_index_bounded_as_specified (p : list Q) : Prop :=
  exists d, _calculate_drought_index p default_window = Ok d /\
    Forall in_unit_interval d.

(** ** Python dictionaries with string keys

    Insertion-ordered, as [dict] is: assigning to a key that is present
    keeps its position, a new key goes to the end. *)

Definition dict (V : Type) : Type := list (string * V).

Fixpoint dict_get {V} (d : dict V) (k : string) : option V :=
  match d with
  | [] => None
  | (k', v) :: t => if String.eqb k k' then Some v else dict_get t k
  end.

Fixpoint dict_set {V} (d : dict V) (k : string) (v : V) : dict V :=
  match d with
  | [] => [(k, v)]
  | (k', v') :: t =>
      if String.eqb k k' then (k, v) :: t else (k', v') :: dict_set t k v
  end.

Definition keys {V} (d : dict V) : list string := map fst d.
Definition values {V} (d : dict V) : list V := map snd d.

(** [name in [...]] on a list of string literals. *)
Definition name_in (name : string) (l : list string) : bool :=
  existsb (String.eqb name) l.

(** ** Fitted objects *)

Definition matrix : Type := list (list Q).

(** What [self.models] holds.  A regressor (scikit-learn estimator or the
    Keras network) is the outcome of its [predict] call on a feature
    matrix; the ARIMA results object is its in-sample fitted values.
    The values are finite here; [Raw] below is [predict] on arrays that
    can hold not-a-number and infinities. *)
Inductive model_obj : Type :=
| Regressor (predict_fn : matrix -> result (list Q))
| ArimaResults (fittedvalues : list Q).

(** An estimator that was constructed but whose [fit] did not complete. *)
Definition unfitted : model_obj :=
  Regressor (fun _ => Raise (LibraryError "NotFittedError")).

Record scaler : Type := { transform : matrix -> result matrix }.

Definition unfitted_scaler : scaler :=
  {| transform := fun _ => Raise (LibraryError "NotFittedError") |}.

(** The mean R² that [np.mean(cross_val_score(...))] hands back: a finite
    number (R² never exceeds 1) or not-a-number. *)
Inductive score : Type :=
| Score (q : Q)
| ScoreNaN.

(** Python's [max(0, score)]: the first argument stays unless the second
    compares greater, and no comparison with not-a-number is true. *)
Definition py_max0 (s : score) : Q :=
  match s with
  | Score q => if Qle_bool q 0 then 0 else q
  | ScoreNaN => 0
  end.

(** ** The forecaster object

    The attributes that the modelled methods read or write.  The commodity
    type, the feature importances and the scaled copy of the test rows
    play no part in them and are left out. *)

Record forecaster : Type := {
  models : dict (option model_obj);
  scalers : dict scaler;
  ensemble_weights : dict Q;
  is_fitted : bool;
  feature_cols : list string;
  X_test : matrix;
  y_test : list Q
}.

(** [__init__]: empty dictionaries, not fitted.  The test split does not
    exist yet; it is only read behind the [is_fitted] check. *)
Definition init : forecaster :=
  {| models := []; scalers := []; ensemble_weights := [];
     is_fitted := false; feature_cols := []; X_test := []; y_test := [] |}.

Definition set_model (name : string) (m : option model_obj) (s : forecaster) : forecaster :=
  {| models := dict_set s.(models) name m; scalers := s.(scalers);
     ensemble_weights := s.(ensemble_weights); is_fitted := s.(is_fitted);
     feature_cols := s.(feature_cols); X_test := s.(X_test); y_test := s.(y_test) |}.

Definition set_scaler (name : string) (sc : scaler) (s : forecaster) : forecaster :=
  {| models := s.(models); scalers := dict_set s.(scalers) name sc;
     ensemble_weights := s.(ensemble_weights); is_fitted := s.(is_fitted);
     feature_cols := s.(feature_cols); X_test := s.(X_test); y_test := s.(y_test) |}.

Definition set_ensemble_weights (w : dict Q) (s : forecaster) : forecaster :=
  {| models := s.(models); scalers := s.(scalers);
     ensemble_weights := w; is_fitted := s.(is_fitted);
     feature_cols := s.(feature_cols); X_test := s.(X_test); y_test := s.(y_test) |}.

Definition set_is_fitted (b : bool) (s : forecaster) : forecaster :=
  {| models := s.(models); scalers := s.(scalers);
     ensemble_weights := s.(ensemble_weights); is_fitted := b;
     feature_cols := s.(feature_cols); X_test := s.(X_test); y_test := s.(y_test) |}.

Definition set_feature_cols (c : list string) (s : forecaster) : forecaster :=
  {| models := s.(models); scalers := s.(scalers);
     ensemble_weights := s.(ensemble_weights); is_fitted := s.(is_fitted);
     feature_cols := c; X_test := s.(X_test); y_test := s.(y_test) |}.

Definition set_test (X : matrix) (y : list Q) (s : forecaster) : forecaster :=
  {| models := s.(models); scalers := s.(scalers);
     ensemble_weights := s.(ensemble_weights); is_fitted := s.(is_fitted);
     feature_cols := s.(feature_cols); X_test := X; y_test := y |}.

(** ** Methods that mutate the object

    A method takes the object and gives back the object as it has left it
    together with its outcome; what was assigned before an exception
    stays assigned. *)

Definition M (A : Type) : Type := forecaster -> forecaster * result A.

Definition ret {A} (a : A) : M A := fun s => (s, Ok a).

Definition bind {A B} (m : M A) (f : A -> M B) : M B :=
  fun s =>
    match m s with
    | (s', Ok a) => f a s'
    | (s', Raise e) => (s', Raise e)
    end.

Definition lift {A} (r : result A) : M A := fun s => (s, r).

Definition modify (f : forecaster -> forecaster) : M unit :=
  fun s => (f s, Ok tt).

(** [try: body except Exception: handler]. *)
Definition try_except {A} (body : M A) (handler : exn -> M A) : M A :=
  fun s =>
    match body s with
    | (s', Raise e) => handler e s'
    | r => r
    end.

Declare Scope py_scope.
Notation "x <- m ;; k" := (bind m (fun x => k))
  (at level 61, m at next level, right associativity) : py_scope.
Notation "m ;; k" := (bind m (fun _ => k))
  (at level 61, right associativity) : py_scope.
Open Scope py_scope.

(** What the libraries do during one call of [fit]. *)
Record fit_env : Type := {
  e_prepare_data : result (list string);        (* prepare_data: the feature columns *)
  e_train_test_split : result (matrix * list Q);(* the held-out X_test, y_test *)
  e_scale : result scaler;                      (* StandardScaler fitted on X_train *)
  e_rf : result model_obj;                      (* RandomForestRegressor.fit *)
  e_gb : result model_obj;                      (* GradientBoostingRegressor.fit *)
  e_ridge : result model_obj;                   (* Ridge.fit *)
  e_elastic : result model_obj;                 (* ElasticNet.fit *)
  e_arima : result model_obj;                   (* ARIMA(...).fit() *)
  e_lstm : result model_obj;                    (* _build_lstm_model *)
  e_cv : string -> model_obj -> result score    (* np.mean(cross_val_score(...)) *)
}.

(** [self.models[name] = Estimator(...); self.models[name].fit(...)]:
    the estimator is stored first, an exception of [fit] is not caught. *)
Definition train (name : string) (outcome : result model_obj) : M unit :=
  modify (set_model name (Some unfitted)) ;;
  m <- lift outcome ;;
  modify (set_model name (Some m)).

(** [try: self.models[name] = ... except Exception: self.models[name] = None]. *)
Definition train_guarded (name : string) (outcome : result model_obj) : M unit :=
  try_except
    (m <- lift outcome ;; modify (set_model name (Some m)))
    (fun _ => modify (set_model name None)).

(** The loop of [_calculate_ensemble_weights] over [self.models.items()]. *)
Fixpoint cv_loop (cv : string -> model_obj -> result score)
    (items : dict (option model_obj)) (cv_scores : dict score) : dict score :=
  match items with
  | [] => cv_scores
  | (name, None) :: rest => cv_loop cv rest cv_scores
  | (name, Some model) :: rest =>
      if name_in name ["ridge"; "elastic"]%string then
        cv_loop cv rest (dict_set cv_scores name
          (match cv name model with Ok s => s | Raise _ => Score 0 end))
      else if String.eqb name "arima" then cv_loop cv rest cv_scores
      else if String.eqb name "lstm" then cv_loop cv rest cv_scores
      else
        cv_loop cv rest (dict_set cv_scores name
          (match cv name model with Ok s => s | Raise _ => Score 0 end))
  end.

Definition total_score (cv_scores : dict score) : Q :=
  Qsum (map py_max0 (values cv_scores)).

(** The two dictionary comprehensions that normalise the scores. *)
Definition normalize_weights (cv_scores : dict score) : dict Q :=
  if Qgt0 (total_score cv_scores) then
    map (fun item => (fst item, py_max0 (snd item) / total_score cv_scores)) cv_scores
  else
    map (fun item => (fst item, 1 / Qlen cv_scores)) cv_scores.

Definition _calculate_ensemble_weights (cv : string -> model_obj -> result score) : M unit :=
  fun self =>
    let cv_scores := cv_loop cv self.(models) [] in
    (set_ensemble_weights (normalize_weights cv_scores) self, Ok tt).

Section Program.

(** The module-level flag set by the guarded TensorFlow import. *)
Variable TENSORFLOW_AVAILABLE : bool.

(** *** fit *)

Definition fit (env : fit_env) : M unit :=
  cols <- lift env.(e_prepare_data) ;;
  modify (set_feature_cols cols) ;;
  test <- lift env.(e_train_test_split) ;;
  modify (set_scaler "standard" unfitted_scaler) ;;
  modify (set_scaler "minmax" unfitted_scaler) ;;
  sc <- lift env.(e_scale) ;;
  modify (set_scaler "standard" sc) ;;
  train "rf" env.(e_rf) ;;
  train "gb" env.(e_gb) ;;
  train "ridge" env.(e_ridge) ;;
  train "elastic" env.(e_elastic) ;;
  train_guarded "arima" env.(e_arima) ;;
  (if TENSORFLOW_AVAILABLE then train_guarded "lstm" env.(e_lstm) else ret tt) ;;
  _calculate_ensemble_weights env.(e_cv) ;;
  modify (set_test (fst test) (snd test)) ;;
  modify (set_is_fitted true).

(** *** predict *)

Definition call_predict (model : model_obj) (X : matrix) : result (list Q) :=
  match model with
  | Regressor predict_fn => predict_fn X
  | ArimaResults _ => Raise (LibraryError "predict: not a feature-matrix regressor")
  end.

(** [model.fittedvalues.iloc[-1]]. *)
Definition last_fittedvalue (model : model_obj) : result Q :=
  match model with
  | ArimaResults fittedvalues =>
      match rev fittedvalues with
      | v :: _ => Ok v
      | [] => Raise (LibraryError "IndexError")
      end
  | Regressor _ => Raise (LibraryError "AttributeError: fittedvalues")
  end.

(** The body of the [try] in the prediction loop: [None] when no branch
    assigns a prediction for this name. *)
Definition model_prediction (name : string) (model : model_obj)
    (X X_scaled : matrix) : option (result (list Q)) :=
  if name_in name ["ridge"; "elastic"]%string then Some (call_predict model X_scaled)
  else if name_in name ["rf"; "gb"]%string then Some (call_predict model X)
  else if String.eqb name "arima" then
    Some (match last_fittedvalue model with
          | Ok v => Ok (repeat v (length X))
          | Raise e => Raise e
          end)
  else if String.eqb name "lstm" && TENSORFLOW_AVAILABLE then
    Some (call_predict model X_scaled)
  else None.

(** The loop over [self.models.items()] filling [predictions]; an
    exception of a model is caught and the model is left out. *)
Fixpoint collect_predictions (items : dict (option model_obj))
    (X X_scaled : matrix) (predictions : dict (list Q)) : dict (list Q) :=
  match items with
  | [] => predictions
  | (name, None) :: rest => collect_predictions rest X X_scaled predictions
  | (name, Some model) :: rest =>
      match model_prediction name model X X_scaled with
      | Some (Ok pred) =>
          collect_predictions rest X X_scaled (dict_set predictions name pred)
      | _ => collect_predictions rest X X_scaled predictions
      end
  end.

(** [ensemble_pred += weight * pred] on numpy arrays: shapes must agree,
    or [pred] has a single element that is broadcast. *)
Fixpoint add_scaled (weight : Q) (acc pred : list Q) : list Q :=
  match acc, pred with
  | a :: acc', p :: pred' => (a + weight * p) :: add_scaled weight acc' pred'
  | _, _ => []
  end.

Definition np_iadd (ensemble_pred : list Q) (weight : Q) (pred : list Q)
  : result (list Q) :=
  if (length pred =? length ensemble_pred)%nat then
    Ok (add_scaled weight ensemble_pred pred)
  else
    match pred with
    | [p] => Ok (map (fun a => a + weight * p) ensemble_pred)
    | _ => Raise (ValueError "operands could not be broadcast together")
    end.

(** [self.ensemble_weights.get(name, 0)]. *)
Definition weight_of (weights : dict Q) (name : string) : Q :=
  match dict_get weights name with
  | Some w => w
  | None => 0
  end.

(** The blending loop over [predictions.items()]. *)
Fixpoint blend (weights : dict Q) (items : dict (list Q))
    (ensemble_pred : list Q) (total_weight : Q) : result (list Q * Q) :=
  match items with
  | [] => Ok (ensemble_pred, total_weight)
  | (name, pred) :: rest =>
      let weight := weight_of weights name in
      match np_iadd ensemble_pred weight pred with
      | Ok ensemble_pred' => blend weights rest ensemble_pred' (total_weight + weight)
      | Raise e => Raise e
      end
  end.

Definition predict (self : forecaster) (X : matrix) : result (list Q) :=
  if negb self.(is_fitted) then
    Raise (ValueError "Model must be fitted before making predictions")
  else
    match dict_get self.(scalers) "standard" with
    | None => Raise (LibraryError "KeyError: standard")
    | Some standard =>
        match standard.(transform) X with
        | Raise e => Raise e
        | Ok X_scaled =>
            let predictions := collect_predictions self.(models) X X_scaled [] in
            match predictions with
            | [] => Raise (ValueError "No models available for prediction")
            | _ :: _ =>
                match blend self.(ensemble_weights) predictions
                        (repeat 0 (length X)) 0 with
                | Raise e => Raise e
                | Ok (ensemble_pred, total_weight) =>
                    if Qgt0 total_weight then
                      Ok (map (fun v => v / total_weight) ensemble_pred)
                    else Ok ensemble_pred
                end
            end
        end
    end.

(** *** evaluate *)

Fixpoint sub_list (a b : list Q) : list Q :=
  match a, b with
  | x :: a', y :: b' => (x - y) :: sub_list a' b'
  | _, _ => []
  end.

(** Element-wise [np.abs((y_true - y_pred) / y_true)]. *)
Fixpoint ape_terms (y_true y_pred : list Q) : list fval :=
  match y_true, y_pred with
  | y :: ys, p :: ps => fabs (fdiv (y - p) y) :: ape_terms ys ps
  | _, _ => []
  end.

Definition is_nan (x : fval) : bool :=
  match x with NaN => true | _ => false end.

(** [np.mean] of a pandas series goes to [Series.mean], which leaves
    not-a-number entries out. *)
Definition series_mean (xs : list fval) : fval :=
  let present := filter (fun x => negb (is_nan x)) xs in
  match present with
  | [] => NaN
  | _ :: _ =>
      match fold_right fadd (Fin 0) present with
      | Fin total => Fin (total / Qlen present)
      | other => other
      end
  end.

(** scikit-learn's [r2_score]: not-a-number below two samples; a constant
    sample scores 1 when matched exactly and 0 otherwise. *)
Definition r2_score (y_true y_pred : list Q) : fval :=
  let ss_res := Qsum (map (fun d => d * d) (sub_list y_true y_pred)) in
  let ss_tot := Qsum (map (fun y => (y - mean y_true) * (y - mean y_true)) y_true) in
  if (length y_true <? 2)%nat then NaN
  else if Qeq_bool ss_tot 0 then (if Qeq_bool ss_res 0 then Fin 1 else Fin 0)
  else Fin (1 - ss_res / ss_tot).

(** The metrics mapping.  [MSE] is the mean squared error whose square
    root the program stores under the key RMSE. *)
Record metrics : Type := {
  MAE : Q;
  MSE : Q;
  R2 : fval;
  MAPE : fval
}.

Definition evaluate (self : forecaster) : result metrics :=
  if negb self.(is_fitted) then
    Raise (ValueError "Model must be fitted before evaluation")
  else
    match predict self self.(X_test) with
    | Raise e => Raise e
    | Ok y_pred =>
        if (length self.(y_test) =? length y_pred)%nat
           && (1 <=? length self.(y_test))%nat then
          Ok {| MAE := mean (map Qabs (sub_list self.(y_test) y_pred));
                MSE := mean (map (fun d => d * d) (sub_list self.(y_test) y_pred));
                R2 := r2_score self.(y_test) y_pred;
                MAPE := fscale 100 (series_mean (ape_terms self.(y_test) y_pred)) |}
        else
          Raise (ValueError "Found input variables with inconsistent numbers of samples")
    end.

End Program.

(** ** Observation tables *)

(** The raw weather columns of a row. *)
Record weather : Type := {
  temperature_avg : Q;
  temperature_min : Q;
  temperature_max : Q;
  precipitation : Q;
  humidity : Q;
  wind_speed : Q;
  solar_radiation : Q
}.

(** A row of the observation table; dates are day numbers. *)
Record observation : Type := {
  date : Z;
  raw : weather;
  growing_degree_days : Q;
  frost_days : Z;
  heating_degree_days : Q;
  cooling_degree_days : Q;
  drought_index : fval;
  commodity_price : Q
}.

Definition table : Type := list observation.

(** [df['date'].max()] of a table with at least one row, [d0] being the
    date of one of its rows. *)
Definition max_date (d0 : Z) (df : table) : Z :=
  fold_left Z.max (map date df) d0.

(** [pd.date_range(start, periods=n, freq='D')] for [n >= 0]. *)
Definition date_range (start : Z) (periods : nat) : list Z :=
  map (fun i => (start + Z.of_nat i)%Z) (seq 0 periods).

(** [seq[-n:]] for [n >= 0]: the whole sequence when [n] is 0. *)
Definition py_tail {A} (n : nat) (l : list A) : list A :=
  match n with
  | O => l
  | S _ => skipn (length l - n) l
  end.

(** [fillna(method='ffill')] down the columns, then [fillna(0)]. *)
Fixpoint ffill_row (prev cur : list (option Q)) : list (option Q) :=
  match cur with
  | [] => []
  | c :: cs =>
      match c with
      | Some _ => c
      | None => hd None prev
      end :: ffill_row (tl prev) cs
  end.

Fixpoint ffill (prev : list (option Q)) (rows : list (list (option Q)))
  : list (list (option Q)) :=
  match rows with
  | [] => []
  | r :: rs => let r' := ffill_row prev r in r' :: ffill r' rs
  end.

Definition fillna_zero (rows : list (list (option Q))) : matrix :=
  map (map (fun c => match c with Some q => q | None => 0 end)) rows.

(** Rows of [future_df]: dates, synthetic weather, derived columns, the
    drought index of the future precipitation, the placeholder price. *)
Fixpoint future_rows (dates : list Z) (ws : list weather) (drought : list fval)
    (last_price : Q) : table :=
  match dates, ws, drought with
  | d :: dates', w :: ws', di :: drought' =>
      {| date := d;
         raw := w;
         growing_degree_days :=
           Qmax 0 ((w.(temperature_max) + w.(temperature_min)) / 2 - 10);
         frost_days := if Qlt_le_dec w.(temperature_min) 0 then 1%Z else 0%Z;
         heating_degree_days := Qmax 0 (18 - w.(temperature_avg));
         cooling_degree_days := Qmax 0 (w.(temperature_avg) - 18);
         drought_index := di;
         commodity_price := last_price |}
      :: future_rows dates' ws' drought' last_price
  | _, _, _ => []
  end.

Section Forecast.

Variable TENSORFLOW_AVAILABLE : bool.

(** The seeded pseudo-random weather generator: row [i] of the [n] rows
    drawn for a horizon of [n] days. *)
Variable synthetic_weather : nat -> nat -> weather.

(** [create_features] followed by the selection of [self.feature_cols]:
    the feature values of row [i] of a table, [None] where the window or
    lag reaches before the first row.  Columns are only added, so the
    feature table has the rows of the table it is built from. *)
Variable feature_row : list string -> table -> nat -> list (option Q).

Definition create_features (cols : list string) (df : table)
  : list (list (option Q)) :=
  map (feature_row cols df) (seq 0 (length df)).

(** [future_df]: one row per future date. *)
Definition future_df (last_date : Z) (last_price : Q) (n : nat) : result table :=
  let future_dates := date_range (last_date + 1)%Z n in
  let future_weather := map (synthetic_weather n) (seq 0 n) in
  match _calculate_drought_index (map precipitation future_weather)
          default_window with
  | Raise e => Raise e
  | Ok drought => Ok (future_rows future_dates future_weather drought last_price)
  end.

(** [combined_features.iloc[-n_days:][self.feature_cols]], forward-filled
    and zero-filled. *)
Definition future_features (cols : list string) (df future : table) (n : nat)
  : matrix :=
  let combined_df := df ++ future in
  let combined_features := create_features cols combined_df in
  fillna_zero (ffill [] (py_tail n combined_features)).

(** [forecast_df['predicted_price'] = future_predictions] followed by the
    selection of the two output columns.  pandas demands as many values as
    the frame has rows, except that a frame without rows takes its index
    from the values: the other columns, the date among them, are then
    missing in every row. *)
Definition set_predicted_price (future : table) (future_predictions : list Q)
  : result (list (option Z * Q)) :=
  match future, future_predictions with
  | [], _ :: _ => Ok (map (fun p => (None, p)) future_predictions)
  | _, _ =>
      if (length future_predictions =? length future)%nat then
        Ok (combine (map (fun o => Some o.(date)) future) future_predictions)
      else
        Raise (ValueError "Length of values does not match length of index")
  end.

Definition forecast_future (self : forecaster) (df : table) (n_days : Z)
  : result (list (option Z * Q)) :=
  if negb self.(is_fitted) then
    Raise (ValueError "Model must be fitted before forecasting")
  else
    match rev df with
    | [] => Raise (LibraryError "IndexError: single positional indexer is out-of-bounds")
    | last_row :: _ =>
        let last_date := max_date last_row.(date) df in
        let last_price := last_row.(commodity_price) in
        if (n_days <? 0)%Z then
          (* [pd.date_range] is the first call to see the horizon, and it
             takes no negative number of periods *)
          Raise (LibraryError "OverflowError")
        else
          let n := Z.to_nat n_days in
          match future_df last_date last_price n with
          | Raise e => Raise e
          | Ok future =>
              match predict TENSORFLOW_AVAILABLE self
                      (future_features self.(feature_cols) df future n) with
              | Raise e => Raise e
              | Ok future_predictions =>
                  set_predicted_price future future_predictions
              end
          end
    end.

End Forecast.

(** ** Vocabulary of the properties *)

(** The [predictions] dictionary that [predict] builds for [X]: the models
    whose prediction call succeeded, with what they predicted.  [None]
    when the standard scaler is missing or rejects [X], in which case no
    model is called. *)
Definition predictions (tf : bool) (self : forecaster) (X : matrix)
  : option (dict (list Q)) :=
  match dict_get self.(scalers) "standard" with
  | None => None
  | Some standard =>
      match standard.(transform) X with
      | Raise _ => None
      | Ok X_scaled => Some (collect_predictions tf self.(models) X X_scaled [])
      end
  end.

(** Every prediction has one value per row of [X], as the regressors'
    interface promises. *)
Definition well_shaped (P : dict (list Q)) (X : matrix) : Prop :=
  Forall (fun item => length (snd item) = length X) P.

(** The weighted sum of the predictions at row [i], and the sum of the
    weights of the models that predicted. *)
Definition weighted_sum (W : dict Q) (P : dict (list Q)) (i : nat) : Q :=
  Qsum (map (fun item => weight_of W (fst item) * nth i (snd item) 0) P).

Definition weight_total (W : dict Q) (P : dict (list Q)) : Q :=
  Qsum (map (fun item => weight_of W (fst item)) P).

(** The blend as the specification words it: at every row the weighted
    sum divided by the sum of the weights used. *)
Definition blend_as_specified (W : dict Q) (P : dict (list Q)) (ys : list Q)
  : Prop :=
  forall i, (i < length ys)%nat ->
    feq (Fin (nth i ys 0)) (fdiv (weighted_sum W P i) (weight_total W P)).

(** The models that the weighting loop leaves unscored. *)
Definition skipped_in_cv (name : string) : bool :=
  String.eqb name "arima" || String.eqb name "lstm".

(** The prediction call of the model stored under [name] succeeds on [X]
    with the values [pred]. *)
Definition model_answers (tf : bool) (self : forecaster) (X : matrix)
    (name : string) (pred : list Q) : Prop :=
  exists standard X_scaled model,
    dict_get self.(scalers) "standard" = Some standard /\
    standard.(transform) X = Ok X_scaled /\
    In (name, Some model) self.(models) /\
    model_prediction tf name model X X_scaled = Some (Ok pred).

(** The score recorded for a model: its mean R², or 0 when the
    cross-validation raised. *)
Definition recorded_score (cv : string -> model_obj -> result score)
    (name : string) (model : model_obj) : score :=
  match cv name model with
  | Ok s => s
  | Raise _ => Score 0
  end.

(** Objects on which no [fit] has completed: the fresh object, and what a
    failed [fit] leaves behind. *)
Inductive never_fitted (tf : bool) : forecaster -> Prop :=
| nf_init : never_fitted tf init
| nf_failed (env : fit_env) (s s' : forecaster) (e : exn) :
    never_fitted tf s ->
    fit tf env s = (s', Raise e) ->
    never_fitted tf s'.

(** [d] is the largest date of the table. *)
Definition is_max_date (df : table) (d : Z) : Prop :=
  In d (map date df) /\ Forall (fun o => (o.(date) <= d)%Z) df.

(** Element-wise absolute percentage errors over nonzero actuals. *)
Fixpoint ape_exact (y_true y_pred : list Q) : list Q :=
  match y_true, y_pred with
  | y :: ys, p :: ps => Qabs ((y - p) / y) :: ape_exact ys ps
  | _, _ => []
  end.

(** The failure policy as the specification words it: with the data
    prepared, [fit] completes as soon as one of the six trainings does. *)
Definition some_training_succeeds (env : fit_env) : Prop :=
  returns env.(e_rf) = true \/ returns env.(e_gb) = true \/
  returns env.(e_ridge) = true \/ returns env.(e_elastic) = true \/
  returns env.(e_arima) = true \/ returns env.(e_lstm) = true.

Definition data_prepared (env : fit_env) : Prop :=
  returns env.(e_prepare_data) = true /\
  returns env.(e_train_test_split) = true /\
  returns env.(e_scale) = true.

Definition failure_policy_as_specified (tf : bool) (env : fit_env)
    (s : forecaster) : Prop :=
  data_prepared env -> some_training_succeeds env ->
  returns (snd (fit tf env s)) = true.

(** The forecast table as the specification words it. *)
Definition forecast_as_specified (out : result (list (option Z * Q)))
    (d : Z) (n : Z) : Prop :=
  exists rows, out = Ok rows /\
    Z.of_nat (length rows) = n /\
    forall i, (i < length rows)%nat ->
      nth i (map fst rows) None = Some (d + 1 + Z.of_nat i)%Z.

(** ** The ensemble weights as the specification words them *)

(** The models that the weighting loop cross-validates: every model that
    is stored, the ARIMA and LSTM entries apart. *)
Definition cross_validated (ms : dict (option model_obj))
  : list (string * model_obj) :=
  flat_map (fun item =>
              match snd item with
              | Some model =>
                  if skipped_in_cv (fst item) then [] else [(fst item, model)]
              | None => []
              end) ms.

(** The mean R² of a model, clipped below at 0.  A model whose
    cross-validation raised counts with 0, and so does a mean that is
    not a number. *)
Definition clipped_score (cv : string -> model_obj -> result score)
    (item : string * model_obj) : Q :=
  match cv (fst item) (snd item) with
  | Ok (Score q) => Qmax 0 q
  | Ok ScoreNaN => 0
  | Raise _ => 0
  end.

Definition clipped_total (cv : string -> model_obj -> result score)
    (scored : list (string * model_obj)) : Q :=
  fold_right Qplus 0 (map (clipped_score cv) scored).

(** A model produced a cross-validated score: it is one of the models
    that are cross-validated, and the scoring call returned. *)
Definition produced_score (cv : string -> model_obj -> result score)
    (ms : dict (option model_obj)) (name : string) : Prop :=
  exists model sc,
    In (name, model) (cross_validated ms) /\ cv name model = Ok sc.

(** The key set of the weights as the specification words it. *)
Definition weights_over_scoring_models_as_specified
    (cv : string -> model_obj -> result score)
    (ms : dict (option model_obj)) (W : dict Q) : Prop :=
  forall name, In name (keys W) <-> produced_score cv ms name.

(** ** predict on arrays with non-finite entries (src/Model.Py, [predict])

    [model_obj] keeps every predicted value finite.  The arrays that the
    libraries hand back can hold not-a-number or an infinity (a network
    whose training diverged, a degenerate ARIMA fit), and the blend
    multiplies every entry by the weight of its model, also when that
    weight is 0.  [Raw] is [predict] once more, on such arrays; on
    finite arrays it is [predict] itself. *)

Module Raw.

Inductive model_obj : Type :=
| Regressor (predict_fn : matrix -> result (list fval))
| ArimaResults (fittedvalues : list fval).

(** The attributes that [predict] reads. *)
Record forecaster : Type := {
  models : dict (option model_obj);
  scalers : dict scaler;
  ensemble_weights : dict Q;
  is_fitted : bool
}.

(** [weight * x] for a finite weight: zero times an infinity is
    not-a-number. *)
Definition fmul (weight : Q) (x : fval) : fval :=
  match x with
  | Fin q => Fin (weight * q)
  | PInf => match weight ?= 0 with Eq => NaN | Gt => PInf | Lt => NInf end
  | NInf => match weight ?= 0 with Eq => NaN | Gt => NInf | Lt => PInf end
  | NaN => NaN
  end.

(** [x / total_weight] behind the test [total_weight > 0]. *)
Definition fdiv_by (total_weight : Q) (x : fval) : fval :=
  match x with
  | Fin q => Fin (q / total_weight)
  | _ => x
  end.

Section Program.

Variable TENSORFLOW_AVAILABLE : bool.

Definition call_predict (model : model_obj) (X : matrix) : result (list fval) :=
  match model with
  | Regressor predict_fn => predict_fn X
  | ArimaResults _ => Raise (LibraryError "predict: not a feature-matrix regressor")
  end.

Definition last_fittedvalue (model : model_obj) : result fval :=
  match model with
  | ArimaResults fittedvalues =>
      match rev fittedvalues with
      | v :: _ => Ok v
      | [] => Raise (LibraryError "IndexError")
      end
  | Regressor _ => Raise (LibraryError "AttributeError: fittedvalues")
  end.

Definition model_prediction (name : string) (model : model_obj)
    (X X_scaled : matrix) : option (result (list fval)) :=
  if name_in name ["ridge"; "elastic"]%string then Some (call_predict model X_scaled)
  else if name_in name ["rf"; "gb"]%string then Some (call_predict model X)
  else if String.eqb name "arima" then
    Some (match last_fittedvalue model with
          | Ok v => Ok (repeat v (length X))
          | Raise e => Raise e
          end)
  else if String.eqb name "lstm" && TENSORFLOW_AVAILABLE then
    Some (call_predict model X_scaled)
  else None.

Fixpoint collect_predictions (items : dict (option model_obj))
    (X X_scaled : matrix) (predictions : dict (list fval)) : dict (list fval) :=
  match items with
  | [] => predictions
  | (name, None) :: rest => collect_predictions rest X X_scaled predictions
  | (name, Some model) :: rest =>
      match model_prediction name model X X_scaled with
      | Some (Ok pred) =>
          collect_predictions rest X X_scaled (dict_set predictions name pred)
      | _ => collect_predictions rest X X_scaled predictions
      end
  end.

(** [ensemble_pred += weight * pred]. *)
Fixpoint add_scaled (weight : Q) (acc pred : list fval) : list fval :=
  match acc, pred with
  | a :: acc', p :: pred' => fadd a (fmul weight p) :: add_scaled weight acc' pred'
  | _, _ => []
  end.

Definition np_iadd (ensemble_pred : list fval) (weight : Q) (pred : list fval)
  : result (list fval) :=
  if (length pred =? length ensemble_pred)%nat then
    Ok (add_scaled weight ensemble_pred pred)
  else
    match pred with
    | [p] => Ok (map (fun a => fadd a (fmul weight p)) ensemble_pred)
    | _ => Raise (ValueError "operands could not be broadcast together")
    end.

Fixpoint blend (weights : dict Q) (items : dict (list fval))
    (ensemble_pred : list fval) (total_weight : Q) : result (list fval * Q) :=
  match items with
  | [] => Ok (ensemble_pred, total_weight)
  | (name, pred) :: rest =>
      let weight := weight_of weights name in
      match np_iadd ensemble_pred weight pred with
      | Ok ensemble_pred' => blend weights rest ensemble_pred' (total_weight + weight)
      | Raise e => Raise e
      end
  end.

(** The branch [if predictions:] for [n] feature rows: the blending loop
    and the division behind its guard. *)
Definition ensemble (weights : dict Q) (predictions : dict (list fval))
    (n : nat) : result (list fval) :=
  match blend weights predictions (repeat (Fin 0) n) 0 with
  | Raise e => Raise e
  | Ok (ensemble_pred, total_weight) =>
      if Qgt0 total_weight then Ok (map (fdiv_by total_weight) ensemble_pred)
      else Ok ensemble_pred
  end.

Definition predict (self : forecaster) (X : matrix) : result (list fval) :=
  if negb self.(is_fitted) then
    Raise (ValueError "Model must be fitted before making predictions")
  else
    match dict_get self.(scalers) "standard" with
    | None => Raise (LibraryError "KeyError: standard")
    | Some standard =>
        match standard.(transform) X with
        | Raise e => Raise e
        | Ok X_scaled =>
            let predictions := collect_predictions self.(models) X X_scaled [] in
            match predictions with
            | [] => Raise (ValueError "No models available for prediction")
            | _ :: _ => ensemble self.(ensemble_weights) predictions (length X)
            end
        end
    end.

(** The [predictions] dictionary that [predict] builds for [X]. *)
Definition predictions (self : forecaster) (X : matrix)
  : option (dict (list fval)) :=
  match dict_get self.(scalers) "standard" with
  | None => None
  | Some standard =>
      match standard.(transform) X with
      | Raise _ => None
      | Ok X_scaled => Some (collect_predictions self.(models) X X_scaled [])
      end
  end.

End Program.

(** Every prediction has one value per row. *)
Definition well_shaped (P : dict (list fval)) (n : nat) : Prop :=
  Forall (fun item => length (snd item) = n) P.

Definition all_finite (P : dict (list fval)) : Prop :=
  Forall (fun item => Forall (fun v => is_finite v = true) (snd item)) P.

(** The predictions of the models that the weighting loop scores. *)
Definition scored_predictions (P : dict (list fval)) : dict (list fval) :=
  filter (fun item => negb (skipped_in_cv (fst item))) P.

(** The zero-weight case as the specification words it: whenever every
    model that predicted has weight 0, the result is all zeros. *)
Definition zero_weights_as_specified (tf : bool) (self : forecaster)
    (X : matrix) : Prop :=
  forall P,
    predictions tf self X = Some P ->
    P <> [] ->
    well_shaped P (length X) ->
    (forall name, In name (keys P) -> weight_of self.(ensemble_weights) name == 0) ->
    exists ys, predict tf self X = Ok ys /\
      length ys = length X /\
      Forall (fun y => feq y (Fin 0)) ys.

End Raw.

(** A model and an object of the finite model, seen with raw arrays. *)
Definition raw_model (m : model_obj) : Raw.model_obj :=
  match m with
  | Regressor predict_fn =>
      Raw.Regressor (fun X => match predict_fn X with
                              | Ok pred => Ok (map Fin pred)
                              | Raise e => Raise e
                              end)
  | ArimaResults fittedvalues => Raw.ArimaResults (map Fin fittedvalues)
  end.

Definition raw_forecaster (s : forecaster) : Raw.forecaster :=
  {| Raw.models := map (fun item => (fst item, option_map raw_model (snd item)))
                       s.(models);
     Raw.scalers := s.(scalers);
     Raw.ensemble_weights := s.(ensemble_weights);
     Raw.is_fitted := s.(is_fitted) |}.

Definition raw_item (item : string * list Q) : string * list fval :=
  (fst item, map Fin (snd item)).

(** The value 0, up to the equality of rationals. *)
Definition is_zero (y : fval) : Prop := feq y (Fin 0).

(** ** Worked runs

    Small concrete library outcomes on which the methods can be run. *)

Definition identity_scaler : scaler := {| transform := fun X => Ok X |}.

(** A regressor that predicts the first feature of each row. *)
Definition first_feature : model_obj :=
  Regressor (fun X => Ok (map (fun row => hd 0 row) X)).

Definition constant_model (c : Q) : model_obj :=
  Regressor (fun X => Ok (repeat c (length X))).

(** A fitted regressor whose [predict] rejects what it is given. *)
Definition rejecting_model : model_obj :=
  Regressor (fun _ => Raise (LibraryError "Input contains infinity")).

Definition demo_cv (name : string) (_ : model_obj) : result score :=
  if String.eqb name "rf" then Ok (Score (3 # 4))
  else if String.eqb name "gb" then Ok (Score (1 # 4))
  else if String.eqb name "ridge" then Ok (Score (- (1 # 2)))
  else Raise (LibraryError "cross_val_score failed").

(** Every training succeeds. *)
Definition demo_env : fit_env :=
  {| e_prepare_data := Ok ["temperature_avg"; "price_lag1"]%string;
     e_train_test_split := Ok ([[1; 2]; [3; 4]], [10; 20]);
     e_scale := Ok identity_scaler;
     e_rf := Ok first_feature;
     e_gb := Ok (constant_model 2);
     e_ridge := Ok (constant_model 4);
     e_elastic := Ok (constant_model 8);
     e_arima := Ok (ArimaResults [5; 7]);
     e_lstm := Ok (constant_model 6);
     e_cv := demo_cv |}.

Definition demo_fitted : forecaster := fst (fit true demo_env init).

(** The ARIMA and LSTM trainings fail, the four regressors fit. *)
Definition env_optional_fail : fit_env :=
  {| e_prepare_data := Ok ["temperature_avg"; "price_lag1"]%string;
     e_train_test_split := Ok ([[1; 2]; [3; 4]], [10; 20]);
     e_scale := Ok identity_scaler;
     e_rf := Ok first_feature;
     e_gb := Ok (constant_model 2);
     e_ridge := Ok (constant_model 4);
     e_elastic := Ok (constant_model 8);
     e_arima := Raise (LibraryError "LinAlgError");
     e_lstm := Raise (LibraryError "ResourceExhaustedError");
     e_cv := demo_cv |}.

(** The random forest fails to train, everything else would fit. *)
Definition env_rf_fails : fit_env :=
  {| e_prepare_data := Ok ["temperature_avg"; "price_lag1"]%string;
     e_train_test_split := Ok ([[1; 2]; [3; 4]], [10; 20]);
     e_scale := Ok identity_scaler;
     e_rf := Raise (LibraryError "MemoryError");
     e_gb := Ok (constant_model 2);
     e_ridge := Ok (constant_model 4);
     e_elastic := Ok (constant_model 8);
     e_arima := Ok (ArimaResults [5; 7]);
     e_lstm := Ok (constant_model 6);
     e_cv := demo_cv |}.

(** The regressors fit but reject the rows they are later asked about;
    only the ARIMA fit can answer. *)
Definition env_arima_only : fit_env :=
  {| e_prepare_data := Ok ["temperature_avg"; "price_lag1"]%string;
     e_train_test_split := Ok ([[1; 2]; [3; 4]], [10; 20]);
     e_scale := Ok identity_scaler;
     e_rf := Ok rejecting_model;
     e_gb := Ok rejecting_model;
     e_ridge := Ok rejecting_model;
     e_elastic := Ok rejecting_model;
     e_arima := Ok (ArimaResults [5; 7]);
     e_lstm := Raise (LibraryError "ResourceExhaustedError");
     e_cv := demo_cv |}.

Definition arima_only_fitted : forecaster := fst (fit false env_arima_only init).

(** As before, and the ARIMA training fails as well: fitted, yet no model
    can answer. *)
Definition env_no_answer : fit_env :=
  {| e_prepare_data := Ok ["temperature_avg"; "price_lag1"]%string;
     e_train_test_split := Ok ([[1; 2]; [3; 4]], [10; 20]);
     e_scale := Ok identity_scaler;
     e_rf := Ok rejecting_model;
     e_gb := Ok rejecting_model;
     e_ridge := Ok rejecting_model;
     e_elastic := Ok rejecting_model;
     e_arima := Raise (LibraryError "LinAlgError");
     e_lstm := Raise (LibraryError "ResourceExhaustedError");
     e_cv := demo_cv |}.

Definition no_answer_fitted : forecaster := fst (fit false env_no_answer init).

(** A held-out split whose first actual price is 0. *)
Definition env_zero_price : fit_env :=
  {| e_prepare_data := Ok ["temperature_avg"; "price_lag1"]%string;
     e_train_test_split := Ok ([[1; 2]; [3; 4]], [0; 2]);
     e_scale := Ok identity_scaler;
     e_rf := Ok first_feature;
     e_gb := Ok (constant_model 2);
     e_ridge := Ok (constant_model 4);
     e_elastic := Ok (constant_model 8);
     e_arima := Raise (LibraryError "LinAlgError");
     e_lstm := Raise (LibraryError "ResourceExhaustedError");
     e_cv := demo_cv |}.

Definition zero_price_fitted : forecaster := fst (fit false env_zero_price init).

(** A two-day history, a flat synthetic weather, and two feature columns:
    the average temperature and the price of the day before. *)
Definition calm : weather :=
  {| temperature_avg := 15; temperature_min := 10; temperature_max := 20;
     precipitation := 2; humidity := 50; wind_speed := 4;
     solar_radiation := 200 |}.

Definition demo_day (d : Z) (price : Q) : observation :=
  {| date := d; raw := calm; growing_degree_days := 5; frost_days := 0%Z;
     heating_degree_days := 3; cooling_degree_days := 0;
     drought_index := Fin 0; commodity_price := price |}.

Definition demo_history : table := [demo_day 100 200; demo_day 101 210].

Definition demo_weather (n i : nat) : weather := calm.

Definition demo_feature_row (cols : list string) (df : table) (i : nat)
  : list (option Q) :=
  [option_map (fun o => o.(raw).(temperature_avg)) (nth_error df i);
   match i with
   | O => None
   | S j => option_map commodity_price (nth_error df j)
   end].

(** Every cross-validation raises, as it does when the training rows are
    too few for the folds; every training succeeds. *)
Definition env_cv_fails : fit_env :=
  {| e_prepare_data := Ok ["temperature_avg"; "price_lag1"]%string;
     e_train_test_split := Ok ([[1; 2]; [3; 4]], [10; 20]);
     e_scale := Ok identity_scaler;
     e_rf := Ok first_feature;
     e_gb := Ok (constant_model 2);
     e_ridge := Ok (constant_model 4);
     e_elastic := Ok (constant_model 8);
     e_arima := Ok (ArimaResults [5; 7]);
     e_lstm := Ok (constant_model 6);
     e_cv := fun _ _ =>
       Raise (LibraryError "ValueError: number of folds greater than the number of samples") |}.

Definition cv_fails_fitted : forecaster := fst (fit true env_cv_fails init).

(** A network whose training has diverged: not-a-number for every row. *)
Definition diverged_network : Raw.model_obj :=
  Raw.Regressor (fun X => Ok (repeat NaN (length X))).

(** A fitted object on which only the network answers: no regressor
    accepts the rows, the ARIMA training has failed, and the network
    under the key lstm has diverged. *)
Definition diverged_fitted : Raw.forecaster :=
  let s := raw_forecaster (fst (fit true env_no_answer init)) in
  {| Raw.models := dict_set (Raw.models s) "lstm" (Some diverged_network);
     Raw.scalers := Raw.scalers s;
     Raw.ensemble_weights := Raw.ensemble_weights s;
     Raw.is_fitted := Raw.is_fitted s |}.

(** ** Feature construction (src/Model.Py, [create_features] and
    [prepare_data])

    A data frame is its date column and its numeric columns, in column
    order.  A numeric cell is a finite value or missing.  The rolling
    standard deviation, the calendar fields of a date and the two
    trigonometric encodings are functions of pandas and numpy and enter as
    parameters. *)

Module Frame.

Abbreviation cell := (option Q).
Abbreviation column := (list (option Q)).

Record frame : Type := {
  date_column : option (list Z);
  columns : dict column
}.

(** [self.weather_features], as [__init__] fills it. *)
Definition weather_features : dict (list string) :=
  [("agricultural",
    ["temperature_avg"; "temperature_min"; "temperature_max";
     "precipitation"; "humidity"; "wind_speed";
     "growing_degree_days"; "frost_days"; "drought_index"]);
   ("energy",
    ["temperature_avg"; "temperature_min"; "temperature_max";
     "wind_speed"; "solar_radiation"; "heating_degree_days";
     "cooling_degree_days"])]%string.

(** [Series.shift(k)] for [k >= 0]: the values move down by [k] rows, the
    first [k] rows are missing. *)
Definition shift (k : nat) (c : column) : column :=
  firstn (length c) (repeat None k ++ c).

(** The values of a window, when none of them is missing. *)
Fixpoint present_values (l : list cell) : option (list Q) :=
  match l with
  | [] => Some []
  | None :: _ => None
  | Some q :: t =>
      match present_values t with
      | Some qs => Some (q :: qs)
      | None => None
      end
  end.

(** [Series.rolling(w).agg()]: [min_periods] defaults to the window, so a
    row has a value only when the [w] rows ending at it are all there. *)
Definition rolling (w : nat) (agg : list Q -> Q) (c : column) : column :=
  map (fun i =>
         if (S i <? w)%nat then None
         else option_map agg (present_values (skipn (S i - w) (firstn (S i) c))))
      (seq 0 (length c)).

(** [df[name]] for a column known to be there. *)
Definition getcol (df : dict column) (name : string) : column :=
  match dict_get df name with
  | Some c => c
  | None => []
  end.

(** [str.endswith]. *)
Definition ends_with (suffix s : string) : bool :=
  (String.length suffix <=? String.length s)%nat &&
  String.eqb
    (substring (String.length s - String.length suffix)
       (String.length suffix) s)
    suffix.

Section Features.

Variable rolling_std : list Q -> Q.
Variables month_of day_of_year_of year_of : Z -> Z.
(** [x |-> sin(2 pi x)] and [x |-> cos(2 pi x)]. *)
Variables sin_2pi cos_2pi : Q -> Q.

(** The body of the loop over the weather features. *)
Definition add_lag_features (df : dict column) (col : string) : dict column :=
  match dict_get df col with
  | None => df
  | Some _ =>
      let df1 := dict_set df (col ++ "_lag1") (shift 1 (getcol df col)) in
      let df2 := dict_set df1 (col ++ "_lag7") (shift 7 (getcol df1 col)) in
      let df3 := dict_set df2 (col ++ "_ma7") (rolling 7 mean (getcol df2 col)) in
      dict_set df3 (col ++ "_ma30") (rolling 30 mean (getcol df3 col))
  end.

Definition add_price_features (df : dict column) : dict column :=
  match dict_get df "commodity_price" with
  | None => df
  | Some _ =>
      let df1 := dict_set df "price_lag1" (shift 1 (getcol df "commodity_price")) in
      let df2 := dict_set df1 "price_lag7" (shift 7 (getcol df1 "commodity_price")) in
      let df3 := dict_set df2 "price_ma7"
                   (rolling 7 mean (getcol df2 "commodity_price")) in
      let df4 := dict_set df3 "price_ma30"
                   (rolling 30 mean (getcol df3 "commodity_price")) in
      dict_set df4 "price_volatility"
        (rolling 30 rolling_std (getcol df4 "commodity_price"))
  end.

Definition of_dates (f : Z -> Z) (ds : list Z) : column :=
  map (fun d => Some (inject_Z (f d))) ds.

Definition encode (f : Q -> Q) (period : Q) (c : column) : column :=
  map (option_map (fun v => f (v / period))) c.

(** The time and seasonal columns. *)
Definition add_time_features (ds : list Z) (df : dict column) : dict column :=
  let df1 := dict_set df "month" (of_dates month_of ds) in
  let df2 := dict_set df1 "day_of_year" (of_dates day_of_year_of ds) in
  let df3 := dict_set df2 "year" (of_dates year_of ds) in
  let df4 := dict_set df3 "month_sin" (encode sin_2pi 12 (getcol df3 "month")) in
  let df5 := dict_set df4 "month_cos" (encode cos_2pi 12 (getcol df4 "month")) in
  let df6 := dict_set df5 "day_sin" (encode sin_2pi 365 (getcol df5 "day_of_year")) in
  dict_set df6 "day_cos" (encode cos_2pi 365 (getcol df6 "day_of_year")).

Definition create_features (commodity_type : string) (df : frame) : result frame :=
  match dict_get weather_features commodity_type with
  | None => Raise (LibraryError "KeyError: commodity_type")
  | Some features =>
      let with_lags := fold_left add_lag_features features df.(columns) in
      let with_price := add_price_features with_lags in
      match df.(date_column) with
      | None => Raise (LibraryError "KeyError: date")
      | Some ds =>
          Ok {| date_column := Some ds;
                columns := add_time_features ds with_price |}
      end
  end.

(** Row [i] of the selected columns. *)
Definition row_at (df : dict column) (cols : list string) (i : nat) : list cell :=
  map (fun col => nth i (getcol df col) None) cols.

(** [df[cols].dropna()]: the rows without a missing cell, under their
    index labels. *)
Definition dropna (df : dict column) (cols : list string) (n : nat)
  : list (nat * list Q) :=
  flat_map (fun i =>
              match present_values (row_at df cols i) with
              | Some values => [(i, values)]
              | None => []
              end)
           (seq 0 n).

Definition prepare_data (commodity_type : string) (df : frame)
    (target_col : string)
  : result (list (nat * list Q) * list cell * list string) :=
  match create_features commodity_type df with
  | Raise e => Raise e
  | Ok df_features =>
      let feature_cols :=
        filter (fun col => negb (name_in col ["date"; target_col]%string)
                           && negb (ends_with "_target" col))
               (keys df_features.(columns)) in
      let n := match df_features.(date_column) with
               | Some ds => length ds
               | None => O
               end in
      let X := dropna df_features.(columns) feature_cols n in
      match
        (if String.eqb target_col "date" then
           option_map (map (fun d => Some (inject_Z d))) df_features.(date_column)
         else dict_get df_features.(columns) target_col)
      with
      | None => Raise (LibraryError "KeyError: target_col")
      | Some target =>
          Ok (X, map (fun row => nth (fst row) target None) X, feature_cols)
      end
  end.

End Features.

(** A frame of [n] rows without a missing cell. *)
Definition complete_column (n : nat) (c : column) : Prop :=
  length c = n /\ Forall (fun x => x <> None) c.

Definition complete_frame (n : nat) (df : frame) : Prop :=
  (forall ds, df.(date_column) = Some ds -> length ds = n) /\
  Forall (fun kv => complete_column n (snd kv)) df.(columns).

End Frame.

(** ** LSTM training windows (src/Model.Py, [_build_lstm_model])

    The loop that cuts the training rows into overlapping windows; the
    network that is then built and trained on them is TensorFlow's. *)

(** [y_train.iloc[i]] raises past the end of the series. *)
Fixpoint lstm_loop (X_train : matrix) (y_train : list Q)
    (sequence_length : nat) (indices : list nat) : result (list (matrix * Q)) :=
  match indices with
  | [] => Ok []
  | i :: rest =>
      match nth_error y_train i with
      | None => Raise (LibraryError "IndexError: single positional indexer is out-of-bounds")
      | Some y =>
          match lstm_loop X_train y_train sequence_length rest with
          | Raise e => Raise e
          | Ok samples =>
              Ok ((firstn sequence_length (skipn (i - sequence_length) X_train), y)
                  :: samples)
          end
      end
  end.

(** [for i in range(sequence_length, len(X_train))]. *)
Definition lstm_windows (X_train : matrix) (y_train : list Q)
    (sequence_length : nat) : result (list (matrix * Q)) :=
  lstm_loop X_train y_train sequence_length
    (seq sequence_length (length X_train - sequence_length)).

(** ** Synthetic data (src/Model.Py, [generate_synthetic_data])

    The seeded draws and the price formula (sines, logarithm, noise) are
    numpy's; what the method itself does with them is modelled: the two
    floors on the drawn weather, the derived columns, the drought index of
    the floored precipitation, and the floor on the price. *)



Section Synthetic.

(** Row [i] of the [n] rows of drawn weather, before the floors. *)
Variable drawn_weather : nat -> nat -> weather.

(** The price of row [i] before the floor, for a commodity type. *)
Variable drawn_price : string -> nat -> nat -> Q.


End Synthetic.

(** ** Objects a program can hold *)

(** What [__init__] and any sequence of [fit] calls, completed or not,
    can leave behind. *)
Inductive reachable (tf : bool) : forecaster -> Prop :=
| reach_init : reachable tf init
| reach_fit (env : fit_env) (s : forecaster) :
    reachable tf s -> reachable tf (fst (fit tf env s)).

(** The order in which [fit] first assigns the model entries. *)
Definition model_order : list string :=
  ["rf"; "gb"; "ridge"; "elastic"; "arima"; "lstm"]%string.

(** What the derived weather columns of a row owe to its raw columns. *)
Definition derived_consistent (o : observation) : Prop :=
  0 <= o.(growing_degree_days) /\
  0 <= o.(heating_degree_days) /\
  0 <= o.(cooling_degree_days) /\
  (o.(heating_degree_days) == 0 \/ o.(cooling_degree_days) == 0) /\
  o.(heating_degree_days) - o.(cooling_degree_days)
    == 18 - o.(raw).(temperature_avg) /\
  (o.(frost_days) = 1%Z <-> o.(raw).(temperature_min) < 0) /\
  (o.(frost_days) = 0%Z <-> 0 <= o.(raw).(temperature_min)).

(** The scaling step of a re-fit fails. *)
Definition env_scaling_fails : fit_env :=
  {| e_prepare_data := Ok ["temperature_avg"; "price_lag1"]%string;
     e_train_test_split := Ok ([[1; 2]; [3; 4]], [10; 20]);
     e_scale := Raise (ValueError "Input contains infinity");
     e_rf := Ok first_feature;
     e_gb := Ok (constant_model 2);
     e_ridge := Ok (constant_model 4);
     e_elastic := Ok (constant_model 8);
     e_arima := Ok (ArimaResults [5; 7]);
     e_lstm := Ok (constant_model 6);
     e_cv := demo_cv |}.

(** On a reachable object the model entries stand in the order of their
    first assignment, and the LSTM entry exists only with TensorFlow. *)
Definition ordered_models (tf : bool) (s : forecaster) : Prop :=
  exists k, keys (models s) = firstn k model_order /\
    (tf = false -> (k <= 5)%nat).

(** A held-out split whose prices the demo ensemble reproduces. *)
Definition env_exact : fit_env :=
  {| e_prepare_data := Ok ["temperature_avg"; "price_lag1"]%string;
     e_train_test_split := Ok ([[1; 2]; [3; 4]], [5 # 4; 11 # 4]);
     e_scale := Ok identity_scaler;
     e_rf := Ok first_feature;
     e_gb := Ok (constant_model 2);
     e_ridge := Ok (constant_model 4);
     e_elastic := Ok (constant_model 8);
     e_arima := Ok (ArimaResults [5; 7]);
     e_lstm := Ok (constant_model 6);
     e_cv := demo_cv |}.

Definition exact_fitted : forecaster := fst (fit true env_exact init).

(** A column of [n] rows whose first [k] rows are missing and no other,
    for some [k] below 30; and one whose first 29 rows exactly are. *)
Definition ready_from (k n : nat) (c : Frame.column) : Prop :=
  length c = n /\
  forall i, (i < n)%nat -> (nth i c None = None <-> (i < k)%nat).

Definition soft_column (n : nat) (c : Frame.column) : Prop :=
  exists k, (k <= 29)%nat /\ ready_from k n c.

(** The names that [create_features] reads for a list of weather
    features, and the suffixes of the names it writes. *)
Definition read_names (features : list string) : list string :=
  features ++ ["commodity_price"]%string.

Definition lag_suffixes : list string :=
  ["_lag1"; "_lag7"; "_ma7"; "_ma30"]%string.

Definition writes_apart (features : list string) : bool :=
  forallb (fun col =>
             forallb (fun sfx => negb (name_in (col ++ sfx) (read_names features)))
               lag_suffixes)
          features.

(** What the loop over the weather features keeps true of the growing
    table: the columns it reads still hold what the input held, and every
    column is soft. *)
Definition features_inv (n : nat) (R : list string)
    (d0 d : dict Frame.column) : Prop :=
  (forall name, In name R -> dict_get d name = dict_get d0 name) /\
  Forall (fun kv => soft_column n (snd kv)) d.

(** The keys of a model dictionary are the first [k] names of the
    assignment order, for some [k] of at least [j]; without TensorFlow
    the LSTM name is not among them. *)
Definition keys_from (tf : bool) (j : nat) (d : dict (option model_obj)) : Prop :=
  exists k, keys d = firstn k model_order /\ (j <= k)%nat /\
    (tf = false -> (k <= 5)%nat).

(** A frame of 31 days with a price column and one weather column. *)
Definition demo_frame : Frame.frame :=
  {| Frame.date_column := Some (map Z.of_nat (seq 0 31));
     Frame.columns :=
       [("wind_speed", map (fun i => Some (inject_Z (Z.of_nat (i mod 5)))) (seq 0 31));
        ("commodity_price", map (fun i => Some (inject_Z (Z.of_nat (i * i)))) (seq 0 31))
       ]%string |}.

(** * Properties *)

(** ** Arithmetic of sums and means *)

Lemma Qlen_pos {A} (l : list A) : l <> [] -> 0 < Qlen l.
Proof.
  destruct l as [|a l]; [congruence|]. intros _. unfold Qlen.
  change 0 with (inject_Z 0). rewrite <- Zlt_Qlt. simpl length. lia.
Qed.

Lemma Qlen_nonneg {A} (l : list A) : 0 <= Qlen l.
Proof.
  unfold Qlen. change 0 with (inject_Z 0). rewrite <- Zle_Qle. lia.
Qed.

Lemma Qsum_nonneg (l : list Q) : Forall (fun x => 0 <= x) l -> 0 <= Qsum l.
Proof.
  induction 1 as [|x l Hx _ IH]; simpl; lra.
Qed.

Lemma mean_nonneg (l : list Q) : Forall (fun x => 0 <= x) l -> 0 <= mean l.
Proof.
  intros H. unfold mean, Qdiv. apply Qmult_le_0_compat.
  - now apply Qsum_nonneg.
  - apply Qinv_le_0_compat, Qlen_nonneg.
Qed.


(** ** Equality of idealised values *)

Lemma feq_refl (x : fval) : feq x x.
Proof. destruct x; simpl; auto. reflexivity. Qed.

Lemma feq_sym (x y : fval) : feq x y -> feq y x.
Proof. destruct x, y; simpl; auto. intros H. now symmetry. Qed.

Lemma feq_trans (x y z : fval) : feq x y -> feq y z -> feq x z.
Proof.
  destruct x, y, z; simpl; auto; try contradiction.
  intros H1 H2. now rewrite H1.
Qed.

Lemma fadd_feq (a a' x : fval) : feq a a' -> feq (fadd a x) (fadd a' x).
Proof.
  destruct a, a', x; simpl; auto; try contradiction.
  intros H. now rewrite H.
Qed.

Lemma Forall2_feq_refl (l : list fval) : Forall2 feq l l.
Proof. induction l; constructor; [apply feq_refl | assumption]. Qed.

Lemma Forall2_feq_trans (l1 l2 l3 : list fval) :
  Forall2 feq l1 l2 -> Forall2 feq l2 l3 -> Forall2 feq l1 l3.
Proof.
  intros H. revert l3. induction H as [|x y l1 l2 Hxy _ IH]; intros l3 H3.
  - inversion H3. constructor.
  - inversion H3 as [|? z ? l3' Hyz Hrest]; subst.
    constructor; [now apply (feq_trans x y z) | now apply IH].
Qed.

Lemma Forall2_length_eq {A B} (R : A -> B -> Prop) (l : list A) (l' : list B) :
  Forall2 R l l' -> length l = length l'.
Proof. induction 1; simpl; congruence. Qed.

(** ** Drought index *)

Lemma deficit_ratio_map (f g : nat -> Q) (a n : nat) :
  deficit_ratio (map f (seq a n)) (map g (seq a n)) =
  map (fun i => fdiv (f i - g i) (f i)) (seq a n).
Proof.
  revert a. induction n as [|n IH]; intros a; simpl; [reflexivity|].
  now rewrite IH.
Qed.

Lemma drought_index_unfold (p : list Q) (window : Z) :
  (1 <= window)%Z ->
  _calculate_drought_index p window =
  Ok (map (drought_at (Z.to_nat window) p) (seq 0 (length p))).
Proof.
  intros Hw. unfold _calculate_drought_index.
  destruct (Z.ltb_spec window 1) as [H|_]; [lia|].
  unfold rolling_mean, expanding_mean. rewrite deficit_ratio_map.
  now rewrite !map_map.
Qed.

Lemma nth_map_seq {A} (f : nat -> A) (n i : nat) (d : A) :
  (i < n)%nat -> nth i (map f (seq 0 n)) d = f i.
Proof.
  intros Hi. rewrite (nth_indep _ d (f 0%nat)) by now rewrite length_map, length_seq.
  rewrite (map_nth f (seq 0 n) 0%nat i), seq_nth by exact Hi. reflexivity.
Qed.

Lemma firstn_nonempty {A} (p : list A) (i : nat) :
  (i < length p)%nat -> firstn (S i) p <> [].
Proof.
  destruct p; simpl; [lia | congruence].
Qed.


Lemma Forall_firstn {A} (P : A -> Prop) (n : nat) (l : list A) :
  Forall P l -> Forall P (firstn n l).
Proof.
  intros H. revert n. induction H as [|x l Hx _ IH]; intros [|n]; simpl;
    constructor; auto.
Qed.

Lemma Forall_skipn {A} (P : A -> Prop) (n : nat) (l : list A) :
  Forall P l -> Forall P (skipn n l).
Proof.
  intros H. revert n. induction H as [|x l Hx Hl IH]; intros [|n]; simpl;
    auto.
Qed.

Lemma window_slice_incl (w i : nat) (p : list Q) (P : Q -> Prop) :
  Forall P p -> Forall P (window_slice w i p).
Proof.
  intros H. unfold window_slice. now apply Forall_skipn, Forall_firstn.
Qed.

Lemma drought_at_regular (w : nat) (p : list Q) (i : nat) :
  ~ mean (firstn (S i) p) == 0 ->
  drought_at w p i =
  Fin (Qmax 0 ((mean (firstn (S i) p) - mean (window_slice w i p))
               / mean (firstn (S i) p))).
Proof.
  intros He. unfold drought_at, fdiv.
  destruct (Qeq_bool _ 0) eqn:E; [apply Qeq_bool_eq in E; contradiction|].
  reflexivity.
Qed.

Lemma drought_at_zero_mean (w : nat) (p : list Q) (i : nat) :
  mean (firstn (S i) p) == 0 ->
  0 <= mean (window_slice w i p) ->
  drought_at w p i = Fin 0.
Proof.
  intros He Hr. unfold drought_at, fdiv.
  rewrite (Qeq_eq_bool _ _ He).
  destruct (_ ?= 0) eqn:C; try reflexivity.
  apply Qgt_alt in C. lra.
Qed.

Lemma drought_at_zero_mean_neg (w : nat) (p : list Q) (i : nat) :
  mean (firstn (S i) p) == 0 ->
  mean (window_slice w i p) < 0 ->
  drought_at w p i = PInf.
Proof.
  intros He Hr. unfold drought_at, fdiv.
  rewrite (Qeq_eq_bool _ _ He).
  destruct (_ ?= 0) eqn:C; try reflexivity.
  - apply Qeq_alt in C. lra.
  - apply Qlt_alt in C. lra.
Qed.

Lemma drought_at_nonneg_value (w : nat) (p : list Q) (i : nat) :
  nonneg_value (drought_at w p i).
Proof.
  unfold drought_at, fdiv.
  destruct (Qeq_bool _ 0).
  - destruct (_ ?= 0); simpl; lra.
  - simpl. apply Q.le_max_l.
Qed.

Lemma drought_at_unit (w : nat) (p : list Q) (i : nat) :
  Forall (fun x => 0 <= x) p -> (i < length p)%nat ->
  in_unit_interval (drought_at w p i).
Proof.
  intros Hp Hi.
  set (e := mean (firstn (S i) p)). set (r := mean (window_slice w i p)).
  assert (Hr : 0 <= r) by (apply mean_nonneg, window_slice_incl, Hp).
  assert (He : 0 <= e).
  { now apply mean_nonneg, Forall_firstn. }
  destruct (Qeq_dec e 0) as [Hz|Hnz].
  - rewrite drought_at_zero_mean by assumption. simpl. lra.
  - rewrite drought_at_regular by assumption. fold e r. simpl. split.
    + apply Q.le_max_l.
    + apply Q.max_lub; [lra|]. apply Qle_shift_div_r; lra.
Qed.


Lemma window_slice_nonempty (w i : nat) (p : list Q) :
  (i < length p)%nat -> (1 <= w)%nat -> window_slice w i p <> [].
Proof.
  intros Hi Hw Hnil.
  assert (L : length (window_slice w i p) = 0%nat) by now rewrite Hnil.
  unfold window_slice in L. rewrite length_skipn, length_firstn in L. lia.
Qed.

Lemma mean_const (c : Q) (l : list Q) :
  l <> [] -> Forall (fun x => x == c) l -> mean l == c.
Proof.
  intros Hl Hc. pose proof (Qlen_pos l Hl) as Hp.
  assert (Hs : Qsum l == c * Qlen l).
  { clear Hl Hp. induction Hc as [|x l Hx _ IH].
    - unfold Qlen. simpl. ring.
    - unfold Qlen in *. simpl Qsum.
      change (length (x :: l)) with (S (length l)).
      rewrite Nat2Z.inj_succ. unfold Z.succ. rewrite inject_Z_plus.
      simpl in Hx. rewrite IH. setoid_replace x with c by exact Hx. ring. }
  unfold mean. rewrite Hs. field. lra.
Qed.

Lemma drought_at_const (c : Q) (w i : nat) (p : list Q) :
  0 < c -> Forall (fun x => x == c) p -> (i < length p)%nat -> (1 <= w)%nat ->
  feq (drought_at w p i) (Fin 0).
Proof.
  intros Hc Hp Hi Hw.
  assert (He : mean (firstn (S i) p) == c)
    by (apply mean_const; [now apply firstn_nonempty | now apply Forall_firstn]).
  assert (Hr : mean (window_slice w i p) == c)
    by (apply mean_const; [now apply window_slice_nonempty
                          | now apply window_slice_incl]).
  rewrite drought_at_regular by (rewrite He; lra).
  simpl. rewrite He, Hr.
  assert (Hq : (c - c) / c == 0) by (field; lra).
  rewrite Hq. apply Q.max_id.
Qed.

(** C5.  For every precipitation sequence without negative values and
    every window of at least one day, the drought index is returned, has
    the length of the sequence, and at each position holds
    max(0, (e - r) / e), where e is the expanding mean up to that position
    and r the trailing-window mean, and 0 where e is 0 (there the quotient
    0/0 is undefined). *)
Theorem drought_index_contract (p : list Q) (window : Z) :
  Forall (fun x => 0 <= x) p ->
  (1 <= window)%Z ->
  drought_index_as_specified p window /\
  exists d, _calculate_drought_index p window = Ok d /\
    length d = length p /\
    forall i, (i < length p)%nat ->
      let e := mean (firstn (S i) p) in
      let r := mean (window_slice (Z.to_nat window) i p) in
      (~ e == 0 -> nth i d NaN = Fin (Qmax 0 ((e - r) / e))) /\
      (e == 0 -> nth i d NaN = Fin 0).
Proof.
  intros Hp Hw.
  assert (Hzero : forall i, mean (firstn (S i) p) == 0 ->
            drought_at (Z.to_nat window) p i = Fin 0).
  { intros i He. apply drought_at_zero_mean; [exact He|].
    apply mean_nonneg, window_slice_incl, Hp. }
  split.
  - eexists. split; [apply drought_index_unfold, Hw|].
    split; [now rewrite length_map, length_seq|].
    intros i Hi. rewrite nth_map_seq by exact Hi.
    unfold drought_spec_value.
    destruct (Qeq_bool (mean (firstn (S i) p)) 0) eqn:E.
    + apply Qeq_bool_eq in E. rewrite (Hzero i E). simpl. reflexivity.
    + apply Qeq_bool_neq in E. rewrite (drought_at_regular _ _ _ E).
      simpl. reflexivity.
  - eexists. split; [apply drought_index_unfold, Hw|].
    split; [now rewrite length_map, length_seq|].
    intros i Hi e r. rewrite nth_map_seq by exact Hi.
    split; [apply drought_at_regular | apply Hzero].
Qed.

(** Five days at a window of two: no rain on the first day (the mean to
    date is 0 and the index is 0), and a dry spell on days four and five
    after the rain of day two, where the index is 1 and then 1/6. *)
Lemma drought_index_contract_witness :
  exists d, _calculate_drought_index [0; 4; 0; 0; 2] 2 = Ok d /\
    length d = 5%nat /\
    nth 0 d NaN = Fin 0 /\
    feq (nth 3 d NaN) (Fin 1) /\
    feq (nth 4 d NaN) (Fin (1 # 6)).
Proof.
  destruct (drought_index_contract [0; 4; 0; 0; 2] 2) as [_ [d [Hd [Hl Hv]]]].
  - repeat constructor; discriminate.
  - lia.
  - exists d. split; [exact Hd|]. split; [exact Hl|].
    split; [|split].
    + apply (Hv 0%nat); [simpl; lia | reflexivity].
    + rewrite (proj1 (Hv 3%nat ltac:(simpl; lia))) by discriminate.
      reflexivity.
    + rewrite (proj1 (Hv 4%nat ltac:(simpl; lia))) by discriminate.
      reflexivity.
Defined.

(** The values of that run. *)
Example drought_index_contract_demo :
  match _calculate_drought_index [0; 4; 0; 0; 2] 2 with
  | Ok d => Forall2 feq d [Fin 0; Fin 0; Fin 0; Fin 1; Fin (1 # 6)]
  | Raise _ => False
  end.
Proof. repeat constructor. Qed.

(** The hypothesis on the sign is what keeps 0/0 the only undefined
    quotient: with a negative entry the mean to date can be 0 under a
    positive numerator, which the program turns into plus infinity. *)
Remark drought_index_negative_entry :
  _calculate_drought_index [1; -1] 1 = Ok [Fin 0; PInf] /\
  mean (firstn 2 [1; -1]) == 0.
Proof.
  split; reflexivity.
Qed.

(** C8.  For every precipitation sequence without negative values every
    value of the drought index lies in the interval [0, 1], at the default
    window and at every other window of at least one day; and on a
    constant positive sequence every value equals 0. *)
Theorem drought_index_range (p : list Q) :
  Forall (fun x => 0 <= x) p ->
  drought_index_bounded_as_specified p /\
  forall window, (1 <= window)%Z ->
    exists d, _calculate_drought_index p window = Ok d /\
      Forall in_unit_interval d /\
      (forall c, 0 < c -> Forall (fun x => x == c) p ->
         Forall (fun v => feq v (Fin 0)) d).
Proof.
  intros Hp.
  assert (Hunit : forall w, Forall in_unit_interval
                    (map (drought_at w p) (seq 0 (length p)))).
  { intros w. apply Forall_forall. intros v Hv. apply in_map_iff in Hv.
    destruct Hv as [i [<- Hi]]. apply in_seq in Hi.
    apply drought_at_unit; [exact Hp | lia]. }
  split.
  - eexists. split; [apply drought_index_unfold; unfold default_window; lia|].
    apply Hunit.
  - intros window Hw. eexists. split; [apply drought_index_unfold, Hw|].
    split; [apply Hunit|].
    intros c Hc Hconst. apply Forall_forall. intros v Hv.
    apply in_map_iff in Hv. destruct Hv as [i [<- Hi]]. apply in_seq in Hi.
    apply drought_at_const with (c := c); try assumption; lia.
Qed.

(** Two runs at a window of two days, both longer than the window: a
    sequence with a dry spell, whose index reaches 1, and a constant
    sequence, whose index is 0 throughout. *)
Lemma drought_index_range_witness :
  (exists d, _calculate_drought_index [0; 4; 0; 0; 2] 2 = Ok d /\
     Forall in_unit_interval d /\ feq (nth 3 d NaN) (Fin 1)) /\
  (exists d, _calculate_drought_index [2; 2; 2; 2] 2 = Ok d /\
     length d = 4%nat /\ Forall (fun v => feq v (Fin 0)) d).
Proof.
  split.
  - destruct (drought_index_range [0; 4; 0; 0; 2]) as [_ H].
    + repeat constructor; discriminate.
    + destruct (H 2%Z ltac:(lia)) as [d [Hd [Hu _]]].
      exists d. split; [exact Hd|]. split; [exact Hu|].
      vm_compute in Hd. injection Hd as <-. reflexivity.
  - destruct (drought_index_range [2; 2; 2; 2]) as [_ H].
    + repeat constructor; discriminate.
    + destruct (H 2%Z ltac:(lia)) as [d [Hd [_ Hc]]].
      exists d. split; [exact Hd|]. split.
      * vm_compute in Hd. injection Hd as <-. reflexivity.
      * apply (Hc 2); [reflexivity | repeat constructor; reflexivity].
Defined.

(** Only the lower clamp exists in the program: the upper bound rests on
    the sign of the precipitation.  After one entry of -100 and thirty
    entries of 1 the index at the default window is 101/70. *)
Remark drought_index_above_one :
  ~ drought_index_bounded_as_specified ((-100) :: repeat 1 30).
Proof.
  intros [d [Hd Hb]]. vm_compute in Hd. injection Hd as <-.
  rewrite Forall_forall in Hb.
  assert (Hin : In (Fin (93930 # 65100))
    (map (drought_at 30 ((-100) :: repeat 1 30)) (seq 0 31))).
  { apply in_map_iff. exists 30%nat. split; [reflexivity|].
    apply in_seq. lia. }
  vm_compute in Hin. specialize (Hb _ Hin). simpl in Hb.
  destruct Hb as [_ Hb]. revert Hb. vm_compute. intros Hb. now apply Hb.
Qed.

(** ** Dictionaries *)

Section DictFacts.

Context {V : Type}.

Lemma dict_get_set_eq (d : dict V) (k : string) (v : V) :
  dict_get (dict_set d k v) k = Some v.
Proof.
  induction d as [|[k' v'] d IH]; simpl.
  - now rewrite String.eqb_refl.
  - destruct (String.eqb k k') eqn:E; simpl.
    + now rewrite String.eqb_refl.
    + now rewrite E.
Qed.

Lemma dict_get_set_neq (d : dict V) (k k' : string) (v : V) :
  k <> k' -> dict_get (dict_set d k v) k' = dict_get d k'.
Proof.
  intros Hk. induction d as [|[k0 v0] d IH]; simpl.
  - destruct (String.eqb_spec k' k); [congruence | reflexivity].
  - destruct (String.eqb_spec k k0) as [->|Hne]; simpl.
    + destruct (String.eqb_spec k' k0); [congruence | reflexivity].
    + destruct (String.eqb_spec k' k0); [reflexivity | exact IH].
Qed.

Lemma keys_dict_set (d : dict V) (k k' : string) (v : V) :
  In k' (keys (dict_set d k v)) <-> k' = k \/ In k' (keys d).
Proof.
  induction d as [|[k0 v0] d IH]; simpl.
  - intuition.
  - destruct (String.eqb_spec k k0) as [->|Hne]; simpl.
    + intuition.
    + rewrite IH. intuition.
Qed.

Lemma NoDup_dict_set (d : dict V) (k : string) (v : V) :
  NoDup (keys d) -> NoDup (keys (dict_set d k v)).
Proof.
  induction d as [|[k0 v0] d IH]; simpl; intros H.
  - constructor; [intros [] | constructor].
  - inversion H as [|? ? Hnotin Hd]; subst.
    destruct (String.eqb_spec k k0) as [->|Hne]; simpl.
    + now constructor.
    + constructor; [|now apply IH].
      intros Hin. apply keys_dict_set in Hin. destruct Hin; congruence.
Qed.

Lemma dict_set_In (d : dict V) (k k' : string) (v v' : V) :
  In (k', v') (dict_set d k v) -> (k' = k /\ v' = v) \/ In (k', v') d.
Proof.
  induction d as [|[k0 v0] d IH]; simpl.
  - intros [H|[]]. left. now inversion H.
  - destruct (String.eqb_spec k k0) as [->|Hne]; simpl.
    + intros [H|H]; [left; now inversion H | right; now right].
    + intros [H|H]; [right; now left|].
      destruct (IH H) as [?|?]; [now left | right; now right].
Qed.

Lemma dict_get_In (d : dict V) (k : string) (v : V) :
  dict_get d k = Some v -> In (k, v) d.
Proof.
  induction d as [|[k0 v0] d IH]; simpl; [discriminate|].
  destruct (String.eqb_spec k k0) as [->|Hne].
  - intros H. inversion H. now left.
  - intros H. right. now apply IH.
Qed.

Lemma In_dict_get (d : dict V) (k : string) (v : V) :
  NoDup (keys d) -> In (k, v) d -> dict_get d k = Some v.
Proof.
  induction d as [|[k0 v0] d IH]; simpl; intros Hnd Hin; [contradiction|].
  inversion Hnd as [|? ? Hnotin Hd]; subst.
  destruct Hin as [H|H].
  - inversion H; subst. now rewrite String.eqb_refl.
  - destruct (String.eqb_spec k k0) as [->|Hne].
    + exfalso. apply Hnotin. change k0 with (fst (k0, v)). now apply in_map.
    + now apply IH.
Qed.

Lemma dict_get_None (d : dict V) (k : string) :
  ~ In k (keys d) -> dict_get d k = None.
Proof.
  induction d as [|[k0 v0] d IH]; simpl; intros H; [reflexivity|].
  destruct (String.eqb_spec k k0) as [->|Hne]; [tauto|].
  apply IH. tauto.
Qed.

End DictFacts.

(** ** Cross-validation scores and weights *)

Lemma cv_loop_step cv name model rest acc :
  cv_loop cv ((name, Some model) :: rest) acc =
  if skipped_in_cv name then cv_loop cv rest acc
  else cv_loop cv rest (dict_set acc name (recorded_score cv name model)).
Proof.
  unfold skipped_in_cv, recorded_score. simpl.
  destruct (String.eqb_spec name "ridge") as [->|_]; [reflexivity|].
  destruct (String.eqb_spec name "elastic") as [->|_]; [reflexivity|].
  simpl. destruct (String.eqb name "arima"); [reflexivity|].
  destruct (String.eqb name "lstm"); reflexivity.
Qed.

Lemma cv_loop_NoDup cv items acc :
  NoDup (keys acc) -> NoDup (keys (cv_loop cv items acc)).
Proof.
  revert acc. induction items as [|[name [model|]] rest IH]; intros acc H.
  - exact H.
  - rewrite cv_loop_step. destruct (skipped_in_cv name); apply IH; auto.
    now apply NoDup_dict_set.
  - simpl. now apply IH.
Qed.

Lemma cv_loop_keys cv items acc name :
  In name (keys (cv_loop cv items acc)) <->
  In name (keys acc) \/
  (skipped_in_cv name = false /\ exists model, In (name, Some model) items).
Proof.
  revert acc. induction items as [|[k [m|]] rest IH]; intros acc.
  - simpl. split; [tauto|]. intros [H|[_ [? []]]]; exact H.
  - rewrite cv_loop_step. destruct (skipped_in_cv k) eqn:Hk.
    + rewrite IH. split.
      * intros [H|[Hs [model H]]]; [now left|].
        right. split; [exact Hs|]. exists model. now right.
      * intros [H|[Hs [model [H|H]]]]; [now left | |].
        -- inversion H; subst. congruence.
        -- right. split; [exact Hs|]. now exists model.
    + rewrite IH, keys_dict_set. split.
      * intros [[->|H]|[Hs [model H]]].
        -- right. split; [exact Hk|]. exists m. now left.
        -- now left.
        -- right. split; [exact Hs|]. exists model. now right.
      * intros [H|[Hs [model [H|H]]]].
        -- left. now right.
        -- inversion H; subst. left. now left.
        -- right. split; [exact Hs|]. now exists model.
  - simpl cv_loop. rewrite IH. split.
    + intros [H|[Hs [model H]]]; [now left|].
      right. split; [exact Hs|]. exists model. now right.
    + intros [H|[Hs [model [H|H]]]]; [now left | discriminate H |].
      right. split; [exact Hs|]. now exists model.
Qed.

Lemma cv_loop_In cv items acc name s :
  In (name, s) (cv_loop cv items acc) ->
  In (name, s) acc \/
  exists model, In (name, Some model) items /\ s = recorded_score cv name model.
Proof.
  revert acc. induction items as [|[k [m|]] rest IH]; intros acc H.
  - now left.
  - rewrite cv_loop_step in H. destruct (skipped_in_cv k).
    + destruct (IH _ H) as [?|[model [? ?]]]; [now left|].
      right. exists model. split; [now right | assumption].
    + destruct (IH _ H) as [Hin|[model [? ?]]].
      * apply dict_set_In in Hin. destruct Hin as [[-> ->]|?]; [|now left].
        right. exists m. split; [now left | reflexivity].
      * right. exists model. split; [now right | assumption].
  - simpl in H. destruct (IH _ H) as [?|[model [? ?]]]; [now left|].
    right. exists model. split; [now right | assumption].
Qed.

Lemma cv_loop_nonempty cv items acc name model :
  In (name, Some model) items -> skipped_in_cv name = false ->
  cv_loop cv items acc <> [].
Proof.
  intros Hin Hs Hnil.
  assert (H : In name (keys (cv_loop cv items acc))).
  { apply cv_loop_keys. right. split; [exact Hs|]. now exists model. }
  rewrite Hnil in H. exact H.
Qed.

Lemma py_max0_nonneg (s : score) : 0 <= py_max0 s.
Proof.
  destruct s as [q|]; simpl; [|lra].
  destruct (Qle_bool q 0) eqn:E; [lra|].
  destruct (Qlt_le_dec 0 q) as [H|H]; [lra|].
  apply Qle_bool_iff in H. congruence.
Qed.

Lemma Qgt0_true (x : Q) : Qgt0 x = true <-> 0 < x.
Proof.
  unfold Qgt0. rewrite negb_true_iff. split.
  - intros E. destruct (Qlt_le_dec 0 x) as [H|H]; [exact H|].
    apply Qle_bool_iff in H. congruence.
  - intros H. destruct (Qle_bool x 0) eqn:E; [|reflexivity].
    apply Qle_bool_iff in E. lra.
Qed.

Lemma Qgt0_false (x : Q) : Qgt0 x = false <-> x <= 0.
Proof.
  unfold Qgt0. rewrite negb_false_iff. apply Qle_bool_iff.
Qed.

Lemma keys_normalize_weights (S : dict score) :
  keys (normalize_weights S) = keys S.
Proof.
  unfold normalize_weights, keys.
  destruct (Qgt0 _); rewrite map_map; reflexivity.
Qed.

Lemma Qsum_scaled {A} (f : A -> Q) (t : Q) (l : list A) :
  Qsum (map (fun x => f x / t) l) == Qsum (map f l) / t.
Proof.
  induction l as [|x l IH]; simpl.
  - unfold Qdiv. ring.
  - rewrite IH. unfold Qdiv. ring.
Qed.

Lemma Qsum_constant {A} (c : Q) (l : list A) :
  Qsum (map (fun _ => c) l) == c * Qlen l.
Proof.
  unfold Qlen. induction l as [|x l IH].
  - simpl. ring.
  - simpl Qsum. rewrite IH. change (length (x :: l)) with (S (length l)).
    rewrite Nat2Z.inj_succ. unfold Z.succ. rewrite inject_Z_plus. ring.
Qed.

Lemma normalize_weights_sum (S : dict score) :
  S <> [] -> Qsum (values (normalize_weights S)) == 1.
Proof.
  intros HS. unfold normalize_weights, values.
  destruct (Qgt0 (total_score S)) eqn:E; rewrite map_map; simpl.
  - apply Qgt0_true in E.
    rewrite (Qsum_scaled (fun x => py_max0 (snd x)) (total_score S) S).
    assert (Ht : Qsum (map (fun x => py_max0 (snd x)) S) == total_score S)
      by (unfold total_score, values; rewrite map_map; reflexivity).
    rewrite Ht. field. lra.
  - rewrite (Qsum_constant (1 / Qlen S) S).
    pose proof (Qlen_pos S HS). field. lra.
Qed.

Lemma normalize_weights_nonneg (S : dict score) :
  Forall (fun w => 0 <= w) (values (normalize_weights S)).
Proof.
  unfold normalize_weights, values.
  destruct (Qgt0 (total_score S)) eqn:E; rewrite map_map; simpl;
    apply Forall_forall; intros w Hw; apply in_map_iff in Hw;
    destruct Hw as [[name s] [<- _]]; simpl.
  - apply Qgt0_true in E. apply Qle_shift_div_l; [exact E|].
    rewrite Qmult_0_l. apply py_max0_nonneg.
  - unfold Qdiv. rewrite Qmult_1_l. apply Qinv_le_0_compat, Qlen_nonneg.
Qed.

Lemma normalize_weights_get (S : dict score) (name : string) (s : score) :
  NoDup (keys S) -> In (name, s) S ->
  dict_get (normalize_weights S) name =
  Some (if Qgt0 (total_score S) then py_max0 s / total_score S
        else 1 / Qlen S).
Proof.
  intros Hnd Hin. apply In_dict_get.
  - now rewrite keys_normalize_weights.
  - unfold normalize_weights. destruct (Qgt0 (total_score S));
      apply in_map_iff; exists (name, s); split; auto.
Qed.

(** ** fit *)

Ltac unfold_fit :=
  unfold fit, train, train_guarded, try_except, _calculate_ensemble_weights,
    bind, lift, modify, ret.

Ltac dict_lookup :=
  repeat (rewrite dict_get_set_neq by discriminate);
  try rewrite dict_get_set_eq.

(** What a completed [fit] leaves in the object. *)
Lemma fit_ok_inv (tf : bool) (env : fit_env) (s s' : forecaster) :
  fit tf env s = (s', Ok tt) ->
  is_fitted s' = true /\
  (exists m, e_rf env = Ok m /\ dict_get (models s') "rf" = Some (Some m)) /\
  ensemble_weights s' = normalize_weights (cv_loop (e_cv env) (models s') []) /\
  (exists sc, e_scale env = Ok sc /\ dict_get (scalers s') "standard" = Some sc) /\
  e_train_test_split env = Ok (X_test s', y_test s').
Proof.
  unfold_fit.
  destruct (e_prepare_data env) as [cols|]; [|discriminate].
  destruct (e_train_test_split env) as [[Xt yt]|]; [|discriminate].
  destruct (e_scale env) as [sc|]; [|discriminate].
  destruct (e_rf env) as [m1|]; [|discriminate].
  destruct (e_gb env) as [m2|]; [|discriminate].
  destruct (e_ridge env) as [m3|]; [|discriminate].
  destruct (e_elastic env) as [m4|]; [|discriminate].
  destruct (e_arima env), tf, (e_lstm env); simpl;
    intros H; injection H as <-; simpl;
    (split; [reflexivity|]);
    (split; [exists m1; split; [reflexivity | now dict_lookup]|]);
    (split; [reflexivity|]);
    (split; [exists sc; split; [reflexivity | now dict_lookup]|]);
    reflexivity.
Qed.

(** A [fit] that raises leaves the fitted flag as it found it. *)
Lemma fit_raise_inv (tf : bool) (env : fit_env) (s s' : forecaster) (e : exn) :
  fit tf env s = (s', Raise e) -> is_fitted s' = is_fitted s.
Proof.
  unfold_fit.
  destruct (e_prepare_data env) as [cols|];
    [|intros H; now injection H as <- _].
  destruct (e_train_test_split env) as [[Xt yt]|];
    [|intros H; now injection H as <- _].
  destruct (e_scale env) as [sc|]; [|intros H; now injection H as <- _].
  destruct (e_rf env) as [m1|]; [|intros H; now injection H as <- _].
  destruct (e_gb env) as [m2|]; [|intros H; now injection H as <- _].
  destruct (e_ridge env) as [m3|]; [|intros H; now injection H as <- _].
  destruct (e_elastic env) as [m4|]; [|intros H; now injection H as <- _].
  destruct (e_arima env), tf, (e_lstm env); simpl; discriminate.
Qed.

(** With the data prepared and the four regressors trained, [fit]
    completes whatever the ARIMA and LSTM trainings do. *)
Lemma fit_completes (tf : bool) (env : fit_env) (s : forecaster)
    cols test sc m1 m2 m3 m4 :
  e_prepare_data env = Ok cols ->
  e_train_test_split env = Ok test ->
  e_scale env = Ok sc ->
  e_rf env = Ok m1 -> e_gb env = Ok m2 ->
  e_ridge env = Ok m3 -> e_elastic env = Ok m4 ->
  exists s', fit tf env s = (s', Ok tt) /\
    dict_get (models s') "arima" =
      Some (match e_arima env with Ok m => Some m | Raise _ => None end) /\
    dict_get (models s') "lstm" =
      (if tf then
         Some (match e_lstm env with Ok m => Some m | Raise _ => None end)
       else dict_get (models s) "lstm").
Proof.
  intros H0 H1 H2 H3 H4 H5 H6. unfold_fit.
  rewrite H0, H1, H2, H3, H4, H5, H6.
  destruct (e_arima env), tf, (e_lstm env); simpl;
    eexists; (split; [reflexivity|]); simpl; split; now dict_lookup.
Qed.

(** A regressor whose training raises takes [fit] down with it. *)
Lemma fit_propagates (tf : bool) (env : fit_env) (s : forecaster)
    cols test sc (e : exn) :
  e_prepare_data env = Ok cols ->
  e_train_test_split env = Ok test ->
  e_scale env = Ok sc ->
  e_rf env = Raise e \/ e_gb env = Raise e \/
  e_ridge env = Raise e \/ e_elastic env = Raise e ->
  exists s' e', snd (fit tf env s) = Raise e' /\ fst (fit tf env s) = s' /\
    is_fitted s' = is_fitted s.
Proof.
  intros H0 H1 H2 Hr. unfold_fit. rewrite H0, H1, H2.
  destruct (e_rf env) as [m1|e1]; [|now eexists; eexists].
  destruct (e_gb env) as [m2|e2]; [|now eexists; eexists].
  destruct (e_ridge env) as [m3|e3]; [|now eexists; eexists].
  destruct (e_elastic env) as [m4|e4]; [|now eexists; eexists].
  destruct Hr as [H|[H|[H|H]]]; discriminate H.
Qed.

Lemma never_fitted_flag (tf : bool) (s : forecaster) :
  never_fitted tf s -> is_fitted s = false.
Proof.
  induction 1 as [|env s s' e _ IH Hf]; [reflexivity|].
  rewrite (fit_raise_inv _ _ _ _ _ Hf). exact IH.
Qed.

(** ** The weighting loop and the models it scores *)

Lemma dict_set_fresh {V} (d : dict V) (k : string) (v : V) :
  ~ In k (keys d) -> dict_set d k v = d ++ [(k, v)].
Proof.
  induction d as [|[k0 v0] d IH]; simpl; intros H; [reflexivity|].
  destruct (String.eqb_spec k k0) as [->|Hne]; [tauto|].
  rewrite IH by tauto. reflexivity.
Qed.

(** On a dictionary (no key twice) the loop records one score per
    cross-validated model, in the order of the models. *)
Lemma cv_loop_app cv (items : dict (option model_obj)) (acc : dict score) :
  NoDup (keys items) ->
  (forall k, In k (keys items) -> ~ In k (keys acc)) ->
  cv_loop cv items acc =
  acc ++ map (fun item => (fst item, recorded_score cv (fst item) (snd item)))
             (cross_validated items).
Proof.
  revert acc. induction items as [|[name [model|]] rest IH]; intros acc Hnd Hfresh.
  - simpl. now rewrite app_nil_r.
  - inversion Hnd as [|? ? Hnotin Hrest]; subst.
    rewrite cv_loop_step. unfold cross_validated. cbn [flat_map fst snd].
    fold (cross_validated rest).
    destruct (skipped_in_cv name) eqn:Hs.
    + cbn [app]. apply IH; [exact Hrest|].
      intros k Hk. apply Hfresh. now right.
    + rewrite IH.
      * rewrite dict_set_fresh by (apply Hfresh; now left).
        rewrite <- app_assoc. reflexivity.
      * exact Hrest.
      * intros k Hk Hin. apply keys_dict_set in Hin. destruct Hin as [->|Hin].
        -- now apply Hnotin.
        -- apply (Hfresh k); [now right | exact Hin].
  - inversion Hnd as [|? ? Hnotin Hrest]; subst.
    unfold cross_validated. cbn [flat_map fst snd app cv_loop].
    fold (cross_validated rest).
    apply IH; [exact Hrest|]. intros k Hk. apply Hfresh. now right.
Qed.

Lemma cv_loop_scored cv (items : dict (option model_obj)) :
  NoDup (keys items) ->
  cv_loop cv items [] =
  map (fun item => (fst item, recorded_score cv (fst item) (snd item)))
      (cross_validated items).
Proof.
  intros Hnd. rewrite cv_loop_app; [reflexivity | exact Hnd | intros k _ []].
Qed.

Lemma py_max0_clipped cv (item : string * model_obj) :
  py_max0 (recorded_score cv (fst item) (snd item)) == clipped_score cv item.
Proof.
  unfold recorded_score, clipped_score.
  destruct (cv (fst item) (snd item)) as [[q|]|e]; simpl; try reflexivity.
  destruct (Qle_bool q 0) eqn:E.
  - apply Qle_bool_iff in E. symmetry. apply Q.max_l. exact E.
  - symmetry. apply Q.max_r.
    destruct (Qlt_le_dec 0 q) as [H|H]; [lra|].
    apply Qle_bool_iff in H. congruence.
Qed.

Lemma total_score_clipped cv (scored : list (string * model_obj)) :
  total_score
    (map (fun item => (fst item, recorded_score cv (fst item) (snd item))) scored)
  == clipped_total cv scored.
Proof.
  unfold total_score, clipped_total, values.
  induction scored as [|item scored IH]; simpl; [reflexivity|].
  rewrite IH, py_max0_clipped. reflexivity.
Qed.

Lemma fold_right_Qplus (l : list Q) : fold_right Qplus 0 l == Qsum l.
Proof.
  induction l as [|x l IH]; simpl; [reflexivity | now rewrite IH].
Qed.

(** A completed [fit] keeps the model dictionary a dictionary. *)
Lemma fit_ok_NoDup (tf : bool) (env : fit_env) (s s' : forecaster) :
  NoDup (keys (models s)) ->
  fit tf env s = (s', Ok tt) ->
  NoDup (keys (models s')).
Proof.
  intros Hnd. unfold_fit.
  destruct (e_prepare_data env) as [cols|]; [|discriminate].
  destruct (e_train_test_split env) as [[Xt yt]|]; [|discriminate].
  destruct (e_scale env) as [sc|]; [|discriminate].
  destruct (e_rf env) as [m1|]; [|discriminate].
  destruct (e_gb env) as [m2|]; [|discriminate].
  destruct (e_ridge env) as [m3|]; [|discriminate].
  destruct (e_elastic env) as [m4|]; [|discriminate].
  destruct (e_arima env), tf, (e_lstm env); simpl;
    intros H; injection H as <-; simpl;
    repeat apply NoDup_dict_set; exact Hnd.
Qed.

(** ** predict *)

Lemma collect_In tf items X Xs acc name pred :
  In (name, pred) (collect_predictions tf items X Xs acc) ->
  In (name, pred) acc \/
  exists model, In (name, Some model) items /\
    model_prediction tf name model X Xs = Some (Ok pred).
Proof.
  revert acc. induction items as [|[k [m|]] rest IH]; intros acc H; simpl in H.
  - now left.
  - destruct (model_prediction tf k m X Xs) as [[p|e]|] eqn:E.
    + destruct (IH _ H) as [Hin|[model [? ?]]].
      * apply dict_set_In in Hin. destruct Hin as [[-> ->]|?]; [|now left].
        right. exists m. split; [now left | exact E].
      * right. exists model. split; [now right | assumption].
    + destruct (IH _ H) as [?|[model [? ?]]]; [now left|].
      right. exists model. split; [now right | assumption].
    + destruct (IH _ H) as [?|[model [? ?]]]; [now left|].
      right. exists model. split; [now right | assumption].
  - destruct (IH _ H) as [?|[model [? ?]]]; [now left|].
    right. exists model. split; [now right | assumption].
Qed.

Lemma collect_keys tf items X Xs acc name :
  In name (keys (collect_predictions tf items X Xs acc)) <->
  In name (keys acc) \/
  exists model pred, In (name, Some model) items /\
    model_prediction tf name model X Xs = Some (Ok pred).
Proof.
  revert acc. induction items as [|[k [m|]] rest IH]; intros acc; simpl.
  - split; [tauto|]. intros [H|[? [? [[] _]]]]; exact H.
  - destruct (model_prediction tf k m X Xs) as [[p|e]|] eqn:E.
    + rewrite IH, keys_dict_set. split.
      * intros [[->|H]|[model [pred [H1 H2]]]].
        -- right. exists m, p. split; [now left | exact E].
        -- now left.
        -- right. exists model, pred. split; [now right | exact H2].
      * intros [H|[model [pred [[H1|H1] H2]]]].
        -- left. now right.
        -- inversion H1; subst. left. now left.
        -- right. now exists model, pred.
    + rewrite IH. split.
      * intros [H|[model [pred [H1 H2]]]]; [now left|].
        right. exists model, pred. split; [now right | exact H2].
      * intros [H|[model [pred [[H1|H1] H2]]]]; [now left | |].
        -- inversion H1; subst. congruence.
        -- right. now exists model, pred.
    + rewrite IH. split.
      * intros [H|[model [pred [H1 H2]]]]; [now left|].
        right. exists model, pred. split; [now right | exact H2].
      * intros [H|[model [pred [[H1|H1] H2]]]]; [now left | |].
        -- inversion H1; subst. congruence.
        -- right. now exists model, pred.
  - rewrite IH. split.
    + intros [H|[model [pred [H1 H2]]]]; [now left|].
      right. exists model, pred. split; [now right | exact H2].
    + intros [H|[model [pred [[H1|H1] H2]]]]; [now left | discriminate H1 |].
      right. now exists model, pred.
Qed.

(** The [predictions] dictionary holds exactly the models whose prediction
    call succeeded. *)
Lemma predictions_sound tf self X P name pred :
  predictions tf self X = Some P -> In (name, pred) P ->
  model_answers tf self X name pred.
Proof.
  unfold predictions, model_answers. intros HP Hin.
  destruct (dict_get (scalers self) "standard") as [standard|]; [|discriminate].
  destruct (transform standard X) as [Xs|] eqn:Ht; [|discriminate].
  injection HP as <-. apply collect_In in Hin.
  destruct Hin as [[]|[model [H1 H2]]].
  exists standard, Xs, model. auto.
Qed.

Lemma predictions_complete tf self X name pred :
  model_answers tf self X name pred ->
  exists P, predictions tf self X = Some P /\ In name (keys P) /\ P <> [].
Proof.
  unfold predictions. intros [standard [Xs [model [H1 [H2 [H3 H4]]]]]].
  rewrite H1, H2. eexists. split; [reflexivity|].
  assert (Hk : In name (keys (collect_predictions tf (models self) X Xs []))).
  { apply collect_keys. right. now exists model, pred. }
  split; [exact Hk|]. intros Hnil. rewrite Hnil in Hk. exact Hk.
Qed.

Lemma predictions_exact tf self X P name :
  predictions tf self X = Some P ->
  In name (keys P) <-> exists pred, model_answers tf self X name pred.
Proof.
  intros HP. split.
  - intros Hin. unfold keys in Hin. apply in_map_iff in Hin.
    destruct Hin as [[k pred] [<- Hin]]. exists pred.
    now apply (predictions_sound tf self X P).
  - intros [pred Ha].
    destruct (predictions_complete tf self X name pred Ha) as [P' [HP' [Hk _]]].
    congruence.
Qed.

Lemma nth_add_scaled (w : Q) (acc pred : list Q) (i : nat) :
  length acc = length pred ->
  nth i (add_scaled w acc pred) 0 == nth i acc 0 + w * nth i pred 0.
Proof.
  revert pred i. induction acc as [|a acc IH]; intros [|p pred] i Hl;
    try discriminate; simpl.
  - destruct i; ring.
  - destruct i; [reflexivity|]. apply IH. simpl in Hl. lia.
Qed.

Lemma length_add_scaled (w : Q) (acc pred : list Q) :
  length acc = length pred -> length (add_scaled w acc pred) = length acc.
Proof.
  revert pred. induction acc as [|a acc IH]; intros [|p pred] Hl;
    try discriminate; simpl; [reflexivity|].
  f_equal. apply IH. simpl in Hl. lia.
Qed.

(** In-place addition keeps the shape of the accumulator. *)
Lemma np_iadd_length (acc : list Q) (w : Q) (pred acc' : list Q) :
  np_iadd acc w pred = Ok acc' -> length acc' = length acc.
Proof.
  unfold np_iadd. destruct (Nat.eqb_spec (length pred) (length acc)) as [E|_].
  - intros H. injection H as <-. now apply length_add_scaled.
  - destruct pred as [|p [|? ?]]; try discriminate.
    intros H. injection H as <-. apply length_map.
Qed.

Lemma blend_length W items acc tw acc' tw' :
  blend W items acc tw = Ok (acc', tw') -> length acc' = length acc.
Proof.
  revert acc tw. induction items as [|[name pred] rest IH]; intros acc tw; simpl.
  - intros H. now injection H as <- _.
  - destruct (np_iadd acc (weight_of W name) pred) as [acc1|] eqn:E;
      [|discriminate].
    intros H. rewrite (IH _ _ H). eapply np_iadd_length; exact E.
Qed.

Lemma blend_ok W items acc tw :
  Forall (fun item => length (snd item) = length acc) items ->
  exists acc' tw', blend W items acc tw = Ok (acc', tw') /\
    tw' == tw + weight_total W items /\
    length acc' = length acc /\
    forall i, nth i acc' 0 == nth i acc 0 + weighted_sum W items i.
Proof.
  revert acc tw. induction items as [|[name pred] rest IH]; intros acc tw Hs.
  - exists acc, tw. simpl. split; [reflexivity|].
    unfold weight_total, weighted_sum. simpl.
    split; [ring|]. split; [reflexivity|]. intros i. ring.
  - inversion Hs as [|? ? Hl Hrest]; subst. simpl in Hl.
    simpl blend. unfold np_iadd. rewrite Hl, Nat.eqb_refl.
    destruct (IH (add_scaled (weight_of W name) acc pred)
                 (tw + weight_of W name)) as [acc' [tw' [Hb [Ht [Hlen Hn]]]]].
    { rewrite length_add_scaled by congruence. exact Hrest. }
    exists acc', tw'. split; [exact Hb|].
    unfold weight_total, weighted_sum in *. simpl.
    split; [rewrite Ht; ring|].
    split; [rewrite Hlen; apply length_add_scaled; congruence|].
    intros i. rewrite Hn, nth_add_scaled by congruence. ring.
Qed.

Lemma predict_unfold tf self X P :
  is_fitted self = true -> predictions tf self X = Some P ->
  predict tf self X =
  match P with
  | [] => Raise (ValueError "No models available for prediction")
  | _ :: _ =>
      match blend (ensemble_weights self) P (repeat 0 (length X)) 0 with
      | Raise e => Raise e
      | Ok (ensemble_pred, total_weight) =>
          if Qgt0 total_weight then
            Ok (map (fun v => v / total_weight) ensemble_pred)
          else Ok ensemble_pred
      end
  end.
Proof.
  unfold predict, predictions. intros -> HP. simpl.
  destruct (dict_get (scalers self) "standard") as [standard|]; [|discriminate].
  destruct (transform standard X) as [Xs|]; [|discriminate].
  now injection HP as <-.
Qed.

(** Whatever [predict] returns has one value per row of [X]. *)
Lemma predict_length tf self X ys :
  predict tf self X = Ok ys -> length ys = length X.
Proof.
  unfold predict. destruct (negb (is_fitted self)); [discriminate|].
  destruct (dict_get (scalers self) "standard") as [standard|]; [|discriminate].
  destruct (transform standard X) as [Xs|]; [|discriminate].
  destruct (collect_predictions tf (models self) X Xs []) as [|it P];
    [discriminate|].
  destruct (blend _ _ _ _) as [[ep tw]|] eqn:Hb; [|discriminate].
  apply blend_length in Hb. rewrite repeat_length in Hb.
  destruct (Qgt0 tw); intros H; injection H as <-;
    [rewrite length_map|]; exact Hb.
Qed.

Lemma nth_zeros (n i : nat) : nth i (repeat 0 n) 0 = 0.
Proof. apply nth_repeat. Qed.

(** The blend of well-shaped predictions: it returns, the accumulated
    weight is the sum of the weights used, and each row holds the weighted
    sum, divided by that weight when it is positive. *)
Lemma predict_blend_cases tf self X P :
  is_fitted self = true -> predictions tf self X = Some P ->
  P <> [] -> well_shaped P X ->
  exists ys, predict tf self X = Ok ys /\ length ys = length X /\
    forall i, (i < length X)%nat ->
      (0 < weight_total (ensemble_weights self) P ->
         nth i ys 0 == weighted_sum (ensemble_weights self) P i
                       / weight_total (ensemble_weights self) P) /\
      (weight_total (ensemble_weights self) P <= 0 ->
         nth i ys 0 == weighted_sum (ensemble_weights self) P i).
Proof.
  intros Hf HP Hne Hs. rewrite (predict_unfold _ _ _ _ Hf HP).
  destruct P as [|it P']; [congruence|]. set (P := it :: P') in *.
  destruct (blend_ok (ensemble_weights self) P (repeat 0 (length X)) 0)
    as [acc [tw [Hb [Ht [Hlen Hn]]]]].
  { unfold well_shaped in Hs. now rewrite repeat_length. }
  rewrite Hb. rewrite repeat_length in Hlen.
  assert (Htw : tw == weight_total (ensemble_weights self) P) by (rewrite Ht; ring).
  assert (Hacc : forall i, nth i acc 0 == weighted_sum (ensemble_weights self) P i).
  { intros i. rewrite Hn, nth_zeros. ring. }
  destruct (Qgt0 tw) eqn:Hg.
  - eexists. split; [reflexivity|]. split; [now rewrite length_map|].
    intros i Hi. apply Qgt0_true in Hg. split; [|intros; lra].
    intros _. rewrite (nth_indep _ 0 ((fun v => v / tw) 0))
      by (rewrite length_map; lia).
    rewrite (map_nth (fun v => v / tw)). now rewrite Hacc, Htw.
  - exists acc. split; [reflexivity|]. split; [exact Hlen|].
    intros i Hi. apply Qgt0_false in Hg. split; [intros; lra|].
    intros _. apply Hacc.
Qed.

(** ** predict on arrays with non-finite entries *)

Lemma Qgt0_Qeq (x y : Q) : x == y -> Qgt0 x = Qgt0 y.
Proof.
  intros H. destruct (Qgt0 y) eqn:E.
  - apply Qgt0_true. apply Qgt0_true in E. now rewrite H.
  - apply Qgt0_false. apply Qgt0_false in E. now rewrite H.
Qed.

(** *** The finite model is the raw one on finite arrays *)

Lemma raw_dict_set (d : dict (list Q)) (k : string) (v : list Q) :
  dict_set (map raw_item d) k (map Fin v) = map raw_item (dict_set d k v).
Proof.
  induction d as [|[k0 v0] d IH]; simpl; [reflexivity|].
  destruct (String.eqb k k0); simpl; [reflexivity | now rewrite IH].
Qed.

Lemma raw_model_prediction tf name model X Xs :
  Raw.model_prediction tf name (raw_model model) X Xs =
  match model_prediction tf name model X Xs with
  | Some (Ok pred) => Some (Ok (map Fin pred))
  | Some (Raise e) => Some (Raise e)
  | None => None
  end.
Proof.
  unfold Raw.model_prediction, model_prediction.
  destruct (name_in name ["ridge"; "elastic"]%string).
  { destruct model as [f|fv]; simpl; [destruct (f Xs)|]; reflexivity. }
  destruct (name_in name ["rf"; "gb"]%string).
  { destruct model as [f|fv]; simpl; [destruct (f X)|]; reflexivity. }
  destruct (String.eqb name "arima").
  { destruct model as [f|fv]; simpl; [reflexivity|].
    rewrite <- map_rev. destruct (rev fv) as [|v l]; simpl; [reflexivity|].
    now rewrite map_repeat. }
  destruct (String.eqb name "lstm" && tf); [|reflexivity].
  destruct model as [f|fv]; simpl; [destruct (f Xs)|]; reflexivity.
Qed.

Lemma raw_collect_predictions tf (items : dict (option model_obj)) X Xs
    (acc : dict (list Q)) :
  Raw.collect_predictions tf
    (map (fun item => (fst item, option_map raw_model (snd item))) items)
    X Xs (map raw_item acc)
  = map raw_item (collect_predictions tf items X Xs acc).
Proof.
  revert acc. induction items as [|[name [model|]] rest IH]; intros acc;
    cbn [map fst snd option_map Raw.collect_predictions collect_predictions].
  - reflexivity.
  - rewrite raw_model_prediction.
    destruct (model_prediction tf name model X Xs) as [[pred|e]|].
    + rewrite raw_dict_set. apply IH.
    + apply IH.
    + apply IH.
  - apply IH.
Qed.

Lemma raw_add_scaled (w : Q) (acc pred : list Q) :
  Raw.add_scaled w (map Fin acc) (map Fin pred) = map Fin (add_scaled w acc pred).
Proof.
  revert pred. induction acc as [|a acc IH]; intros [|p pred]; simpl;
    try reflexivity.
  now rewrite IH.
Qed.

Lemma raw_np_iadd (acc : list Q) (w : Q) (pred : list Q) :
  Raw.np_iadd (map Fin acc) w (map Fin pred) =
  match np_iadd acc w pred with
  | Ok acc' => Ok (map Fin acc')
  | Raise e => Raise e
  end.
Proof.
  unfold Raw.np_iadd, np_iadd. rewrite !length_map.
  destruct (length pred =? length acc)%nat.
  - now rewrite raw_add_scaled.
  - destruct pred as [|p [|? ?]]; simpl; try reflexivity.
    rewrite !map_map. reflexivity.
Qed.

Lemma raw_blend (W : dict Q) (items : dict (list Q)) (acc : list Q) (tw : Q) :
  Raw.blend W (map raw_item items) (map Fin acc) tw =
  match blend W items acc tw with
  | Ok (acc', tw') => Ok (map Fin acc', tw')
  | Raise e => Raise e
  end.
Proof.
  revert acc tw. induction items as [|[name pred] rest IH]; intros acc tw;
    cbn [map raw_item fst snd Raw.blend blend]; [reflexivity|].
  rewrite raw_np_iadd.
  destruct (np_iadd acc (weight_of W name) pred) as [acc1|e]; [apply IH | reflexivity].
Qed.

(** On an object of the finite model the raw [predict] is [predict]. *)
Lemma raw_predict_refines (tf : bool) (s : forecaster) (X : matrix) :
  Raw.predict tf (raw_forecaster s) X =
  match predict tf s X with
  | Ok ys => Ok (map Fin ys)
  | Raise e => Raise e
  end.
Proof.
  unfold Raw.predict, predict, raw_forecaster.
  cbn [Raw.is_fitted Raw.scalers Raw.models Raw.ensemble_weights].
  destruct (negb (is_fitted s)); [reflexivity|].
  destruct (dict_get (scalers s) "standard") as [standard|]; [|reflexivity].
  destruct (transform standard X) as [Xs|e]; [|reflexivity].
  change (@nil (string * list fval)) with (map raw_item []).
  rewrite raw_collect_predictions.
  destruct (collect_predictions tf (models s) X Xs []) as [|item P];
    [reflexivity|].
  cbn [map]. change (raw_item item :: map raw_item P) with (map raw_item (item :: P)).
  unfold Raw.ensemble.
  replace (repeat (Fin 0) (length X)) with (map Fin (repeat 0 (length X)))
    by apply map_repeat.
  rewrite raw_blend.
  destruct (blend (ensemble_weights s) (item :: P) (repeat 0 (length X)) 0)
    as [[ep tw]|e]; [|reflexivity].
  destruct (Qgt0 tw); [|reflexivity].
  rewrite !map_map. reflexivity.
Qed.

Lemma raw_predict_unfold tf (self : Raw.forecaster) X P :
  Raw.is_fitted self = true -> Raw.predictions tf self X = Some P ->
  Raw.predict tf self X =
  match P with
  | [] => Raise (ValueError "No models available for prediction")
  | _ :: _ => Raw.ensemble (Raw.ensemble_weights self) P (length X)
  end.
Proof.
  unfold Raw.predict, Raw.predictions. intros -> HP. simpl.
  destruct (dict_get (Raw.scalers self) "standard") as [standard|]; [|discriminate].
  destruct (transform standard X) as [Xs|]; [|discriminate].
  now injection HP as <-.
Qed.

(** *** Models without weight *)

Lemma raw_add_scaled_length (w : Q) (acc pred : list fval) :
  length pred = length acc -> length (Raw.add_scaled w acc pred) = length acc.
Proof.
  revert pred. induction acc as [|a acc IH]; intros [|p pred] Hl;
    try discriminate; simpl; [reflexivity|].
  f_equal. apply IH. simpl in Hl. lia.
Qed.

(** A finite prediction with weight 0 leaves zeros as they are. *)
Lemma raw_add_scaled_zero (w : Q) (acc pred : list fval) :
  w == 0 ->
  length pred = length acc ->
  Forall (fun v => is_finite v = true) pred ->
  Forall is_zero acc ->
  Forall is_zero (Raw.add_scaled w acc pred).
Proof.
  intros Hw. revert pred. induction acc as [|a acc IH]; intros [|p pred] Hl Hf Hz;
    try discriminate; simpl; constructor.
  - inversion Hf as [|? ? Hp _]; inversion Hz as [|? ? Ha _]; subst.
    destruct p as [q| | |]; try discriminate Hp.
    destruct a as [a0| | |]; try contradiction.
    unfold is_zero in *. simpl in *. rewrite Ha, Hw. ring.
  - inversion Hf; inversion Hz; subst. apply IH; [simpl in Hl; lia | assumption..].
Qed.

Lemma raw_blend_zero (W : dict Q) (P : dict (list fval)) (acc : list fval) (tw : Q) :
  Raw.well_shaped P (length acc) ->
  Raw.all_finite P ->
  (forall name, In name (keys P) -> weight_of W name == 0) ->
  Forall is_zero acc ->
  exists acc' tw', Raw.blend W P acc tw = Ok (acc', tw') /\
    tw' == tw /\ length acc' = length acc /\ Forall is_zero acc'.
Proof.
  revert acc tw. induction P as [|[name pred] P IH]; intros acc tw Hs Hf Hw Hz.
  - exists acc, tw. simpl. split; [reflexivity|]. split; [reflexivity|].
    split; [reflexivity | assumption].
  - inversion Hs as [|? ? Hl Hs']; inversion Hf as [|? ? Hfp Hf']; subst.
    simpl in Hl, Hfp. cbn [Raw.blend]. unfold Raw.np_iadd.
    rewrite Hl, Nat.eqb_refl.
    assert (Hw0 : weight_of W name == 0) by (apply Hw; now left).
    destruct (IH (Raw.add_scaled (weight_of W name) acc pred)
                 (tw + weight_of W name)) as [acc' [tw' [Hb [Ht [Hlen Hz']]]]].
    + now rewrite raw_add_scaled_length.
    + exact Hf'.
    + intros k Hk. apply Hw. now right.
    + now apply raw_add_scaled_zero.
    + exists acc', tw'. split; [exact Hb|].
      split; [rewrite Ht, Hw0; ring|].
      split; [now rewrite Hlen, raw_add_scaled_length | exact Hz'].
Qed.

Lemma skipped_in_cv_false (name : string) :
  skipped_in_cv name = false <->
  name <> "arima"%string /\ name <> "lstm"%string.
Proof.
  unfold skipped_in_cv. rewrite orb_false_iff.
  destruct (String.eqb_spec name "arima"), (String.eqb_spec name "lstm");
    intuition congruence.
Qed.

(** The weighting loop never records a score for the ARIMA or the LSTM
    entry, so neither gets a weight. *)
Lemma ensemble_weights_keys_skip (tf : bool) (env : fit_env)
    (s s' : forecaster) :
  fit tf env s = (s', Ok tt) ->
  ~ In "arima"%string (keys (ensemble_weights s')) /\
  ~ In "lstm"%string (keys (ensemble_weights s')).
Proof.
  intros Hfit.
  destruct (fit_ok_inv _ _ _ _ Hfit) as [_ [_ [HW _]]].
  rewrite HW, keys_normalize_weights.
  split; intros H; apply cv_loop_keys in H; destruct H as [[]|[H _]];
    discriminate H.
Qed.

(** C1 (as amended).  After a completed fit the ensemble weights are a
    dictionary over exactly the models that were cross-validated: every
    stored model other than the ARIMA and LSTM entries, whether its
    cross-validation returned a score or raised (it then counts with the
    score 0).  Every weight is non-negative; when the sum of the clipped
    scores is positive each weight is the model's clipped score divided
    by that sum, otherwise each is 1/N for the N cross-validated models;
    and the weights sum to 1. *)
Theorem ensemble_weights_after_fit (tf : bool) (env : fit_env)
    (s s' : forecaster) :
  NoDup (keys (models s)) ->
  fit tf env s = (s', Ok tt) ->
  let W := ensemble_weights s' in
  let scored := cross_validated (models s') in
  let total := clipped_total (e_cv env) scored in
  keys W = map fst scored /\
  NoDup (keys W) /\
  scored <> [] /\
  Forall (fun w => 0 <= w) (values W) /\
  (forall item, In item scored ->
     exists w, dict_get W (fst item) = Some w /\
       (0 < total -> w == clipped_score (e_cv env) item / total) /\
       (total <= 0 -> w == 1 / inject_Z (Z.of_nat (length scored)))) /\
  fold_right Qplus 0 (values W) == 1.
Proof.
  intros Hnd0 Hfit W scored total.
  destruct (fit_ok_inv _ _ _ _ Hfit) as [_ [[m [_ Hrf]] [HW _]]].
  pose proof (fit_ok_NoDup _ _ _ _ Hnd0 Hfit) as Hnd.
  pose proof (cv_loop_scored (e_cv env) (models s') Hnd) as Hcv.
  fold scored in Hcv.
  set (S := cv_loop (e_cv env) (models s') []) in *.
  assert (HndS : NoDup (keys S)) by (apply cv_loop_NoDup; constructor).
  assert (HneS : S <> []).
  { apply (cv_loop_nonempty _ _ _ "rf"%string m); [|reflexivity].
    now apply dict_get_In. }
  assert (Htot : total_score S == total)
    by (rewrite Hcv; apply total_score_clipped).
  unfold W. rewrite HW. fold S.
  split.
  { rewrite keys_normalize_weights, Hcv. unfold keys.
    rewrite map_map. reflexivity. }
  split; [now rewrite keys_normalize_weights|].
  split.
  { intros Hnil. apply HneS. rewrite Hcv, Hnil. reflexivity. }
  split; [apply normalize_weights_nonneg|].
  split.
  { intros item Hin.
    assert (HinS : In (fst item, recorded_score (e_cv env) (fst item) (snd item)) S).
    { rewrite Hcv. apply in_map_iff. now exists item. }
    eexists. split; [apply (normalize_weights_get S _ _ HndS HinS)|].
    split; intros Ht.
    - assert (E : Qgt0 (total_score S) = true)
        by (apply Qgt0_true; rewrite Htot; exact Ht).
      rewrite E, Htot, py_max0_clipped. reflexivity.
    - assert (E : Qgt0 (total_score S) = false)
        by (apply Qgt0_false; rewrite Htot; exact Ht).
      rewrite E. unfold Qlen. rewrite Hcv, length_map. reflexivity. }
  rewrite fold_right_Qplus. now apply normalize_weights_sum.
Qed.

(** A fit in which the forest scores 3/4, gradient boosting 1/4, ridge
    -1/2 and the cross-validation of the elastic net raises: the weights
    are 3/4, 1/4, 0 and 0. *)
Lemma ensemble_weights_after_fit_witness :
  keys (ensemble_weights demo_fitted) = ["rf"; "gb"; "ridge"; "elastic"]%string /\
  (exists w, dict_get (ensemble_weights demo_fitted) "rf" = Some w /\ w == 3 # 4) /\
  (exists w, dict_get (ensemble_weights demo_fitted) "gb" = Some w /\ w == 1 # 4) /\
  (exists w, dict_get (ensemble_weights demo_fitted) "ridge" = Some w /\ w == 0) /\
  (exists w, dict_get (ensemble_weights demo_fitted) "elastic" = Some w /\ w == 0) /\
  Forall (fun w => 0 <= w) (values (ensemble_weights demo_fitted)) /\
  fold_right Qplus 0 (values (ensemble_weights demo_fitted)) == 1.
Proof.
  destruct (ensemble_weights_after_fit true demo_env init demo_fitted)
    as (Hkeys & _ & _ & Hpos & Hw & Hsum).
  - constructor.
  - reflexivity.
  - split; [exact Hkeys|].
    assert (Htotal : 0 < clipped_total (e_cv demo_env)
                           (cross_validated (models demo_fitted)))
      by reflexivity.
    split.
    { destruct (Hw ("rf"%string, first_feature)) as [w [Hg [Hv _]]];
        [simpl; tauto|].
      exists w. split; [exact Hg|]. rewrite (Hv Htotal). reflexivity. }
    split.
    { destruct (Hw ("gb"%string, constant_model 2)) as [w [Hg [Hv _]]];
        [simpl; tauto|].
      exists w. split; [exact Hg|]. rewrite (Hv Htotal). reflexivity. }
    split.
    { destruct (Hw ("ridge"%string, constant_model 4)) as [w [Hg [Hv _]]];
        [simpl; tauto|].
      exists w. split; [exact Hg|]. rewrite (Hv Htotal). reflexivity. }
    split.
    { destruct (Hw ("elastic"%string, constant_model 8)) as [w [Hg [Hv _]]];
        [simpl; tauto|].
      exists w. split; [exact Hg|]. rewrite (Hv Htotal). reflexivity. }
    split; [exact Hpos | exact Hsum].
Defined.

(** C1 as worded fails where a cross-validation raises: the model is
    given the score 0 and stays in the weights.  When every
    cross-validation raises, no model has produced a score, and yet the
    weights are 1/4 for each of the four regressors. *)
Lemma ensemble_weights_counterexample :
  fit true env_cv_fails init = (cv_fails_fitted, Ok tt) /\
  ensemble_weights cv_fails_fitted
    = [("rf", 1 / 4); ("gb", 1 / 4); ("ridge", 1 / 4); ("elastic", 1 / 4)]%string /\
  (forall name, ~ produced_score (e_cv env_cv_fails) (models cv_fails_fitted) name) /\
  ~ weights_over_scoring_models_as_specified (e_cv env_cv_fails)
      (models cv_fails_fitted) (ensemble_weights cv_fails_fitted).
Proof.
  assert (Hnone : forall name,
            ~ produced_score (e_cv env_cv_fails) (models cv_fails_fitted) name).
  { intros name [model [sc [_ H]]]. discriminate H. }
  split; [reflexivity|]. split; [reflexivity|]. split; [exact Hnone|].
  intros H. apply (Hnone "rf"%string). apply H. simpl. tauto.
Qed.

(** C2 (as amended).  For every fitted object and feature rows on which at
    least one model's prediction call succeeds, and for which the ensemble
    weights of the models that predicted sum to a positive value, predict
    returns at every row the weighted sum of the predictions produced
    divided by the sum of the weights of exactly those models: the
    dictionary [P] over which both sums run has as keys the models whose
    prediction call succeeded, and no other. *)
Theorem predict_weighted_average (tf : bool) (self : forecaster) (X : matrix)
    (P : dict (list Q)) :
  is_fitted self = true ->
  predictions tf self X = Some P ->
  P <> [] ->
  well_shaped P X ->
  0 < weight_total (ensemble_weights self) P ->
  (forall name, In name (keys P) <->
     exists pred, model_answers tf self X name pred) /\
  exists ys, predict tf self X = Ok ys /\
    length ys = length X /\
    forall i, (i < length X)%nat ->
      nth i ys 0 == weighted_sum (ensemble_weights self) P i
                    / weight_total (ensemble_weights self) P.
Proof.
  intros Hf HP Hne Hs Hpos.
  split; [intros name; now apply predictions_exact|].
  destruct (predict_blend_cases tf self X P Hf HP Hne Hs) as [ys [Hy [Hl Hv]]].
  exists ys. split; [exact Hy|]. split; [exact Hl|].
  intros i Hi. now apply (Hv i Hi).
Qed.

Lemma predict_weighted_average_witness :
  exists ys, predict true demo_fitted [[1; 2]; [3; 4]] = Ok ys /\
    nth 0 ys 0 == 5 # 4 /\ nth 1 ys 0 == 11 # 4.
Proof.
  destruct (predict_weighted_average true demo_fitted [[1; 2]; [3; 4]]
              [("rf", [1; 3]); ("gb", [2; 2]); ("ridge", [4; 4]);
               ("elastic", [8; 8]); ("arima", [7; 7]); ("lstm", [6; 6])]%string
              eq_refl eq_refl)
    as [_ [ys [Hy [_ Hv]]]].
  - discriminate.
  - repeat constructor.
  - reflexivity.
  - exists ys. split; [exact Hy|]. split.
    + rewrite (Hv 0%nat) by (simpl; lia). reflexivity.
    + rewrite (Hv 1%nat) by (simpl; lia). reflexivity.
Defined.

(** C2 as worded fails where the models that predicted carry no weight:
    after a fit in which only the ARIMA model can answer, the sum of the
    weights used is 0, the quotient of the claim is undefined, and predict
    returns zeros without dividing. *)
Lemma predict_weighted_average_counterexample :
  predictions false arima_only_fitted [[1; 2]; [3; 4]]
    = Some [("arima"%string, [7; 7])] /\
  weight_total (ensemble_weights arima_only_fitted) [("arima"%string, [7; 7])] == 0 /\
  predict false arima_only_fitted [[1; 2]; [3; 4]] = Ok [0; 0] /\
  ~ blend_as_specified (ensemble_weights arima_only_fitted)
      [("arima"%string, [7; 7])] [0; 0].
Proof.
  split; [reflexivity|]. split; [reflexivity|]. split; [reflexivity|].
  intros H. exact (H 0%nat (Nat.lt_0_succ 1)).
Qed.

(** C3 (as amended).  With the data prepared, a training failure of the
    time-series model or of the sequence model is caught: the model is
    recorded as unavailable and fit completes, provided the four
    regressors train.  A training failure of any of the four regressors
    is not caught: fit raises and the object stays as unfitted as it
    was. *)
Theorem fit_failure_policy (tf : bool) (env : fit_env) (s : forecaster)
    (cols : list string) (test : matrix * list Q) (sc : scaler) :
  e_prepare_data env = Ok cols ->
  e_train_test_split env = Ok test ->
  e_scale env = Ok sc ->
  (forall m1 m2 m3 m4,
     e_rf env = Ok m1 -> e_gb env = Ok m2 ->
     e_ridge env = Ok m3 -> e_elastic env = Ok m4 ->
     exists s', fit tf env s = (s', Ok tt) /\
       is_fitted s' = true /\
       (forall e, e_arima env = Raise e ->
          dict_get (models s') "arima" = Some None) /\
       (forall e, tf = true -> e_lstm env = Raise e ->
          dict_get (models s') "lstm" = Some None)) /\
  (forall e,
     e_rf env = Raise e \/ e_gb env = Raise e \/
     e_ridge env = Raise e \/ e_elastic env = Raise e ->
     exists s' e', fit tf env s = (s', Raise e') /\
       is_fitted s' = is_fitted s).
Proof.
  intros H0 H1 H2. split.
  - intros m1 m2 m3 m4 H3 H4 H5 H6.
    destruct (fit_completes tf env s _ _ _ _ _ _ _ H0 H1 H2 H3 H4 H5 H6)
      as [s' [Hfit [Ha Hl]]].
    exists s'. split; [exact Hfit|].
    split; [apply (fit_ok_inv _ _ _ _ Hfit)|]. split.
    + intros e He. now rewrite Ha, He.
    + intros e -> He. now rewrite Hl, He.
  - intros e He.
    destruct (fit_propagates tf env s _ _ _ e H0 H1 H2 He)
      as [s' [e' [Hr [Hs Hfl]]]].
    exists s', e'. split; [|exact Hfl].
    destruct (fit tf env s) as [s0 r]. simpl in *. congruence.
Qed.

Lemma fit_failure_policy_witness :
  exists s', fit true env_optional_fail init = (s', Ok tt) /\
    is_fitted s' = true /\
    dict_get (models s') "arima" = Some None /\
    dict_get (models s') "lstm" = Some None.
Proof.
  destruct (fit_failure_policy true env_optional_fail init _ _ _
              eq_refl eq_refl eq_refl) as [Hok _].
  destruct (Hok _ _ _ _ eq_refl eq_refl eq_refl eq_refl)
    as [s' [Hfit [Hfl [Ha Hl]]]].
  exists s'. split; [exact Hfit|]. split; [exact Hfl|]. split.
  - exact (Ha _ eq_refl).
  - exact (Hl _ eq_refl eq_refl).
Defined.

(** C3 as worded fails for the regressors: when only the random forest
    fails to train, with the data prepared and the five other models ready
    to fit, fit raises the forest's exception. *)
Lemma fit_failure_policy_counterexample :
  snd (fit true env_rf_fails init) = Raise (LibraryError "MemoryError") /\
  is_fitted (fst (fit true env_rf_fails init)) = false /\
  ~ failure_policy_as_specified true env_rf_fails init.
Proof.
  split; [reflexivity|]. split; [reflexivity|].
  intros H. unfold failure_policy_as_specified in H.
  assert (Hd : data_prepared env_rf_fails) by (repeat split).
  assert (Hs : some_training_succeeds env_rf_fails) by (right; left; reflexivity).
  specialize (H Hd Hs). discriminate H.
Qed.

Lemma weighted_sum_zero (W : dict Q) (P : dict (list Q)) (i : nat) :
  (forall name, In name (keys P) -> weight_of W name == 0) ->
  weighted_sum W P i == 0 /\ weight_total W P == 0.
Proof.
  unfold weighted_sum, weight_total.
  induction P as [|[name pred] P IH]; intros H; simpl.
  - split; reflexivity.
  - destruct IH as [IH1 IH2]; [intros n Hn; apply H; now right|].
    rewrite IH1, IH2, (H name) by now left. split; ring.
Qed.

Lemma predictions_none_raises tf self X :
  predictions tf self X = None -> exists e, predict tf self X = Raise e.
Proof.
  unfold predictions, predict. destruct (negb (is_fitted self)); [now eexists|].
  destruct (dict_get (scalers self) "standard") as [standard|]; [|now eexists].
  destruct (transform standard X) as [Xs|e]; [discriminate | now eexists].
Qed.

(** C6.  An object on which no fit has completed is not fitted, and on an
    object that is not fitted predict and evaluate raise.  On a fitted
    object predict raises when no model produces a prediction, with the
    "no models available" error once the models have been asked; and when
    at least one model produces a prediction (each with one value per
    row) predict returns. *)
Theorem predict_evaluate_errors (tf : bool) :
  (forall self, never_fitted tf self -> is_fitted self = false) /\
  (forall self X, is_fitted self = false ->
     predict tf self X
       = Raise (ValueError "Model must be fitted before making predictions") /\
     evaluate tf self
       = Raise (ValueError "Model must be fitted before evaluation")) /\
  (forall self X, is_fitted self = true ->
     (predictions tf self X = Some [] ->
        predict tf self X
          = Raise (ValueError "No models available for prediction")) /\
     (predictions tf self X = None -> exists e, predict tf self X = Raise e)) /\
  (forall self X P, is_fitted self = true ->
     predictions tf self X = Some P -> P <> [] -> well_shaped P X ->
     exists ys, predict tf self X = Ok ys).
Proof.
  split; [apply never_fitted_flag|]. split; [|split].
  - intros self X Hf. unfold predict, evaluate. now rewrite Hf.
  - intros self X Hf. split.
    + intros HP. now rewrite (predict_unfold _ _ _ _ Hf HP).
    + apply predictions_none_raises.
  - intros self X P Hf HP Hne Hs.
    destruct (predict_blend_cases tf self X P Hf HP Hne Hs) as [ys [Hy _]].
    now exists ys.
Qed.

Lemma predict_evaluate_errors_witness :
  is_fitted (fst (fit true env_rf_fails init)) = false /\
  predict true (fst (fit true env_rf_fails init)) [[1; 2]]
    = Raise (ValueError "Model must be fitted before making predictions") /\
  evaluate true (fst (fit true env_rf_fails init))
    = Raise (ValueError "Model must be fitted before evaluation") /\
  predict true no_answer_fitted [[1; 2]]
    = Raise (ValueError "No models available for prediction") /\
  exists ys, predict true demo_fitted [[1; 2]] = Ok ys.
Proof.
  destruct (predict_evaluate_errors true) as [Hnf [Hraise [Hnone Hret]]].
  assert (Hn : never_fitted true (fst (fit true env_rf_fails init))).
  { apply (nf_failed true env_rf_fails init _ (LibraryError "MemoryError")).
    - apply nf_init.
    - reflexivity. }
  split; [exact (Hnf _ Hn)|].
  destruct (Hraise _ [[1; 2]] (Hnf _ Hn)) as [Hp He].
  split; [exact Hp|]. split; [exact He|]. split.
  - exact (proj1 (Hnone no_answer_fitted [[1; 2]] eq_refl) eq_refl).
  - apply (Hret demo_fitted [[1; 2]]
             [("rf", [1]); ("gb", [2]); ("ridge", [4]);
              ("elastic", [8]); ("arima", [7]); ("lstm", [6])]%string
             eq_refl eq_refl).
    + discriminate.
    + repeat constructor.
Defined.

(** C7.  For every fitted object and feature rows of length N on which at
    least one model's prediction call succeeds (each with one value per
    row), predict returns a sequence of exactly N predictions. *)
Theorem predict_returns_one_per_row (tf : bool) (self : forecaster)
    (X : matrix) (P : dict (list Q)) :
  is_fitted self = true ->
  predictions tf self X = Some P ->
  P <> [] ->
  well_shaped P X ->
  exists ys, predict tf self X = Ok ys /\ length ys = length X.
Proof.
  intros Hf HP Hne Hs.
  destruct (predict_blend_cases tf self X P Hf HP Hne Hs) as [ys [Hy [Hl _]]].
  now exists ys.
Qed.

Lemma predict_returns_one_per_row_witness :
  exists ys, predict true demo_fitted [[1; 2]; [3; 4]; [5; 6]] = Ok ys /\
    length ys = 3%nat.
Proof.
  apply (predict_returns_one_per_row true demo_fitted [[1; 2]; [3; 4]; [5; 6]]
           [("rf", [1; 3; 5]); ("gb", [2; 2; 2]); ("ridge", [4; 4; 4]);
            ("elastic", [8; 8; 8]); ("arima", [7; 7; 7]);
            ("lstm", [6; 6; 6])]%string eq_refl eq_refl).
  - discriminate.
  - repeat constructor.
Defined.

(** C10 (as amended).  For every fitted object and feature rows of
    length N on which some model's prediction call succeeds, every model
    whose call succeeds has ensemble weight 0, and every predicted value
    is finite, predict does not raise and returns N zeros.  After a
    completed fit the time-series model and the sequence model are such
    models: no weight is ever assigned to them. *)
Theorem predict_zero_weights (tf : bool) :
  (forall (self : Raw.forecaster) X P,
     Raw.is_fitted self = true ->
     Raw.predictions tf self X = Some P ->
     P <> [] ->
     Raw.well_shaped P (length X) ->
     Raw.all_finite P ->
     (forall name, In name (keys P) ->
        weight_of (Raw.ensemble_weights self) name == 0) ->
     exists ys, Raw.predict tf self X = Ok ys /\
       length ys = length X /\
       Forall (fun y => feq y (Fin 0)) ys) /\
  (forall env s s',
     fit tf env s = (s', Ok tt) ->
     weight_of (ensemble_weights s') "arima" = 0 /\
     weight_of (ensemble_weights s') "lstm" = 0).
Proof.
  split.
  - intros self X P Hf HP Hne Hs Hfin Hz.
    rewrite (raw_predict_unfold tf self X P Hf HP).
    destruct P as [|item P]; [now contradiction Hne|].
    unfold Raw.ensemble.
    destruct (raw_blend_zero (Raw.ensemble_weights self) (item :: P)
                (repeat (Fin 0) (length X)) 0)
      as [acc [tw [Hb [Ht [Hl Hzero]]]]].
    + now rewrite repeat_length.
    + exact Hfin.
    + exact Hz.
    + apply Forall_forall. intros y Hy. apply repeat_spec in Hy. subst y.
      unfold is_zero. simpl. reflexivity.
    + rewrite Hb.
      assert (E : Qgt0 tw = false) by (apply Qgt0_false; rewrite Ht; lra).
      rewrite E. exists acc. split; [reflexivity|].
      split; [now rewrite Hl, repeat_length | exact Hzero].
  - intros env s s' Hfit.
    destruct (ensemble_weights_keys_skip tf env s s' Hfit) as [Ha Hl].
    unfold weight_of. now rewrite (dict_get_None _ _ Ha), (dict_get_None _ _ Hl).
Qed.

Lemma predict_zero_weights_witness :
  exists ys,
    Raw.predict false (raw_forecaster arima_only_fitted) [[1; 2]; [3; 4]] = Ok ys /\
    length ys = 2%nat /\ Forall (fun y => feq y (Fin 0)) ys.
Proof.
  destruct (predict_zero_weights false) as [Hzero Hfit].
  apply (Hzero (raw_forecaster arima_only_fitted) [[1; 2]; [3; 4]]
           [("arima"%string, [Fin 7; Fin 7])] eq_refl eq_refl).
  - discriminate.
  - repeat constructor.
  - repeat constructor.
  - intros name Hin. simpl in Hin. destruct Hin as [<-|[]].
    change (Raw.ensemble_weights (raw_forecaster arima_only_fitted))
      with (ensemble_weights arima_only_fitted).
    rewrite (proj1 (Hfit env_arima_only init arima_only_fitted eq_refl)).
    reflexivity.
Defined.

(** C10 as worded fails where a model without weight predicts a value
    that is not finite: the blend multiplies it by the weight 0, which
    gives not-a-number, and adds it to the row.  On a fitted object on
    which only a diverged network answers, predict returns not-a-number
    in every row, not zeros. *)
Lemma predict_zero_weights_counterexample :
  Raw.is_fitted diverged_fitted = true /\
  Raw.predictions true diverged_fitted [[1; 2]; [3; 4]]
    = Some [("lstm"%string, [NaN; NaN])] /\
  weight_of (Raw.ensemble_weights diverged_fitted) "lstm" == 0 /\
  Raw.predict true diverged_fitted [[1; 2]; [3; 4]] = Ok [NaN; NaN] /\
  ~ Raw.zero_weights_as_specified true diverged_fitted [[1; 2]; [3; 4]].
Proof.
  split; [reflexivity|]. split; [reflexivity|]. split; [reflexivity|].
  split; [reflexivity|].
  intros H.
  destruct (H [("lstm"%string, [NaN; NaN])] eq_refl) as [ys [Hy [_ Hz]]].
  - discriminate.
  - repeat constructor.
  - intros name Hin. simpl in Hin. destruct Hin as [<-|[]]. reflexivity.
  - vm_compute in Hy. injection Hy as <-.
    inversion Hz as [|? ? Hnan _]. exact Hnan.
Qed.

(** ** evaluate *)

Lemma ape_terms_exact (y_true y_pred : list Q) :
  Forall (fun y => ~ y == 0) y_true ->
  ape_terms y_true y_pred = map Fin (ape_exact y_true y_pred).
Proof.
  intros H. revert y_pred.
  induction H as [|y ys Hy _ IH]; intros [|p ps]; simpl; try reflexivity.
  rewrite IH. unfold fdiv.
  destruct (Qeq_bool y 0) eqn:E; [apply Qeq_bool_eq in E; contradiction|].
  reflexivity.
Qed.

Lemma ape_terms_zero (y_true y_pred : list Q) :
  length y_true = length y_pred ->
  Exists (fun y => y == 0) y_true ->
  Exists (fun t => is_finite t = false) (ape_terms y_true y_pred).
Proof.
  intros Hl H. revert y_pred Hl.
  induction H as [y ys Hy|y ys _ IH]; intros [|p ps] Hl; try discriminate.
  - simpl. apply Exists_cons_hd. unfold fdiv.
    rewrite (Qeq_eq_bool _ _ Hy). now destruct (y - p ?= 0).
  - simpl. apply Exists_cons_tl. apply IH. simpl in Hl. lia.
Qed.

Lemma series_mean_finite (qs : list Q) :
  qs <> [] -> series_mean (map Fin qs) = Fin (mean qs).
Proof.
  intros Hq. unfold series_mean.
  assert (Hf : filter (fun x => negb (is_nan x)) (map Fin qs) = map Fin qs).
  { clear Hq. induction qs as [|q qs IH]; simpl; [reflexivity | now rewrite IH]. }
  assert (Hs : fold_right fadd (Fin 0) (map Fin qs) = Fin (Qsum qs)).
  { clear Hq Hf. induction qs as [|q qs IH]; simpl; [reflexivity | now rewrite IH]. }
  rewrite Hf, Hs. destruct qs as [|q qs]; [congruence|].
  unfold mean, Qlen. now rewrite length_map.
Qed.

Lemma length_ape_exact (y_true y_pred : list Q) :
  length y_true = length y_pred ->
  length (ape_exact y_true y_pred) = length y_true.
Proof.
  revert y_pred. induction y_true as [|y ys IH]; intros [|p ps] Hl;
    try discriminate; simpl; [reflexivity|].
  f_equal. apply IH. simpl in Hl. lia.
Qed.

Lemma evaluate_inv tf self m :
  evaluate tf self = Ok m ->
  is_fitted self = true /\
  exists y_pred, predict tf self (X_test self) = Ok y_pred /\
    length (y_test self) = length y_pred /\
    (1 <= length (y_test self))%nat /\
    MAPE m = fscale 100 (series_mean (ape_terms (y_test self) y_pred)).
Proof.
  unfold evaluate. destruct (is_fitted self); [|discriminate].
  cbn [negb].
  destruct (predict tf self (X_test self)) as [y_pred|]; [|discriminate].
  destruct (Nat.eqb_spec (length (y_test self)) (length y_pred)) as [El|];
    [|discriminate].
  destruct (Nat.leb_spec 1 (length (y_test self))) as [Hl|]; [|discriminate].
  cbn [andb]. intros H. injection H as <-. split; [reflexivity|].
  exists y_pred. cbn [MAPE]. auto.
Qed.

(** C9.  The percentage error divides by every held-out actual price
    without a guard.  There is a fitted object with a 0 among its held-out
    actuals on which evaluate yields a quotient that is not a finite
    number (here an infinite MAPE); whenever evaluate completes on
    actuals containing a 0 some quotient is not finite; and when no
    held-out actual is 0 every quotient is finite whatever was predicted,
    and the MAPE of a completed evaluate is the finite mean of the
    absolute relative errors times 100. *)
Theorem mape_division_by_zero (tf : bool) :
  (exists self m y_pred,
     is_fitted self = true /\
     In 0 (y_test self) /\
     predict tf self (X_test self) = Ok y_pred /\
     evaluate tf self = Ok m /\
     Exists (fun t => is_finite t = false) (ape_terms (y_test self) y_pred) /\
     MAPE m = PInf) /\
  (forall self m y_pred,
     evaluate tf self = Ok m ->
     predict tf self (X_test self) = Ok y_pred ->
     Exists (fun y => y == 0) (y_test self) ->
     Exists (fun t => is_finite t = false) (ape_terms (y_test self) y_pred)) /\
  (forall self,
     Forall (fun y => ~ y == 0) (y_test self) ->
     (forall y_pred,
        Forall (fun t => is_finite t = true)
          (ape_terms (y_test self) y_pred)) /\
     (forall m, evaluate tf self = Ok m ->
        exists y_pred,
          predict tf self (X_test self) = Ok y_pred /\
          MAPE m = Fin (mean (ape_exact (y_test self) y_pred) * 100))).
Proof.
  split; [|split].
  - exists zero_price_fitted. eexists. eexists.
    split; [reflexivity|]. split; [now left|].
    split; [reflexivity|]. split; [reflexivity|]. split.
    + apply Exists_cons_hd. reflexivity.
    + reflexivity.
  - intros self m y_pred He Hp Hz.
    destruct (evaluate_inv _ _ _ He) as [_ [yp [Hp' [Hl _]]]].
    rewrite Hp in Hp'. injection Hp' as <-. now apply ape_terms_zero.
  - intros self Hnz. split.
    + intros y_pred. rewrite (ape_terms_exact _ y_pred Hnz).
      apply Forall_forall. intros t Ht. apply in_map_iff in Ht.
      now destruct Ht as [q [<- _]].
    + intros m He.
      destruct (evaluate_inv _ _ _ He) as [_ [yp [Hp [Hl [Hn HM]]]]].
      exists yp. split; [exact Hp|].
      rewrite (ape_terms_exact _ yp Hnz) in HM.
      rewrite HM, series_mean_finite; [reflexivity|].
      intros Hnil. apply (f_equal (@length Q)) in Hnil.
      rewrite length_ape_exact in Hnil by exact Hl. simpl in Hnil. lia.
Qed.

Lemma mape_division_by_zero_witness :
  exists m q, evaluate true demo_fitted = Ok m /\ MAPE m = Fin q.
Proof.
  destruct (mape_division_by_zero true) as [_ [_ H]].
  destruct (evaluate true demo_fitted) as [m|e] eqn:E;
    [|vm_compute in E; discriminate E].
  assert (Hnz : Forall (fun y => ~ y == 0) (y_test demo_fitted)).
  { repeat constructor; intros Hq; vm_compute in Hq; discriminate Hq. }
  destruct (proj2 (H demo_fitted Hnz) m E) as [yp [_ HM]].
  exists m. eexists. split; [reflexivity | exact HM].
Defined.

(** ** forecast_future *)

Lemma fold_max_ge (l : list Z) (a : Z) :
  (a <= fold_left Z.max l a)%Z /\
  Forall (fun x => (x <= fold_left Z.max l a)%Z) l.
Proof.
  revert a. induction l as [|x l IH]; intros a; simpl.
  - split; [lia | constructor].
  - destruct (IH (Z.max a x)) as [H1 H2]. split; [lia|].
    constructor; [lia | exact H2].
Qed.

Lemma fold_max_in (l : list Z) (a : Z) : In (fold_left Z.max l a) (a :: l).
Proof.
  revert a. induction l as [|x l IH]; intros a; simpl.
  - now left.
  - destruct (IH (Z.max a x)) as [H|H].
    + rewrite <- H.
      destruct (Z.max_spec a x) as [[_ E]|[_ E]]; [right; left | left]; lia.
    + right. now right.
Qed.

Lemma max_date_spec (df : table) (last_row : observation) (d : Z) :
  In last_row df -> is_max_date df d -> max_date (date last_row) df = d.
Proof.
  intros Hlast [Hin Hle]. unfold max_date.
  destruct (fold_max_ge (map date df) (date last_row)) as [_ Hge].
  rewrite Forall_forall in Hge, Hle. specialize (Hge d Hin).
  assert (Hub : (fold_left Z.max (map date df) (date last_row) <= d)%Z).
  { destruct (fold_max_in (map date df) (date last_row)) as [<-|H].
    - now apply Hle.
    - apply in_map_iff in H. destruct H as [o [<- Ho]]. now apply Hle. }
  lia.
Qed.

Lemma future_rows_dates (dates : list Z) (ws : list weather)
    (drought : list fval) (last_price : Q) :
  length ws = length dates -> length drought = length dates ->
  map date (future_rows dates ws drought last_price) = dates.
Proof.
  revert ws drought.
  induction dates as [|d dates IH]; intros [|w ws] [|di drought] H1 H2;
    try discriminate; simpl; [reflexivity|].
  f_equal. apply IH; simpl in *; lia.
Qed.

Lemma length_date_range (start : Z) (n : nat) : length (date_range start n) = n.
Proof. unfold date_range. now rewrite length_map, length_seq. Qed.

Lemma nth_date_range (start : Z) (n i : nat) :
  (i < n)%nat -> nth i (date_range start n) 0%Z = (start + Z.of_nat i)%Z.
Proof.
  intros Hi. unfold date_range.
  exact (nth_map_seq (fun k => (start + Z.of_nat k)%Z) n i 0%Z Hi).
Qed.

(** The future frame always builds: the default window is accepted. *)
Lemma future_df_ok synth (last_date : Z) (last_price : Q) (n : nat) :
  exists future, future_df synth last_date last_price n = Ok future /\
    map date future = date_range (last_date + 1) n.
Proof.
  unfold future_df.
  rewrite drought_index_unfold by (unfold default_window; lia).
  eexists. split; [reflexivity|].
  apply future_rows_dates; rewrite length_date_range.
  - now rewrite length_map, length_seq.
  - now rewrite !length_map, !length_seq.
Qed.

Lemma length_ffill (prev : list (option Q)) (rows : list (list (option Q))) :
  length (ffill prev rows) = length rows.
Proof.
  revert prev. induction rows as [|r rows IH]; intros prev; simpl;
    [reflexivity | now rewrite IH].
Qed.

Lemma length_py_tail {A} (n : nat) (l : list A) :
  (1 <= n)%nat -> length (py_tail n l) = Nat.min n (length l).
Proof.
  destruct n as [|k]; [lia|]. intros _. unfold py_tail.
  rewrite length_skipn. lia.
Qed.

Lemma length_future_features feat cols (df future : table) (n : nat) :
  (1 <= n)%nat -> length future = n ->
  length (future_features feat cols df future n) = n.
Proof.
  intros Hn Hl. unfold future_features, fillna_zero, create_features.
  rewrite length_map, length_ffill, length_py_tail by exact Hn.
  rewrite length_map, length_seq, length_app. lia.
Qed.

Lemma length_future_features_zero feat cols (df future : table) :
  length (future_features feat cols df future 0)
  = (length df + length future)%nat.
Proof.
  unfold future_features, fillna_zero, create_features, py_tail.
  now rewrite length_map, length_ffill, length_map, length_seq, length_app.
Qed.

Lemma rev_head_in {A} (l : list A) (x : A) (t : list A) :
  rev l = x :: t -> In x l.
Proof.
  intros H. apply in_rev. rewrite H. now left.
Qed.

Lemma map_fst_combine {A B} (l : list A) (l' : list B) :
  length l = length l' -> map fst (combine l l') = l.
Proof.
  revert l'. induction l as [|a l IH]; intros [|b l'] H; try discriminate;
    simpl; [reflexivity|].
  f_equal. apply IH. simpl in H. lia.
Qed.

Lemma map_snd_combine {A B} (l : list A) (l' : list B) :
  length l = length l' -> map snd (combine l l') = l'.
Proof.
  revert l'. induction l as [|a l IH]; intros [|b l'] H; try discriminate;
    simpl; [reflexivity|].
  f_equal. apply IH. simpl in H. lia.
Qed.

(** The rows that [forecast_future] hands to [predict], and what it does
    with the outcome. *)
Lemma forecast_future_cases tf synth feat self (df : table) (n_days d : Z) :
  is_fitted self = true ->
  is_max_date df d ->
  (0 <= n_days)%Z ->
  exists last_row future,
    In last_row df /\
    future_df synth d (commodity_price last_row) (Z.to_nat n_days) = Ok future /\
    map date future = date_range (d + 1) (Z.to_nat n_days) /\
    forecast_future tf synth feat self df n_days =
    match predict tf self
            (future_features feat (feature_cols self) df future
               (Z.to_nat n_days)) with
    | Raise e => Raise e
    | Ok future_predictions => set_predicted_price future future_predictions
    end.
Proof.
  intros Hf Hmax Hn. unfold forecast_future. rewrite Hf. cbn [negb].
  destruct (rev df) as [|last_row t] eqn:Hrev.
  { destruct Hmax as [Hin _]. apply (f_equal (@rev observation)) in Hrev.
    rewrite rev_involutive in Hrev. subst df. destruct Hin. }
  pose proof (rev_head_in _ _ _ Hrev) as Hlast.
  rewrite (max_date_spec df last_row d Hlast Hmax).
  destruct (Z.ltb_spec n_days 0) as [|_]; [lia|].
  destruct (future_df_ok synth d (commodity_price last_row) (Z.to_nat n_days))
    as [future [Hfut Hdates]].
  exists last_row, future. rewrite Hfut. auto.
Qed.

(** C4 (as amended).  For every fitted object, every history table with a
    maximum date d and every horizon n of at least one day, forecast_future
    builds n rows of future features; when the ensemble prediction on them
    succeeds it returns a date/predicted-price table with exactly n rows
    whose dates start at d plus one day and increase by exactly one day per
    row, and when the prediction raises, forecast_future raises the same
    error. *)
Theorem forecast_future_rows tf synth feat (self : forecaster) (df : table)
    (n_days d : Z) :
  is_fitted self = true ->
  is_max_date df d ->
  (1 <= n_days)%Z ->
  exists F : matrix,
    length F = Z.to_nat n_days /\
    (forall e, predict tf self F = Raise e ->
       forecast_future tf synth feat self df n_days = Raise e) /\
    (forall preds, predict tf self F = Ok preds ->
       exists rows,
         forecast_future tf synth feat self df n_days = Ok rows /\
         Z.of_nat (length rows) = n_days /\
         map snd rows = preds /\
         forall i, (i < length rows)%nat ->
           nth i (map fst rows) None = Some (d + 1 + Z.of_nat i)%Z).
Proof.
  intros Hf Hmax Hn.
  destruct (forecast_future_cases tf synth feat self df n_days d Hf Hmax)
    as [last_row [future [_ [_ [Hdates Hrun]]]]]; [lia|].
  assert (Hlen : length future = Z.to_nat n_days).
  { rewrite <- (length_map date), Hdates. apply length_date_range. }
  exists (future_features feat (feature_cols self) df future (Z.to_nat n_days)).
  split; [apply length_future_features; [lia | exact Hlen]|].
  split.
  - intros e He. now rewrite Hrun, He.
  - intros preds Hp. rewrite Hrun, Hp.
    pose proof (predict_length _ _ _ _ Hp) as Hl.
    rewrite length_future_features in Hl by (try exact Hlen; lia).
    unfold set_predicted_price.
    destruct future as [|o future']; [simpl in Hlen; lia|].
    set (future := o :: future') in *.
    rewrite Hlen, Hl, Nat.eqb_refl.
    eexists. split; [reflexivity|].
    assert (Hm : length (map (fun o => Some (date o)) future) = length preds)
      by now rewrite length_map, Hlen, Hl.
    assert (Hc : length (combine (map (fun o => Some (date o)) future) preds)
                 = Z.to_nat n_days).
    { rewrite length_combine, Hm, Hl. lia. }
    rewrite Hc. split; [lia|]. split.
    + now apply map_snd_combine.
    + intros i Hi. rewrite map_fst_combine by exact Hm.
      rewrite <- (map_map date Some), Hdates.
      rewrite (nth_indep _ None (Some 0%Z))
        by now rewrite length_map, length_date_range.
      rewrite (map_nth Some). f_equal. now apply nth_date_range.
Qed.

Lemma demo_history_max : is_max_date demo_history 101.
Proof.
  split.
  - right. now left.
  - repeat constructor; simpl; lia.
Qed.

Lemma forecast_future_rows_witness :
  exists F : matrix,
    length F = 3%nat /\
    (forall e, predict true demo_fitted F = Raise e ->
       forecast_future true demo_weather demo_feature_row demo_fitted
         demo_history 3 = Raise e) /\
    (forall preds, predict true demo_fitted F = Ok preds ->
       exists rows,
         forecast_future true demo_weather demo_feature_row demo_fitted
           demo_history 3 = Ok rows /\
         Z.of_nat (length rows) = 3%Z /\
         map snd rows = preds /\
         forall i, (i < length rows)%nat ->
           nth i (map fst rows) None = Some (101 + 1 + Z.of_nat i)%Z).
Proof.
  apply (forecast_future_rows true demo_weather demo_feature_row demo_fitted
           demo_history 3 101).
  - reflexivity.
  - split; [right; left; reflexivity|].
    repeat constructor; simpl; lia.
  - lia.
Defined.

(** The run behind the witness: three rows, dated 102, 103 and 104. *)
Example forecast_future_demo :
  match forecast_future true demo_weather demo_feature_row demo_fitted
          demo_history 3 with
  | Ok rows => map fst rows = [Some 102; Some 103; Some 104]%Z
  | Raise _ => False
  end.
Proof. reflexivity. Qed.

(** A horizon of zero days never yields the empty table: the slice
    [iloc[-0:]] takes every row of the combined table, so the prediction
    has one value per row of the history, and the empty future frame
    takes these values as its rows, without dates. *)
Lemma forecast_future_zero_horizon tf synth feat (self : forecaster)
    (df : table) (d : Z) (rows : list (option Z * Q)) :
  is_fitted self = true -> is_max_date df d ->
  forecast_future tf synth feat self df 0 = Ok rows ->
  length rows = length df /\ rows <> [] /\ Forall (fun r => fst r = None) rows.
Proof.
  intros Hf Hmax.
  destruct (forecast_future_cases tf synth feat self df 0 d Hf Hmax)
    as [last_row [future [Hlast [_ [Hdates Hrun]]]]]; [lia|].
  assert (Hlen : length future = 0%nat).
  { rewrite <- (length_map date), Hdates. reflexivity. }
  destruct future; [|discriminate Hlen].
  rewrite Hrun. change (Z.to_nat 0) with 0%nat.
  destruct (predict tf self _) as [preds|e] eqn:Hp; [|discriminate].
  apply predict_length in Hp. rewrite length_future_features_zero in Hp.
  simpl in Hp. rewrite Nat.add_0_r in Hp.
  destruct df as [|o df]; [destruct Hlast|].
  destruct preds as [|p preds]; [discriminate Hp|].
  simpl set_predicted_price. intros H. injection H as <-.
  split; [simpl in *; rewrite length_map; lia|].
  split; [discriminate|].
  apply Forall_forall. intros r Hr. change (In r (map (fun q => (None, q)) (p :: preds))) in Hr.
  apply in_map_iff in Hr. now destruct Hr as [q [<- _]].
Qed.

(** C4 as worded fails where the ensemble has no answer: on a fitted
    object none of whose models can predict, a three-day forecast over a
    history ending on day 101 raises instead of returning three rows. *)
Lemma forecast_future_counterexample :
  is_fitted no_answer_fitted = true /\
  is_max_date demo_history 101 /\
  forecast_future false demo_weather demo_feature_row no_answer_fitted
    demo_history 3
    = Raise (ValueError "No models available for prediction") /\
  ~ forecast_as_specified
      (forecast_future false demo_weather demo_feature_row no_answer_fitted
         demo_history 3) 101 3.
Proof.
  split; [reflexivity|]. split; [exact demo_history_max|].
  split; [reflexivity|].
  intros [rows [H _]]. discriminate H.
Qed.

(** The zero-day run on the working object: two rows, none of them dated. *)
Example forecast_future_zero_demo :
  match forecast_future true demo_weather demo_feature_row demo_fitted
          demo_history 0 with
  | Ok rows => map fst rows = [None; None]
  | Raise _ => False
  end.
Proof. reflexivity. Qed.

(** * Further properties *)

(** ** Drought index: warm-up, units, no look-ahead *)

Lemma window_slice_warmup (w i : nat) (p : list Q) :
  (i < w)%nat -> window_slice w i p = firstn (S i) p.
Proof.
  intros Hi. unfold window_slice.
  replace (S i - w)%nat with 0%nat by lia. reflexivity.
Qed.

Lemma drought_at_warmup (w i : nat) (p : list Q) :
  (i < w)%nat -> feq (drought_at w p i) (Fin 0).
Proof.
  intros Hi. unfold drought_at. rewrite window_slice_warmup by exact Hi.
  set (e := mean (firstn (S i) p)). unfold fdiv.
  destruct (Qeq_bool e 0) eqn:E.
  - assert (C : (e - e ?= 0) = Eq) by (apply (proj1 (Qeq_alt (e - e) 0)); ring).
    rewrite C. simpl. reflexivity.
  - apply Qeq_bool_neq in E. simpl.
    assert (Hq : (e - e) / e == 0) by (field; exact E).
    rewrite Hq. apply Q.max_id.
Qed.

(** X1.  While fewer than [window] days have been seen the trailing
    window is the whole history, so the index is 0 there, whatever the
    precipitation: a drought cannot show before day [window]. *)
Theorem drought_index_warmup (p : list Q) (window : Z) (d : list fval) :
  _calculate_drought_index p window = Ok d ->
  forall i, (i < length p)%nat -> (Z.of_nat i < window)%Z ->
    feq (nth i d NaN) (Fin 0).
Proof.
  intros Hd i Hi Hw.
  assert (H1 : (1 <= window)%Z) by lia.
  rewrite (drought_index_unfold p window H1) in Hd. injection Hd as <-.
  rewrite nth_map_seq by exact Hi. apply drought_at_warmup. lia.
Qed.

Lemma drought_index_warmup_witness :
  feq (nth 1 [Fin 0; Fin 0; Fin (9 # 36)] NaN) (Fin 0).
Proof.
  apply (drought_index_warmup [3; 3; 0] 2 [Fin 0; Fin 0; Fin (9 # 36)]).
  - vm_compute. reflexivity.
  - simpl. lia.
  - lia.
Defined.

Lemma Qsum_map_scale (c : Q) (l : list Q) :
  Qsum (map (Qmult c) l) == c * Qsum l.
Proof.
  induction l as [|x l IH]; simpl; [ring | rewrite IH; ring].
Qed.

Lemma mean_map_scale (c : Q) (l : list Q) :
  mean (map (Qmult c) l) == c * mean l.
Proof.
  unfold mean, Qlen. rewrite Qsum_map_scale, length_map.
  unfold Qdiv. ring.
Qed.

Lemma fdiv_scale (c a b a' b' : Q) :
  0 < c -> a' == c * a -> b' == c * b -> feq (fdiv a' b') (fdiv a b).
Proof.
  intros Hc Ha Hb. unfold fdiv.
  destruct (Qeq_bool b 0) eqn:E.
  - apply Qeq_bool_eq in E.
    assert (E' : b' == 0) by (rewrite Hb, E; ring).
    rewrite (Qeq_eq_bool _ _ E').
    destruct (a ?= 0) eqn:C.
    + apply Qeq_alt in C.
      assert (C' : (a' ?= 0) = Eq)
        by (apply (proj1 (Qeq_alt a' 0)); rewrite Ha, C; ring).
      now rewrite C'.
    + apply Qlt_alt in C.
      assert (C' : (a' ?= 0) = Lt).
      { apply (proj1 (Qlt_alt a' 0)). rewrite Ha.
        assert (Hp : 0 < c * - a) by (apply Qmult_lt_0_compat; lra).
        setoid_replace (c * a) with (- (c * - a)) by ring. lra. }
      now rewrite C'.
    + apply Qgt_alt in C.
      assert (C' : (a' ?= 0) = Gt).
      { apply (proj1 (Qgt_alt a' 0)). rewrite Ha.
        apply Qmult_lt_0_compat; lra. }
      now rewrite C'.
  - apply Qeq_bool_neq in E.
    assert (E' : ~ b' == 0).
    { rewrite Hb. intros H. apply E.
      destruct (Qmult_integral _ _ H) as [H0|H0]; [lra | exact H0]. }
    destruct (Qeq_bool b' 0) eqn:E2; [apply Qeq_bool_eq in E2; contradiction|].
    simpl. rewrite Ha, Hb. field. split; [exact E | lra].
Qed.

Lemma np_maximum0_feq (x y : fval) : feq x y -> feq (np_maximum0 x) (np_maximum0 y).
Proof.
  destruct x, y; simpl; try tauto; intros H;
    [now rewrite H | reflexivity].
Qed.

Lemma fillna0_feq (x y : fval) : feq x y -> feq (fillna0 x) (fillna0 y).
Proof.
  destruct x, y; simpl; try tauto. intros _. reflexivity.
Qed.

Lemma drought_at_scale (c : Q) (w i : nat) (p : list Q) :
  0 < c -> feq (drought_at w (map (Qmult c) p) i) (drought_at w p i).
Proof.
  intros Hc. unfold drought_at, window_slice.
  apply fillna0_feq, np_maximum0_feq.
  rewrite firstn_map, skipn_map.
  apply (fdiv_scale c); [exact Hc | | apply mean_map_scale].
  rewrite !mean_map_scale. ring.
Qed.

(** X2.  The index does not depend on the unit of precipitation:
    multiplying every value by the same positive factor leaves every value
    of the index as it was. *)
Theorem drought_index_unit_free (c : Q) (p : list Q) (window : Z)
    (d : list fval) :
  0 < c ->
  _calculate_drought_index p window = Ok d ->
  exists d', _calculate_drought_index (map (Qmult c) p) window = Ok d' /\
    length d' = length d /\
    forall i, (i < length d)%nat -> feq (nth i d' NaN) (nth i d NaN).
Proof.
  intros Hc Hd.
  assert (H1 : (1 <= window)%Z).
  { unfold _calculate_drought_index in Hd.
    destruct (Z.ltb_spec window 1); [discriminate | lia]. }
  rewrite (drought_index_unfold p window H1) in Hd. injection Hd as <-.
  rewrite (drought_index_unfold _ window H1).
  eexists. split; [reflexivity|]. rewrite (length_map (Qmult c)).
  split; [now rewrite !length_map, !length_seq|].
  intros i Hi. rewrite length_map, length_seq in Hi.
  rewrite !nth_map_seq by exact Hi. now apply drought_at_scale.
Qed.

Lemma drought_index_unit_free_witness :
  exists d', _calculate_drought_index (map (Qmult 10) [3; 3; 0]) 2 = Ok d' /\
    length d' = 3%nat /\
    forall i, (i < 3)%nat ->
      feq (nth i d' NaN) (nth i [Fin 0; Fin 0; Fin (9 # 36)] NaN).
Proof.
  apply (drought_index_unit_free 10 [3; 3; 0] 2 [Fin 0; Fin 0; Fin (9 # 36)]).
  - reflexivity.
  - vm_compute. reflexivity.
Defined.

Lemma firstn_app_prefix {A} (n : nat) (l l' : list A) :
  (n <= length l)%nat -> firstn n (l ++ l') = firstn n l.
Proof.
  intros Hn. rewrite firstn_app.
  replace (n - length l)%nat with 0%nat by lia.
  simpl. apply app_nil_r.
Qed.

Lemma firstn_seq_min (n a m : nat) : firstn n (seq a m) = seq a (Nat.min n m).
Proof.
  revert a m. induction n as [|n IH]; intros a [|m]; simpl; try reflexivity.
  now rewrite IH.
Qed.

(** X3.  The index never looks ahead: appending later days to a
    precipitation history leaves the index of the earlier days
    unchanged. *)
Theorem drought_index_no_lookahead (p later : list Q) (window : Z)
    (d : list fval) :
  _calculate_drought_index p window = Ok d ->
  exists d', _calculate_drought_index (p ++ later) window = Ok d' /\
    length d' = (length d + length later)%nat /\
    firstn (length d) d' = d.
Proof.
  intros Hd.
  assert (H1 : (1 <= window)%Z).
  { unfold _calculate_drought_index in Hd.
    destruct (Z.ltb_spec window 1); [discriminate | lia]. }
  rewrite (drought_index_unfold p window H1) in Hd. injection Hd as <-.
  rewrite (drought_index_unfold _ window H1).
  eexists. split; [reflexivity|].
  rewrite !length_map, !length_seq, length_app. split; [reflexivity|].
  rewrite firstn_map, firstn_seq_min.
  replace (Nat.min (length p) (length p + length later)) with (length p) by lia.
  apply map_ext_in. intros i Hi. apply in_seq in Hi.
  unfold drought_at, window_slice.
  now rewrite firstn_app_prefix by lia.
Qed.

Lemma drought_index_no_lookahead_witness :
  exists d', _calculate_drought_index ([3; 3; 0] ++ [7; 1]) 2 = Ok d' /\
    length d' = (3 + 2)%nat /\
    firstn 3 d' = [Fin 0; Fin 0; Fin (9 # 36)].
Proof.
  apply (drought_index_no_lookahead [3; 3; 0] [7; 1] 2
           [Fin 0; Fin 0; Fin (9 # 36)]).
  vm_compute. reflexivity.
Defined.

(** ** Derived weather columns and synthetic data *)

Lemma degree_days_split (t : Q) :
  0 <= Qmax 0 (18 - t) /\ 0 <= Qmax 0 (t - 18) /\
  (Qmax 0 (18 - t) == 0 \/ Qmax 0 (t - 18) == 0) /\
  Qmax 0 (18 - t) - Qmax 0 (t - 18) == 18 - t.
Proof.
  split; [apply Q.le_max_l|]. split; [apply Q.le_max_l|].
  destruct (Qlt_le_dec t 18) as [H|H].
  - assert (Hc : Qmax 0 (t - 18) == 0) by (apply Q.max_l; lra).
    assert (Hh : Qmax 0 (18 - t) == 18 - t) by (apply Q.max_r; lra).
    split; [now right|]. rewrite Hc, Hh. ring.
  - assert (Hh : Qmax 0 (18 - t) == 0) by (apply Q.max_l; lra).
    assert (Hc : Qmax 0 (t - 18) == t - 18) by (apply Q.max_r; lra).
    split; [now left|]. rewrite Hc, Hh. ring.
Qed.

Lemma frost_flag (tmin : Q) :
  ((if Qlt_le_dec tmin 0 then 1%Z else 0%Z) = 1%Z <-> tmin < 0) /\
  ((if Qlt_le_dec tmin 0 then 1%Z else 0%Z) = 0%Z <-> 0 <= tmin).
Proof.
  destruct (Qlt_le_dec tmin 0) as [H|H]; split; split; intros H';
    try discriminate; try reflexivity; try exact H; lra.
Qed.

Lemma future_rows_Forall (P : observation -> Prop) dates ws drought last_price :
  (forall o, In o.(raw) ws -> In o.(drought_index) drought ->
     derived_consistent o -> o.(commodity_price) = last_price -> P o) ->
  Forall P (future_rows dates ws drought last_price).
Proof.
  intros HP. revert ws drought HP.
  induction dates as [|d dates IH]; intros [|w ws] [|di drought] HP;
    simpl; try constructor.
  - apply HP; simpl; auto.
    destruct (degree_days_split (temperature_avg w)) as [H1 [H2 [H3 H4]]].
    destruct (frost_flag (temperature_min w)) as [F1 F2].
    repeat split; simpl; try assumption; try apply Q.le_max_l;
      try apply F1; try apply F2.
  - apply IH. intros o Hw Hd. apply HP; now right.
Qed.

(** X4.  Every row that forecast_future builds for a future date carries
    the placeholder price and derived weather columns that fit its raw
    columns: degree days are never negative, heating and cooling degree
    days are never both positive and differ by 18 minus the average
    temperature, and the frost flag is 1 exactly below zero. *)
Theorem future_df_rows synth (last_date : Z) (last_price : Q) (n : nat) :
  exists future, future_df synth last_date last_price n = Ok future /\
    length future = n /\
    Forall (fun o => derived_consistent o /\ o.(commodity_price) = last_price)
      future.
Proof.
  destruct (future_df_ok synth last_date last_price n) as [future [Hf Hd]].
  exists future. split; [exact Hf|]. split.
  - rewrite <- (length_map date), Hd. apply length_date_range.
  - unfold future_df in Hf.
    destruct (_calculate_drought_index _ _) as [drought|]; [|discriminate].
    injection Hf as <-. apply future_rows_Forall. auto.
Qed.






(** ** predict after fit: a convex blend of the weighted regressors *)

Lemma weight_of_nonneg (W : dict Q) (name : string) :
  Forall (fun w => 0 <= w) (values W) -> 0 <= weight_of W name.
Proof.
  intros H. unfold weight_of.
  destruct (dict_get W name) as [w|] eqn:E; [|lra].
  apply dict_get_In in E. rewrite Forall_forall in H. apply H.
  unfold values. change w with (snd (name, w)). now apply in_map.
Qed.

Lemma fitted_weights_nonneg tf env s s' name :
  fit tf env s = (s', Ok tt) -> 0 <= weight_of (ensemble_weights s') name.
Proof.
  intros Hfit. apply weight_of_nonneg.
  destruct (fit_ok_inv _ _ _ _ Hfit) as [_ [_ [HW _]]].
  rewrite HW. apply normalize_weights_nonneg.
Qed.

Lemma weighted_sum_bounds (W : dict Q) (P : dict (list Q)) (i : nat) (lo hi : Q) :
  (forall name, 0 <= weight_of W name) ->
  (forall name pred, In (name, pred) P ->
     lo <= nth i pred 0 /\ nth i pred 0 <= hi) ->
  lo * weight_total W P <= weighted_sum W P i /\
  weighted_sum W P i <= hi * weight_total W P.
Proof.
  intros HW. unfold weighted_sum, weight_total.
  induction P as [|[name pred] P IH]; intros Hb; simpl.
  - split; lra.
  - destruct IH as [IH1 IH2]; [intros n p Hin; apply (Hb n p); now right|].
    destruct (Hb name pred (or_introl eq_refl)) as [H1 H2].
    pose proof (HW name) as Hw.
    assert (A1 : weight_of W name * lo <= weight_of W name * nth i pred 0).
    { rewrite (Qmult_comm _ lo), (Qmult_comm _ (nth i pred 0)).
      now apply Qmult_le_compat_r. }
    assert (A2 : weight_of W name * nth i pred 0 <= weight_of W name * hi).
    { rewrite (Qmult_comm _ hi), (Qmult_comm _ (nth i pred 0)).
      now apply Qmult_le_compat_r. }
    split; lra.
Qed.

(** X6.  In exact arithmetic and for finite predictions: after a
    completed fit, whenever predict blends with a positive total weight,
    each blended value lies between the smallest and the largest value
    that the answering models predict for that row.  (In doubles the
    blend can leave that range by a rounding error.) *)
Theorem predict_within_member_range (tf : bool) (env : fit_env)
    (s s' : forecaster) (X : matrix) (P : dict (list Q)) :
  fit tf env s = (s', Ok tt) ->
  predictions tf s' X = Some P ->
  P <> [] ->
  well_shaped P X ->
  0 < weight_total (ensemble_weights s') P ->
  exists ys, predict tf s' X = Ok ys /\
    forall i lo hi, (i < length X)%nat ->
      (forall name pred, In (name, pred) P ->
         lo <= nth i pred 0 /\ nth i pred 0 <= hi) ->
      lo <= nth i ys 0 /\ nth i ys 0 <= hi.
Proof.
  intros Hfit HP Hne Hs Hpos.
  destruct (fit_ok_inv _ _ _ _ Hfit) as [Hf _].
  destruct (predict_blend_cases tf s' X P Hf HP Hne Hs) as [ys [Hy [_ Hv]]].
  exists ys. split; [exact Hy|]. intros i lo hi Hi Hb.
  rewrite (proj1 (Hv i Hi) Hpos).
  destruct (weighted_sum_bounds (ensemble_weights s') P i lo hi) as [B1 B2];
    [intros name; now apply (fitted_weights_nonneg tf env s) | exact Hb |].
  split.
  - apply Qle_shift_div_l; assumption.
  - apply Qle_shift_div_r; assumption.
Qed.

Lemma predict_within_member_range_witness :
  exists ys, predict true demo_fitted [[1; 2]; [3; 4]] = Ok ys /\
    forall i lo hi, (i < 2)%nat ->
      (forall name pred,
         In (name, pred)
           [("rf", [1; 3]); ("gb", [2; 2]); ("ridge", [4; 4]);
            ("elastic", [8; 8]); ("arima", [7; 7]); ("lstm", [6; 6])]%string ->
         lo <= nth i pred 0 /\ nth i pred 0 <= hi) ->
      lo <= nth i ys 0 /\ nth i ys 0 <= hi.
Proof.
  apply (predict_within_member_range true demo_env init demo_fitted
           [[1; 2]; [3; 4]]
           [("rf", [1; 3]); ("gb", [2; 2]); ("ridge", [4; 4]);
            ("elastic", [8; 8]); ("arima", [7; 7]); ("lstm", [6; 6])]%string
           eq_refl eq_refl).
  - discriminate.
  - repeat constructor.
  - reflexivity.
Defined.

(** *** The models that never get a weight *)

Lemma unscored_weight (tf : bool) (env : fit_env) (s s' : forecaster)
    (name : string) :
  fit tf env s = (s', Ok tt) ->
  skipped_in_cv name = true ->
  weight_of (ensemble_weights s') name = 0.
Proof.
  intros Hfit Hs.
  destruct (ensemble_weights_keys_skip tf env s s' Hfit) as [Ha Hl].
  unfold skipped_in_cv in Hs. apply orb_true_iff in Hs.
  unfold weight_of.
  destruct Hs as [E|E]; apply String.eqb_eq in E; subst name;
    [now rewrite (dict_get_None _ _ Ha) | now rewrite (dict_get_None _ _ Hl)].
Qed.

Lemma raw_add_scaled_feq (w : Q) (acc acc' pred : list fval) :
  Forall2 feq acc acc' ->
  Forall2 feq (Raw.add_scaled w acc pred) (Raw.add_scaled w acc' pred).
Proof.
  intros H. revert pred. induction H as [|a a' acc acc' Ha _ IH];
    intros [|p pred]; simpl; try constructor.
  - now apply fadd_feq.
  - apply IH.
Qed.

(** Adding a finite prediction with the weight 0 changes nothing. *)
Lemma raw_add_scaled_none (acc pred : list fval) :
  length pred = length acc ->
  Forall (fun v => is_finite v = true) pred ->
  Forall2 feq (Raw.add_scaled 0 acc pred) acc.
Proof.
  revert pred. induction acc as [|a acc IH]; intros [|p pred] Hl Hf;
    try discriminate; simpl; constructor.
  - inversion Hf as [|? ? Hp _]; subst.
    destruct p as [q| | |]; try discriminate Hp.
    destruct a as [a0| | |]; simpl; auto. ring.
  - inversion Hf; subst. apply IH; [simpl in Hl; lia | assumption].
Qed.

Lemma fdiv_by_feq (t t' : Q) (x x' : fval) :
  t == t' -> feq x x' -> feq (Raw.fdiv_by t x) (Raw.fdiv_by t' x').
Proof.
  intros Ht. destruct x, x'; simpl; auto. intros H. now rewrite H, Ht.
Qed.

Lemma raw_blend_scored (W : dict Q) (P : dict (list fval))
    (acc acc' : list fval) (tw tw' : Q) :
  (forall name, skipped_in_cv name = true -> weight_of W name = 0) ->
  Raw.well_shaped P (length acc) ->
  Forall2 feq acc acc' ->
  tw == tw' ->
  (forall item, In item P -> skipped_in_cv (fst item) = true ->
     Forall (fun v => is_finite v = true) (snd item)) ->
  exists a t a' t',
    Raw.blend W P acc tw = Ok (a, t) /\
    Raw.blend W (Raw.scored_predictions P) acc' tw' = Ok (a', t') /\
    Forall2 feq a a' /\ t == t'.
Proof.
  intros HW. revert acc acc' tw tw'.
  induction P as [|[name pred] P IH]; intros acc acc' tw tw' Hs Hacc Ht Hfin.
  - exists acc, tw, acc', tw'. simpl. auto.
  - inversion Hs as [|? ? Hl Hs']; subst. simpl in Hl.
    pose proof (Forall2_length_eq _ _ _ Hacc) as Hlen.
    cbn [Raw.blend Raw.scored_predictions filter fst].
    unfold Raw.np_iadd at 1. rewrite Hl, Nat.eqb_refl.
    destruct (skipped_in_cv name) eqn:E; cbn [negb].
    + rewrite (HW name E).
      apply IH.
      * now rewrite raw_add_scaled_length.
      * apply (Forall2_feq_trans _ acc); [|exact Hacc].
        apply raw_add_scaled_none; [exact Hl|].
        apply (Hfin (name, pred)); [now left | exact E].
      * rewrite Ht. ring.
      * intros item Hin. apply Hfin. now right.
    + cbn [Raw.blend]. unfold Raw.np_iadd.
      rewrite <- Hlen, Hl, Nat.eqb_refl.
      apply IH.
      * now rewrite raw_add_scaled_length.
      * now apply raw_add_scaled_feq.
      * now rewrite Ht.
      * intros item Hin. apply Hfin. now right.
Qed.

Lemma raw_blend_ok (W : dict Q) (P : dict (list fval)) (acc : list fval) (tw : Q) :
  Raw.well_shaped P (length acc) ->
  exists a t, Raw.blend W P acc tw = Ok (a, t).
Proof.
  revert acc tw. induction P as [|[name pred] P IH]; intros acc tw Hs.
  - now exists acc, tw.
  - inversion Hs as [|? ? Hl Hs']; subst. simpl in Hl.
    cbn [Raw.blend]. unfold Raw.np_iadd. rewrite Hl, Nat.eqb_refl.
    apply IH. now rewrite raw_add_scaled_length.
Qed.

(** Not-a-number stays in its row. *)
Lemma raw_add_scaled_nan (w : Q) (acc pred : list fval) (i : nat) :
  length pred = length acc ->
  nth_error acc i = Some NaN ->
  nth_error (Raw.add_scaled w acc pred) i = Some NaN.
Proof.
  revert pred i. induction acc as [|a acc IH]; intros [|p pred] i Hl Hn;
    try discriminate; destruct i as [|i]; simpl in *; try discriminate.
  - injection Hn as ->. reflexivity.
  - apply IH; [lia | exact Hn].
Qed.

Lemma raw_blend_nan (W : dict Q) (P : dict (list fval)) (acc : list fval)
    (tw : Q) (i : nat) :
  Raw.well_shaped P (length acc) ->
  nth_error acc i = Some NaN ->
  exists a t, Raw.blend W P acc tw = Ok (a, t) /\ nth_error a i = Some NaN.
Proof.
  revert acc tw. induction P as [|[name pred] P IH]; intros acc tw Hs Hn.
  - now exists acc, tw.
  - inversion Hs as [|? ? Hl Hs']; subst. simpl in Hl.
    cbn [Raw.blend]. unfold Raw.np_iadd. rewrite Hl, Nat.eqb_refl.
    apply IH; [now rewrite raw_add_scaled_length|].
    now apply raw_add_scaled_nan.
Qed.

(** The weight 0 turns a value that is not finite into not-a-number. *)
Lemma raw_add_scaled_poison (acc pred : list fval) (i : nat) (x : fval) :
  length pred = length acc ->
  nth_error pred i = Some x ->
  is_finite x = false ->
  nth_error (Raw.add_scaled 0 acc pred) i = Some NaN.
Proof.
  revert pred i. induction acc as [|a acc IH]; intros [|p pred] i Hl Hx Hf;
    try discriminate; destruct i as [|i]; simpl in *; try discriminate.
  - injection Hx as ->. destruct x; try discriminate Hf; destruct a; reflexivity.
  - apply (IH pred i); [lia | exact Hx | exact Hf].
Qed.

Lemma raw_blend_poison (W : dict Q) (P : dict (list fval)) (acc : list fval)
    (tw : Q) (name : string) (pred : list fval) (i : nat) (x : fval) :
  Raw.well_shaped P (length acc) ->
  In (name, pred) P ->
  weight_of W name = 0 ->
  nth_error pred i = Some x ->
  is_finite x = false ->
  exists a t, Raw.blend W P acc tw = Ok (a, t) /\ nth_error a i = Some NaN.
Proof.
  intros Hs Hin HW Hx Hf. revert acc tw Hs.
  induction P as [|[k p] P IH]; intros acc tw Hs; [destruct Hin|].
  inversion Hs as [|? ? Hl Hs']; subst. simpl in Hl.
  cbn [Raw.blend]. unfold Raw.np_iadd. rewrite Hl, Nat.eqb_refl.
  destruct Hin as [Hhead|Htail].
  - injection Hhead as -> ->. rewrite HW.
    apply raw_blend_nan; [now rewrite raw_add_scaled_length|].
    now apply (raw_add_scaled_poison acc pred i x).
  - apply (IH Htail). now rewrite raw_add_scaled_length.
Qed.

(** X7.  After a completed fit the predictions of the time-series model
    and of the sequence model reach the result of predict only through
    values that are not finite.  As long as their predictions are
    finite, the blend over all the predictions equals the blend over
    the predictions of the scored regressors alone; but where one of
    them predicts not-a-number or an infinity, that row of the result is
    not-a-number, since the blend multiplies the value by the weight 0
    and adds it to the row. *)
Theorem predict_ignores_unscored (tf : bool) (env : fit_env)
    (s s' : forecaster) (P : dict (list fval)) (n : nat) :
  fit tf env s = (s', Ok tt) ->
  Raw.well_shaped P n ->
  ((forall item, In item P -> skipped_in_cv (fst item) = true ->
      Forall (fun v => is_finite v = true) (snd item)) ->
   exists ys ys',
     Raw.ensemble (ensemble_weights s') P n = Ok ys /\
     Raw.ensemble (ensemble_weights s') (Raw.scored_predictions P) n = Ok ys' /\
     Forall2 feq ys ys') /\
  (forall name pred i x,
     In (name, pred) P -> skipped_in_cv name = true ->
     nth_error pred i = Some x -> is_finite x = false ->
     exists ys,
       Raw.ensemble (ensemble_weights s') P n = Ok ys /\
       nth_error ys i = Some NaN).
Proof.
  intros Hfit Hs.
  assert (HW : forall name, skipped_in_cv name = true ->
                 weight_of (ensemble_weights s') name = 0)
    by (intros name; now apply (unscored_weight tf env s)).
  assert (Hs0 : Raw.well_shaped P (length (repeat (Fin 0) n)))
    by now rewrite repeat_length.
  split.
  - intros Hfin. unfold Raw.ensemble.
    destruct (raw_blend_scored (ensemble_weights s') P
                (repeat (Fin 0) n) (repeat (Fin 0) n) 0 0 HW Hs0
                (Forall2_feq_refl _) (Qeq_refl 0) Hfin)
      as [a [t [a' [t' [Hb [Hb' [Ha Ht]]]]]]].
    rewrite Hb, Hb', (Qgt0_Qeq t t' Ht).
    destruct (Qgt0 t'); eexists; eexists;
      (split; [reflexivity|]); (split; [reflexivity|]); [|exact Ha].
    clear Hb Hb'. induction Ha as [|x x' a a' Hx _ IH]; simpl; constructor;
      [now apply fdiv_by_feq | exact IH].
  - intros name pred i x Hin Hsk Hx Hf. unfold Raw.ensemble.
    destruct (raw_blend_poison (ensemble_weights s') P (repeat (Fin 0) n) 0
                name pred i x Hs0 Hin (HW name Hsk) Hx Hf)
      as [a [t [Hb Hn]]].
    rewrite Hb. destruct (Qgt0 t); eexists; (split; [reflexivity|]);
      [|exact Hn].
    rewrite nth_error_map, Hn. reflexivity.
Qed.

(** Two rows after the fit of the examples.  With finite predictions
    from ARIMA and LSTM the blend is that of the four regressors; with
    an infinity in the second row of the ARIMA prediction that row comes
    out as not-a-number. *)
Lemma predict_ignores_unscored_witness :
  (exists ys ys',
     Raw.ensemble (ensemble_weights demo_fitted)
       [("rf", [Fin 1; Fin 3]); ("gb", [Fin 2; Fin 2]); ("ridge", [Fin 4; Fin 4]);
        ("elastic", [Fin 8; Fin 8]); ("arima", [Fin 7; Fin 7]);
        ("lstm", [Fin 6; Fin 6])]%string 2 = Ok ys /\
     Raw.ensemble (ensemble_weights demo_fitted)
       [("rf", [Fin 1; Fin 3]); ("gb", [Fin 2; Fin 2]); ("ridge", [Fin 4; Fin 4]);
        ("elastic", [Fin 8; Fin 8])]%string 2 = Ok ys' /\
     Forall2 feq ys ys') /\
  (exists ys,
     Raw.ensemble (ensemble_weights demo_fitted)
       [("rf", [Fin 1; Fin 3]); ("gb", [Fin 2; Fin 2]);
        ("arima", [Fin 7; PInf])]%string 2 = Ok ys /\
     nth_error ys 1 = Some NaN).
Proof.
  split.
  - apply (predict_ignores_unscored true demo_env init demo_fitted
             [("rf", [Fin 1; Fin 3]); ("gb", [Fin 2; Fin 2]);
              ("ridge", [Fin 4; Fin 4]); ("elastic", [Fin 8; Fin 8]);
              ("arima", [Fin 7; Fin 7]); ("lstm", [Fin 6; Fin 6])]%string 2
             eq_refl).
    + repeat constructor.
    + intros item Hin Hsk. simpl in Hin.
      destruct Hin as [<-|[<-|[<-|[<-|[<-|[<-|[]]]]]]];
        try discriminate Hsk; repeat constructor.
  - apply (proj2 (predict_ignores_unscored true demo_env init demo_fitted
             [("rf", [Fin 1; Fin 3]); ("gb", [Fin 2; Fin 2]);
              ("arima", [Fin 7; PInf])]%string 2
             eq_refl ltac:(repeat constructor))
             "arima"%string [Fin 7; PInf] 1%nat PInf).
    + simpl. tauto.
    + reflexivity.
    + reflexivity.
    + reflexivity.
Defined.

(** ** fit is not atomic; the model dictionary keeps its order *)

(** X8.  A re-fit in which fitting the scaler to the training rows fails
    raises, leaves the fitted flag, the models and the weights as they
    were, and leaves the fresh, unfitted scaler in place: on an object
    that was fitted before, predict then raises although the object
    still reports itself as fitted. *)
Theorem failed_scaling_breaks_predict (tf : bool) (env : fit_env)
    (s : forecaster) (cols : list string) (test : matrix * list Q) (e : exn) :
  e_prepare_data env = Ok cols ->
  e_train_test_split env = Ok test ->
  e_scale env = Raise e ->
  snd (fit tf env s) = Raise e /\
  is_fitted (fst (fit tf env s)) = is_fitted s /\
  models (fst (fit tf env s)) = models s /\
  ensemble_weights (fst (fit tf env s)) = ensemble_weights s /\
  forall X, is_fitted s = true ->
    predict tf (fst (fit tf env s)) X = Raise (LibraryError "NotFittedError").
Proof.
  intros H0 H1 H2. unfold_fit. rewrite H0, H1, H2. simpl.
  repeat (split; [reflexivity|]).
  intros X Hf. unfold predict. simpl. rewrite Hf. simpl.
  now dict_lookup.
Qed.

Lemma failed_scaling_breaks_predict_witness :
  is_fitted (fst (fit true env_scaling_fails demo_fitted)) = true /\
  predict true (fst (fit true env_scaling_fails demo_fitted)) [[1; 2]]
    = Raise (LibraryError "NotFittedError").
Proof.
  destruct (failed_scaling_breaks_predict true env_scaling_fails demo_fitted
              _ _ _ eq_refl eq_refl eq_refl) as [_ [Hf [_ [_ Hp]]]].
  split; [rewrite Hf; reflexivity | apply Hp; reflexivity].
Defined.

Lemma dict_set_In_same {V} (d : dict V) (k : string) (v u : V) :
  NoDup (keys d) -> In (k, u) (dict_set d k v) -> u = v.
Proof.
  induction d as [|[k0 v0] d IH]; simpl; intros Hnd Hin.
  - destruct Hin as [H|[]]. now inversion H.
  - inversion Hnd as [|? ? Hnotin Hd]; subst.
    destruct (String.eqb_spec k k0) as [->|Hne]; simpl in Hin.
    + destruct Hin as [H|H]; [now inversion H|].
      exfalso. apply Hnotin. change k0 with (fst (k0, u)). now apply in_map.
    + destruct Hin as [H|H]; [inversion H; congruence|].
      now apply IH.
Qed.

(** X9.  A re-fit in which the random forest fails to train raises and
    leaves the constructed, unfitted forest in the model dictionary,
    beside the old weights: from then on the forest never answers, and a
    predict that still returns blends the remaining models only. *)
Theorem failed_forest_drops_out (tf : bool) (env : fit_env) (s : forecaster)
    (cols : list string) (test : matrix * list Q) (sc : scaler) (e : exn) :
  NoDup (keys (models s)) ->
  e_prepare_data env = Ok cols ->
  e_train_test_split env = Ok test ->
  e_scale env = Ok sc ->
  e_rf env = Raise e ->
  snd (fit tf env s) = Raise e /\
  is_fitted (fst (fit tf env s)) = is_fitted s /\
  ensemble_weights (fst (fit tf env s)) = ensemble_weights s /\
  dict_get (models (fst (fit tf env s))) "rf" = Some (Some unfitted) /\
  forall X P, predictions tf (fst (fit tf env s)) X = Some P ->
    ~ In "rf"%string (keys P).
Proof.
  intros Hnd H0 H1 H2 H3. unfold_fit. rewrite H0, H1, H2, H3. simpl.
  repeat (split; [reflexivity|]).
  split; [apply dict_get_set_eq|].
  intros X P HP Hin.
  destruct (proj1 (predictions_exact tf _ X P "rf"%string HP) Hin)
    as [pred [standard [Xs [model [_ [_ [Hm Hpred]]]]]]].
  simpl in Hm. apply (dict_set_In_same _ _ _ _ Hnd) in Hm.
  injection Hm as ->. discriminate Hpred.
Qed.

Lemma failed_forest_drops_out_witness :
  is_fitted (fst (fit true env_rf_fails demo_fitted)) = true /\
  forall X P,
    predictions true (fst (fit true env_rf_fails demo_fitted)) X = Some P ->
    ~ In "rf"%string (keys P).
Proof.
  destruct (failed_forest_drops_out true env_rf_fails demo_fitted _ _ _ _
              ltac:(repeat constructor; simpl; intuition discriminate)
              eq_refl eq_refl eq_refl eq_refl) as [_ [Hf [_ [_ Hp]]]].
  split; [rewrite Hf; reflexivity | exact Hp].
Defined.

(** The keys of a dictionary after an assignment. *)
Lemma keys_dict_set_eq {V} (d : dict V) (k : string) (v : V) :
  keys (dict_set d k v) = if name_in k (keys d) then keys d else keys d ++ [k].
Proof.
  unfold name_in. induction d as [|[k0 v0] d IH]; simpl; [reflexivity|].
  destruct (String.eqb_spec k k0) as [->|_]; simpl; [reflexivity|]. rewrite IH.
  destruct (existsb (String.eqb k) (keys d)); reflexivity.
Qed.

(** The model keys are a prefix of the assignment order that holds at
    least the first [j] names. *)
Lemma keys_from_weaken tf j j' (d : dict (option model_obj)) :
  (j <= j')%nat -> keys_from tf j' d -> keys_from tf j d.
Proof.
  intros Hj [k [Hk [Hle Htf]]]. exists k. repeat split; auto. lia.
Qed.

Lemma firstn_order_full (k : nat) :
  (6 <= k)%nat -> firstn k model_order = model_order.
Proof. intros H. apply firstn_all2. simpl. exact H. Qed.

(** Assigning the name at position [j] to a dictionary that holds the
    names before it keeps the order and brings in that name. *)
Lemma keys_from_set tf j name (v : option model_obj) (d : dict (option model_obj)) :
  nth_error model_order j = Some name ->
  (tf = false -> (j <= 4)%nat) ->
  keys_from tf j d -> keys_from tf (S j) (dict_set d name v).
Proof.
  intros Hname Htf [k [Hk [Hle Hk5]]].
  exists (Nat.max k (S j)). split; [|split; [lia|]].
  - rewrite keys_dict_set_eq, Hk.
    assert (Hj : (j < 6)%nat).
    { apply (proj1 (nth_error_Some model_order j)). rewrite Hname.
      discriminate. }
    assert (Hcases : (k = 0 \/ k = 1 \/ k = 2 \/ k = 3 \/ k = 4 \/ k = 5
                      \/ 6 <= k)%nat) by lia.
    destruct j as [|[|[|[|[|[|j]]]]]]; try lia;
      simpl in Hname; injection Hname as <-;
      destruct Hcases as [->|[->|[->|[->|[->|[->|H6]]]]]];
      try lia; try reflexivity;
      rewrite (firstn_order_full k H6), firstn_order_full by lia;
      reflexivity.
  - intros E. specialize (Htf E). specialize (Hk5 E). lia.
Qed.

Ltac order_step j :=
  apply (keys_from_weaken _ _ (S j)); [lia|];
  apply (keys_from_set _ j); [reflexivity | intros; first [lia | discriminate] |].

Ltac order_steps :=
  repeat match goal with
         | |- keys_from _ _ (dict_set _ "rf" _) => order_step 0%nat
         | |- keys_from _ _ (dict_set _ "gb" _) => order_step 1%nat
         | |- keys_from _ _ (dict_set _ "ridge" _) => order_step 2%nat
         | |- keys_from _ _ (dict_set _ "elastic" _) => order_step 3%nat
         | |- keys_from _ _ (dict_set _ "arima" _) => order_step 4%nat
         | |- keys_from _ _ (dict_set _ "lstm" _) => order_step 5%nat
         end.

(** Every outcome of [fit] keeps the order, and a completed [fit] leaves
    all the names that this runtime assigns. *)
Lemma fit_order (tf : bool) (env : fit_env) (s : forecaster) :
  keys_from tf 0 (models s) ->
  keys_from tf 0 (models (fst (fit tf env s))) /\
  (snd (fit tf env s) = Ok tt ->
   keys_from tf (if tf then 6 else 5) (models (fst (fit tf env s)))).
Proof.
  intros H0. unfold_fit.
  destruct (e_prepare_data env) as [cols|]; simpl;
    [|split; [exact H0 | discriminate]].
  destruct (e_train_test_split env) as [[Xt yt]|]; simpl;
    [|split; [exact H0 | discriminate]].
  destruct (e_scale env) as [sc|]; simpl;
    [|split; [exact H0 | discriminate]].
  destruct (e_rf env) as [m1|]; simpl;
    [|split; [order_steps; exact H0 | discriminate]].
  destruct (e_gb env) as [m2|]; simpl;
    [|split; [order_steps; exact H0 | discriminate]].
  destruct (e_ridge env) as [m3|]; simpl;
    [|split; [order_steps; exact H0 | discriminate]].
  destruct (e_elastic env) as [m4|]; simpl;
    [|split; [order_steps; exact H0 | discriminate]].
  destruct (e_arima env) as [m5|]; simpl; destruct tf; simpl;
    try (destruct (e_lstm env) as [m6|]; simpl);
    (split; [|intros _]); order_steps; exact H0.
Qed.

Lemma ordered_keys_from tf (s : forecaster) :
  ordered_models tf s <-> keys_from tf 0 (models s).
Proof.
  unfold ordered_models, keys_from. split.
  - intros [k [H1 H2]]. exists k. repeat split; auto. lia.
  - intros [k [H1 [_ H2]]]. now exists k.
Qed.

Lemma fit_keeps_order (tf : bool) (env : fit_env) (s : forecaster) :
  ordered_models tf s -> ordered_models tf (fst (fit tf env s)).
Proof.
  intros H. apply ordered_keys_from. apply fit_order.
  now apply ordered_keys_from.
Qed.

Lemma reachable_ordered (tf : bool) (s : forecaster) :
  reachable tf s -> ordered_models tf s.
Proof.
  induction 1 as [|env s _ IH].
  - exists 0%nat. split; [reflexivity | intros; lia].
  - now apply fit_keeps_order.
Qed.

Lemma keys_cons_inv {V} (d : dict V) (k : string) (ks : list string) :
  keys d = k :: ks -> exists v d', d = (k, v) :: d' /\ keys d' = ks.
Proof.
  destruct d as [|[k0 v0] d]; simpl; intros H; [discriminate|].
  injection H as -> <-. now exists v0, d.
Qed.

Lemma fit_ok_models (tf : bool) (env : fit_env) (s s' : forecaster) :
  fit tf env s = (s', Ok tt) ->
  exists m1 m2 m3 m4,
    dict_get (models s') "rf" = Some (Some m1) /\
    dict_get (models s') "gb" = Some (Some m2) /\
    dict_get (models s') "ridge" = Some (Some m3) /\
    dict_get (models s') "elastic" = Some (Some m4).
Proof.
  unfold_fit.
  destruct (e_prepare_data env) as [cols|]; [|discriminate].
  destruct (e_train_test_split env) as [[Xt yt]|]; [|discriminate].
  destruct (e_scale env) as [sc|]; [|discriminate].
  destruct (e_rf env) as [m1|]; [|discriminate].
  destruct (e_gb env) as [m2|]; [|discriminate].
  destruct (e_ridge env) as [m3|]; [|discriminate].
  destruct (e_elastic env) as [m4|]; [|discriminate].
  destruct (e_arima env), tf, (e_lstm env); simpl;
    intros H; injection H as <-; simpl;
    exists m1, m2, m3, m4; repeat split; now dict_lookup.
Qed.

Lemma fit_ok_keys (tf : bool) (env : fit_env) (s s' : forecaster) :
  ordered_models tf s ->
  fit tf env s = (s', Ok tt) ->
  keys (models s') = if tf then model_order else firstn 5 model_order.
Proof.
  intros Ho Hfit.
  destruct (fit_order tf env s (proj1 (ordered_keys_from tf s) Ho)) as [_ H].
  rewrite Hfit in H. simpl in H.
  destruct (H eq_refl) as [k [Hk [Hle Htf]]]. rewrite Hk.
  destruct tf.
  - now apply firstn_order_full.
  - specialize (Htf eq_refl). now replace k with 5%nat by lia.
Qed.

(** A dictionary with the five or six keys of a fitted object, entry by
    entry. *)
Lemma models_of_keys (d : dict (option model_obj)) (rest : list string) :
  keys d = ("rf" :: "gb" :: "ridge" :: "elastic" :: "arima" :: rest)%string ->
  exists v1 v2 v3 v4 v5 d',
    d = [("rf", v1); ("gb", v2); ("ridge", v3); ("elastic", v4);
         ("arima", v5)]%string ++ d' /\
    keys d' = rest.
Proof.
  intros H.
  apply keys_cons_inv in H. destruct H as [v1 [d1 [-> H]]].
  apply keys_cons_inv in H. destruct H as [v2 [d2 [-> H]]].
  apply keys_cons_inv in H. destruct H as [v3 [d3 [-> H]]].
  apply keys_cons_inv in H. destruct H as [v4 [d4 [-> H]]].
  apply keys_cons_inv in H. destruct H as [v5 [d5 [-> H]]].
  now exists v1, v2, v3, v4, v5, d5.
Qed.

(** X10.  On every object that [__init__] and earlier fit calls can leave
    behind, a completed fit leaves the model entries in the order rf, gb,
    ridge, elastic, arima (and lstm with TensorFlow), and weights for
    exactly the four regressors, in that order; when no score is positive
    each of the four weights is 1/4. *)
Theorem fit_on_reachable (tf : bool) (env : fit_env) (s s' : forecaster) :
  reachable tf s ->
  fit tf env s = (s', Ok tt) ->
  keys (models s') = (if tf then model_order else firstn 5 model_order) /\
  keys (ensemble_weights s') = ["rf"; "gb"; "ridge"; "elastic"]%string /\
  (total_score (cv_loop (e_cv env) (models s') []) <= 0 ->
   Forall (fun w => w == 1 # 4) (values (ensemble_weights s'))).
Proof.
  intros Hr Hfit.
  pose proof (fit_ok_keys tf env s s' (reachable_ordered tf s Hr) Hfit) as Hkeys.
  destruct (fit_ok_models tf env s s' Hfit) as [m1 [m2 [m3 [m4 [G1 [G2 [G3 G4]]]]]]].
  destruct (fit_ok_inv _ _ _ _ Hfit) as [_ [_ [HW _]]].
  split; [exact Hkeys|].
  rewrite HW, keys_normalize_weights.
  assert (HS : exists s1 s2 s3 s4,
             cv_loop (e_cv env) (models s') [] =
             [("rf", s1); ("gb", s2); ("ridge", s3); ("elastic", s4)]%string).
  { assert (Hk : exists rest, keys (models s')
               = ("rf" :: "gb" :: "ridge" :: "elastic" :: "arima" :: rest)%string
               /\ (rest = [] \/ rest = ["lstm"%string])).
    { destruct tf; rewrite Hkeys; eexists; split; try reflexivity; auto. }
    destruct Hk as [rest [Hk Hrest]].
    destruct (models_of_keys _ _ Hk) as [v1 [v2 [v3 [v4 [v5 [d' [Hd Hd']]]]]]].
    rewrite Hd in *. simpl in G1, G2, G3, G4.
    injection G1 as ->. injection G2 as ->.
    injection G3 as ->. injection G4 as ->.
    destruct Hrest as [->| ->].
    - destruct d'; [|discriminate Hd']. destruct v5; simpl; repeat eexists.
    - apply keys_cons_inv in Hd'. destruct Hd' as [v6 [d6 [-> Hd6]]].
      destruct d6; [|discriminate Hd6].
      destruct v5, v6; simpl; repeat eexists. }
  destruct HS as [s1 [s2 [s3 [s4 HS]]]]. rewrite HS.
  split; [reflexivity|].
  intros Ht. unfold normalize_weights.
  rewrite (proj2 (Qgt0_false _) Ht). simpl.
  repeat constructor; reflexivity.
Qed.

Lemma fit_on_reachable_witness :
  keys (models demo_fitted) = model_order /\
  keys (ensemble_weights demo_fitted) = ["rf"; "gb"; "ridge"; "elastic"]%string.
Proof.
  destruct (fit_on_reachable true demo_env init demo_fitted
              (reach_init true) eq_refl) as [H1 [H2 _]].
  split; [exact H1 | exact H2].
Defined.

(** ** evaluate: the metrics of a completed evaluation *)

Lemma evaluate_metrics tf self m :
  evaluate tf self = Ok m ->
  exists y_pred, predict tf self (X_test self) = Ok y_pred /\
    length (y_test self) = length y_pred /\
    (1 <= length (y_test self))%nat /\
    MAE m = mean (map Qabs (sub_list (y_test self) y_pred)) /\
    MSE m = mean (map (fun d => d * d) (sub_list (y_test self) y_pred)) /\
    R2 m = r2_score (y_test self) y_pred /\
    MAPE m = fscale 100 (series_mean (ape_terms (y_test self) y_pred)).
Proof.
  unfold evaluate. destruct (is_fitted self); [|discriminate].
  cbn [negb].
  destruct (predict tf self (X_test self)) as [y_pred|]; [|discriminate].
  destruct (Nat.eqb_spec (length (y_test self)) (length y_pred)) as [El|];
    [|discriminate].
  destruct (Nat.leb_spec 1 (length (y_test self))) as [Hl|]; [|discriminate].
  cbn [andb]. intros H. injection H as <-.
  exists y_pred. cbn [MAE MSE R2 MAPE]. auto 10.
Qed.

Lemma sub_list_exact (y p : list Q) :
  Forall2 Qeq p y -> Forall (fun d => d == 0) (sub_list y p).
Proof.
  intros H. induction H as [|a b p y Hab _ IH]; simpl; constructor.
  - cbv beta. lra.
  - exact IH.
Qed.

Lemma sub_list_nonempty (y p : list Q) :
  length y = length p -> (1 <= length y)%nat -> sub_list y p <> [].
Proof.
  destruct y, p; simpl; intros; try lia; discriminate.
Qed.

Lemma ape_exact_zero (y p : list Q) :
  Forall2 Qeq p y -> Forall (fun v => ~ v == 0) y ->
  Forall (fun d => d == 0) (ape_exact y p).
Proof.
  intros H. induction H as [|a b p y Hab _ IH]; intros Hnz;
    cbn [ape_exact]; constructor.
  - inversion Hnz as [|? ? Hb _]; subst. cbv beta.
    assert (Hq : (b - a) / b == 0) by (rewrite Hab; field; exact Hb).
    rewrite Hq. reflexivity.
  - inversion Hnz; subst. now apply IH.
Qed.

Lemma Forall_map_zero (f : Q -> Q) (l : list Q) :
  (forall d, d == 0 -> f d == 0) ->
  Forall (fun d => d == 0) l -> Forall (fun d => d == 0) (map f l).
Proof.
  intros Hf H. induction H; simpl; constructor; auto.
Qed.

(** X11.  In the metrics of a completed evaluation the mean absolute and
    the mean squared error are never negative; and when the ensemble
    reproduces the held-out prices exactly both are 0, as is the
    percentage error if no held-out price is 0. *)
Theorem evaluate_exact_predictions (tf : bool) (self : forecaster)
    (m : metrics) :
  evaluate tf self = Ok m ->
  0 <= MAE m /\ 0 <= MSE m /\
  (forall y_pred,
     predict tf self (X_test self) = Ok y_pred ->
     Forall2 Qeq y_pred (y_test self) ->
     MAE m == 0 /\ MSE m == 0 /\
     (Forall (fun y => ~ y == 0) (y_test self) -> feq (MAPE m) (Fin 0))).
Proof.
  intros He.
  destruct (evaluate_metrics _ _ _ He)
    as [yp [Hp [Hl [Hn [HA [HS [_ HM]]]]]]].
  split; [|split].
  - rewrite HA. apply mean_nonneg, Forall_forall. intros v Hv.
    apply in_map_iff in Hv. destruct Hv as [d [<- _]]. apply Qabs_nonneg.
  - rewrite HS. apply mean_nonneg, Forall_forall. intros v Hv.
    apply in_map_iff in Hv. destruct Hv as [d [<- _]].
    destruct (Qlt_le_dec d 0) as [H|H].
    + setoid_replace (d * d) with ((- d) * (- d)) by ring.
      apply Qmult_le_0_compat; lra.
    + apply Qmult_le_0_compat; lra.
  - intros y_pred Hp' Hex. rewrite Hp in Hp'. injection Hp' as <-.
    pose proof (sub_list_exact _ _ Hex) as Hz.
    pose proof (sub_list_nonempty _ _ Hl Hn) as Hne.
    split; [|split].
    + rewrite HA. apply mean_const.
      * intros E. apply Hne. now apply map_eq_nil in E.
      * apply Forall_map_zero; [|exact Hz].
        intros d Hd. rewrite Hd. reflexivity.
    + rewrite HS. apply mean_const.
      * intros E. apply Hne. now apply map_eq_nil in E.
      * apply Forall_map_zero; [|exact Hz].
        intros d Hd. rewrite Hd. reflexivity.
    + intros Hnz. rewrite HM, (ape_terms_exact _ yp Hnz).
      rewrite series_mean_finite.
      * simpl. rewrite (mean_const 0).
        -- reflexivity.
        -- intros E. apply (f_equal (@length Q)) in E.
           rewrite length_ape_exact in E by exact Hl. simpl in E. lia.
        -- now apply ape_exact_zero.
      * intros E. apply (f_equal (@length Q)) in E.
        rewrite length_ape_exact in E by exact Hl. simpl in E. lia.
Qed.

Lemma evaluate_exact_predictions_witness :
  exists m, evaluate true exact_fitted = Ok m /\
    0 <= MAE m /\ MAE m == 0 /\ MSE m == 0 /\ feq (MAPE m) (Fin 0).
Proof.
  destruct (evaluate true exact_fitted) as [m|e] eqn:E;
    [|vm_compute in E; discriminate E].
  destruct (evaluate_exact_predictions true exact_fitted m E)
    as [Hpos [_ Hex]].
  destruct (predict true exact_fitted (X_test exact_fitted)) as [yp|e] eqn:Hp;
    [|vm_compute in Hp; discriminate Hp].
  destruct (Hex yp eq_refl) as [H1 [H2 H3]].
  - vm_compute in Hp. injection Hp as <-.
    repeat constructor; reflexivity.
  - exists m. split; [reflexivity|]. split; [exact Hpos|].
    split; [exact H1|]. split; [exact H2|].
    apply H3. repeat constructor; intros Hq; vm_compute in Hq; discriminate Hq.
Defined.

(** ** forecast_future: refusals and the zero-day horizon *)

(** X12.  On a fitted object and a history with at least one row, a
    horizon of zero days never yields the empty table: the slice
    [iloc[-0:]] takes every row of the combined table, so a forecast that
    returns has one value per row of the history, none of them dated. *)
Theorem forecast_future_zero_days tf synth feat (self : forecaster)
    (df : table) (d : Z) :
  is_fitted self = true -> is_max_date df d ->
  ~ (forecast_future tf synth feat self df 0 = Ok []) /\
  forall rows, forecast_future tf synth feat self df 0 = Ok rows ->
    length rows = length df /\ Forall (fun r => fst r = None) rows.
Proof.
  intros Hf Hmax. split.
  - intros H.
    destruct (forecast_future_zero_horizon tf synth feat self df d [] Hf Hmax H)
      as [_ [Hne _]]. now apply Hne.
  - intros rows H.
    destruct (forecast_future_zero_horizon tf synth feat self df d rows Hf Hmax H)
      as [Hlen [_ Hall]]. now split.
Qed.

Lemma forecast_future_zero_days_witness :
  ~ (forecast_future true demo_weather demo_feature_row demo_fitted
    demo_history 0 = Ok []) /\
  forall rows,
    forecast_future true demo_weather demo_feature_row demo_fitted
      demo_history 0 = Ok rows ->
    length rows = length demo_history /\ Forall (fun r => fst r = None) rows.
Proof.
  apply (forecast_future_zero_days true demo_weather demo_feature_row
           demo_fitted demo_history 101).
  - reflexivity.
  - split; [right; left; reflexivity|]. repeat constructor; simpl; lia.
Defined.

(** The run behind it: two undated rows for a history of two days. *)
Example forecast_future_zero_days_demo :
  match forecast_future true demo_weather demo_feature_row demo_fitted
          demo_history 0 with
  | Ok rows => map fst rows = [None; None]
  | Raise _ => False
  end.
Proof. reflexivity. Qed.

(** X13.  forecast_future refuses with an error, and returns no table, on
    an object on which no fit has completed (its own ValueError), on a
    history without rows, and for a negative horizon, which the date
    range of the libraries does not take. *)
Theorem forecast_future_refusals tf synth feat :
  (forall self df n_days,
     never_fitted tf self ->
     forecast_future tf synth feat self df n_days
       = Raise (ValueError "Model must be fitted before forecasting")) /\
  (forall self n_days,
     is_fitted self = true ->
     exists e, forecast_future tf synth feat self [] n_days = Raise e) /\
  (forall self df n_days,
     is_fitted self = true -> df <> [] -> (n_days < 0)%Z ->
     exists e, forecast_future tf synth feat self df n_days = Raise e).
Proof.
  split; [|split].
  - intros self df n_days Hn. unfold forecast_future.
    now rewrite (never_fitted_flag tf self Hn).
  - intros self n_days Hf. unfold forecast_future. rewrite Hf. simpl.
    now eexists.
  - intros self df n_days Hf Hne Hn. unfold forecast_future. rewrite Hf.
    cbn [negb].
    destruct (rev df) as [|last_row t] eqn:Hrev.
    { apply (f_equal (@rev observation)) in Hrev.
      rewrite rev_involutive in Hrev. subst df. now contradiction Hne. }
    destruct (Z.ltb_spec n_days 0) as [_|]; [now eexists | lia].
Qed.

Lemma forecast_future_refusals_witness :
  forecast_future true demo_weather demo_feature_row init demo_history 30
    = Raise (ValueError "Model must be fitted before forecasting") /\
  (exists e, forecast_future true demo_weather demo_feature_row demo_fitted
               [] 30 = Raise e) /\
  (exists e,
     forecast_future true demo_weather demo_feature_row demo_fitted
       demo_history (-1) = Raise e).
Proof.
  destruct (forecast_future_refusals true demo_weather demo_feature_row)
    as [H1 [H2 H3]].
  split; [apply H1, nf_init|]. split; [apply H2; reflexivity|].
  apply H3; [reflexivity | discriminate | lia].
Defined.

(** ** LSTM training windows *)

Lemma lstm_loop_ok (X_train : matrix) (y_train : list Q) (L a m : nat) :
  (a + m <= length y_train)%nat ->
  lstm_loop X_train y_train L (seq a m) =
  Ok (map (fun i => (firstn L (skipn (i - L) X_train), nth i y_train 0))
        (seq a m)).
Proof.
  revert a. induction m as [|m IH]; intros a Hle; simpl; [reflexivity|].
  destruct (nth_error y_train a) as [y|] eqn:E.
  - rewrite IH by lia. rewrite (nth_error_nth _ _ 0 E). reflexivity.
  - apply nth_error_None in E. lia.
Qed.

(** X14.  With a target for every training row, the LSTM training set has
    one sample per row from row [sequence_length] on, none when there are
    no more rows than that; sample [j] is the [sequence_length]
    consecutive rows starting at row [j], paired with the target of the
    row right after them, so that no window contains the row of its own
    target. *)
Theorem lstm_windows_samples (X_train : matrix) (y_train : list Q) (L : nat) :
  length y_train = length X_train ->
  exists samples,
    lstm_windows X_train y_train L = Ok samples /\
    length samples = (length X_train - L)%nat /\
    forall j, (j < length X_train - L)%nat ->
      nth_error samples j
        = Some (firstn L (skipn j X_train), nth (j + L) y_train 0) /\
      length (firstn L (skipn j X_train)) = L.
Proof.
  intros Hl. unfold lstm_windows.
  destruct (Nat.le_gt_cases (length X_train) L) as [Hshort|Hlong].
  { replace (length X_train - L)%nat with 0%nat by lia.
    exists []. split; [reflexivity|]. split; [reflexivity|]. intros j Hj. lia. }
  rewrite lstm_loop_ok by lia.
  eexists. split; [reflexivity|].
  split; [now rewrite length_map, length_seq|].
  intros j Hj. split.
  - rewrite nth_error_map, nth_error_seq.
    destruct (Nat.ltb_spec j (length X_train - L)) as [_|]; [|lia].
    simpl. replace (L + j - L)%nat with j by lia.
    now rewrite (Nat.add_comm L j).
  - rewrite length_firstn, length_skipn. lia.
Qed.

Lemma lstm_windows_samples_witness :
  exists samples,
    lstm_windows [[1]; [2]; [3]; [4]] [10; 20; 30; 40] 2 = Ok samples /\
    length samples = (4 - 2)%nat /\
    forall j, (j < 4 - 2)%nat ->
      nth_error samples j
        = Some (firstn 2 (skipn j [[1]; [2]; [3]; [4]]),
                nth (j + 2) [10; 20; 30; 40] 0) /\
      length (firstn 2 (skipn j [[1]; [2]; [3]; [4]])) = 2%nat.
Proof.
  apply (lstm_windows_samples [[1]; [2]; [3]; [4]] [10; 20; 30; 40] 2).
  reflexivity.
Defined.

(** ** create_features and prepare_data *)

Section FrameFacts.

Import Frame.

Lemma length_shift (k : nat) (c : column) : length (shift k c) = length c.
Proof.
  unfold shift. rewrite length_firstn, length_app, repeat_length. lia.
Qed.

Lemma nth_shift (k i : nat) (c : column) :
  (i < length c)%nat ->
  nth i (shift k c) None = if (i <? k)%nat then None else nth (i - k) c None.
Proof.
  intros Hi. unfold shift. rewrite nth_firstn.
  destruct (Nat.ltb_spec i (length c)) as [_|]; [|lia].
  destruct (Nat.ltb_spec i k) as [Hk|Hk].
  - rewrite app_nth1 by (rewrite repeat_length; exact Hk). apply nth_repeat.
  - rewrite app_nth2 by (rewrite repeat_length; exact Hk).
    now rewrite repeat_length.
Qed.

Lemma length_rolling (w : nat) (agg : list Q -> Q) (c : column) :
  length (rolling w agg c) = length c.
Proof. unfold rolling. now rewrite length_map, length_seq. Qed.

Lemma nth_rolling (w : nat) (agg : list Q -> Q) (c : column) (i : nat) :
  (i < length c)%nat ->
  nth i (rolling w agg c) None =
  if (S i <? w)%nat then None
  else option_map agg (present_values (skipn (S i - w) (firstn (S i) c))).
Proof.
  intros Hi. unfold rolling.
  exact (nth_map_seq
           (fun j => if (S j <? w)%nat then None
                     else option_map agg
                            (present_values (skipn (S j - w) (firstn (S j) c))))
           (length c) i None Hi).
Qed.

Lemma present_values_Some (qs : list Q) : present_values (map Some qs) = Some qs.
Proof.
  induction qs as [|q qs IH]; simpl; [reflexivity | now rewrite IH].
Qed.

Lemma complete_values (n : nat) (c : column) :
  complete_column n c -> exists qs, length qs = n /\ c = map Some qs.
Proof.
  intros [Hl Hc]. subst n. induction Hc as [|x c Hx _ IH].
  - now exists [].
  - destruct IH as [qs [Hq ->]]. destruct x as [q|]; [|congruence].
    exists (q :: qs). simpl. split; [now rewrite Hq | reflexivity].
Qed.

Lemma values_complete (qs : list Q) : complete_column (length qs) (map Some qs).
Proof.
  split; [apply length_map|]. apply Forall_forall. intros x Hx.
  apply in_map_iff in Hx. destruct Hx as [q [<- _]]. discriminate.
Qed.

Lemma nth_complete (qs : list Q) (i : nat) :
  (i < length qs)%nat -> nth i (map Some qs) None = Some (nth i qs 0).
Proof.
  intros Hi. rewrite (nth_indep _ None (Some 0)) by now rewrite length_map.
  apply (map_nth Some).
Qed.

(** The rolling aggregate of a column without missing cells. *)
Lemma nth_rolling_complete (w : nat) (agg : list Q -> Q) (qs : list Q) (i : nat) :
  (i < length qs)%nat ->
  nth i (rolling w agg (map Some qs)) None =
  if (S i <? w)%nat then None
  else Some (agg (skipn (S i - w) (firstn (S i) qs))).
Proof.
  intros Hi. rewrite nth_rolling by now rewrite length_map.
  destruct (S i <? w)%nat; [reflexivity|].
  now rewrite firstn_map, skipn_map, present_values_Some.
Qed.

Lemma complete_ready (n : nat) (c : column) :
  complete_column n c -> ready_from 0 n c.
Proof.
  intros Hc. destruct (complete_values n c Hc) as [qs [Hl ->]].
  split; [now rewrite length_map|].
  intros i Hi. rewrite nth_complete by lia. split; [discriminate | lia].
Qed.

Lemma ready_complete (n : nat) (c : column) :
  ready_from 0 n c -> complete_column n c.
Proof.
  intros [Hl Hr]. split; [exact Hl|].
  apply Forall_forall. intros x Hx E. subst x.
  destruct (In_nth c None None Hx) as [i [Hi Hn]].
  rewrite Hl in Hi. apply (Hr i Hi) in Hn. lia.
Qed.

Lemma shift_ready (k n : nat) (c : column) :
  complete_column n c -> ready_from k n (shift k c).
Proof.
  intros Hc. destruct (complete_values n c Hc) as [qs [Hl ->]].
  split; [now rewrite length_shift, length_map|].
  intros i Hi. rewrite nth_shift by (rewrite length_map; lia).
  destruct (Nat.ltb_spec i k) as [Hk|Hk]; [tauto|].
  rewrite nth_complete by lia. split; [discriminate | lia].
Qed.

Lemma rolling_ready (w n : nat) (agg : list Q -> Q) (c : column) :
  (1 <= w)%nat -> complete_column n c ->
  ready_from (w - 1) n (rolling w agg c).
Proof.
  intros Hw Hc. destruct (complete_values n c Hc) as [qs [Hl ->]].
  split; [now rewrite length_rolling, length_map|].
  intros i Hi. rewrite nth_rolling_complete by lia.
  destruct (Nat.ltb_spec (S i) w) as [Hk|Hk]; split; intros H;
    try reflexivity; try discriminate; lia.
Qed.

Lemma ready_soft (k n : nat) (c : column) :
  (k <= 29)%nat -> ready_from k n c -> soft_column n c.
Proof. intros Hk Hr. now exists k. Qed.

Lemma Forall_dict_set {V} (P : V -> Prop) (d : dict V) (k : string) (v : V) :
  P v -> Forall (fun kv => P (snd kv)) d ->
  Forall (fun kv => P (snd kv)) (dict_set d k v).
Proof.
  intros Hv H. induction H as [|[k0 v0] d H0 Hd IH]; simpl.
  - now repeat constructor.
  - destruct (String.eqb k k0); constructor; auto.
Qed.

Lemma dict_get_Forall {V} (P : V -> Prop) (d : dict V) (k : string) (v : V) :
  Forall (fun kv => P (snd kv)) d -> dict_get d k = Some v -> P v.
Proof.
  intros H Hg. apply dict_get_In in Hg. rewrite Forall_forall in H.
  exact (H _ Hg).
Qed.

Lemma keys_dict_get {V} (d : dict V) (k : string) :
  In k (keys d) <-> exists v, dict_get d k = Some v.
Proof.
  split.
  - intros Hin. destruct (dict_get d k) as [v|] eqn:E; [now exists v|].
    exfalso. revert E. induction d as [|[k0 v0] d IH]; simpl in *; [tauto|].
    destruct (String.eqb_spec k k0) as [->|Hne]; [discriminate|].
    destruct Hin as [H|H]; [congruence | now apply IH].
  - intros [v Hv]. apply dict_get_In in Hv.
    change k with (fst (k, v)). now apply in_map.
Qed.

Lemma name_in_In (name : string) (l : list string) :
  name_in name l = true <-> In name l.
Proof.
  unfold name_in. rewrite existsb_exists. split.
  - intros [x [Hx E]]. apply String.eqb_eq in E. now subst.
  - intros H. exists name. split; [exact H | apply String.eqb_refl].
Qed.

Lemma append_suffix_neq (col sfx : string) (R : list string) :
  In col R -> name_in (col ++ sfx) R = false -> (col ++ sfx)%string <> col.
Proof.
  intros Hin Hn E. rewrite E in Hn.
  apply name_in_In in Hin. congruence.
Qed.

End FrameFacts.

Section FeatureColumns.

Import Frame.

Variable rolling_std : list Q -> Q.
Variables month_of day_of_year_of year_of : Z -> Z.
Variables sin_2pi cos_2pi : Q -> Q.

Variable n : nat.

Lemma add_lag_features_inv (R : list string) (d0 d : dict column) (col : string) :
  (forall name c, dict_get d0 name = Some c -> complete_column n c) ->
  features_inv n R d0 d ->
  In col R ->
  forallb (fun sfx => negb (name_in (col ++ sfx) R)) lag_suffixes = true ->
  features_inv n R d0 (add_lag_features d col).
Proof.
  intros Hc0 [Hget Hsoft] Hcol Hapart.
  unfold add_lag_features.
  destruct (dict_get d col) as [c|] eqn:Ec; [|now split].
  assert (Hc : complete_column n c).
  { apply (Hc0 col). now rewrite <- (Hget col Hcol). }
  unfold lag_suffixes in Hapart. simpl in Hapart.
  repeat (apply andb_true_iff in Hapart; destruct Hapart as [? Hapart]).
  repeat match goal with
         | H : negb _ = true |- _ => apply negb_true_iff in H
         end.
  assert (N1 := append_suffix_neq col "_lag1" R Hcol ltac:(assumption)).
  assert (N2 := append_suffix_neq col "_lag7" R Hcol ltac:(assumption)).
  assert (N3 := append_suffix_neq col "_ma7" R Hcol ltac:(assumption)).
  assert (G1 : getcol d col = c) by (unfold getcol; now rewrite Ec).
  assert (G2 : getcol (dict_set d (col ++ "_lag1") (shift 1 (getcol d col))) col = c).
  { unfold getcol. rewrite dict_get_set_neq by exact N1. now rewrite Ec. }
  rewrite G1 in *. rewrite G2.
  assert (G3 : getcol (dict_set (dict_set d (col ++ "_lag1") (shift 1 c))
                         (col ++ "_lag7") (shift 7 c)) col = c).
  { unfold getcol. rewrite !dict_get_set_neq by assumption. now rewrite Ec. }
  rewrite G3.
  assert (G4 : getcol (dict_set (dict_set (dict_set d (col ++ "_lag1") (shift 1 c))
                         (col ++ "_lag7") (shift 7 c))
                         (col ++ "_ma7") (rolling 7 mean c)) col = c).
  { unfold getcol. rewrite !dict_get_set_neq by assumption. now rewrite Ec. }
  rewrite G4.
  split.
  - intros name Hname.
    rewrite !dict_get_set_neq; [now apply Hget | | | |];
      intros E; subst name; apply name_in_In in Hname; congruence.
  - repeat apply Forall_dict_set; try exact Hsoft.
    + apply (ready_soft 29); [lia|]. apply (rolling_ready 30); [lia | assumption].
    + apply (ready_soft 6); [lia|]. apply (rolling_ready 7); [lia | assumption].
    + apply (ready_soft 7); [lia|]. now apply shift_ready.
    + apply (ready_soft 1); [lia|]. now apply shift_ready.
Qed.

Lemma fold_lag_features_inv (R : list string) (d0 : dict column)
    (l : list string) (d : dict column) :
  (forall name c, dict_get d0 name = Some c -> complete_column n c) ->
  features_inv n R d0 d ->
  (forall col, In col l ->
     In col R /\
     forallb (fun sfx => negb (name_in (col ++ sfx) R)) lag_suffixes = true) ->
  features_inv n R d0 (fold_left add_lag_features l d).
Proof.
  intros Hc0. revert d. induction l as [|col l IH]; intros d Hinv Hl; simpl.
  - exact Hinv.
  - apply IH.
    + destruct (Hl col (or_introl eq_refl)) as [H1 H2].
      now apply add_lag_features_inv.
    + intros c Hc. apply Hl. now right.
Qed.

Lemma writes_apart_spec (features : list string) :
  writes_apart features = true ->
  forall col, In col features ->
    In col (read_names features) /\
    forallb (fun sfx => negb (name_in (col ++ sfx) (read_names features)))
      lag_suffixes = true.
Proof.
  unfold writes_apart. intros H col Hcol.
  rewrite forallb_forall in H. split.
  - unfold read_names. apply in_or_app. now left.
  - now apply H.
Qed.

Lemma known_features (commodity_type : string) (features : list string) :
  dict_get weather_features commodity_type = Some features ->
  writes_apart features = true /\
  ~ In "price_lag1"%string (read_names features) /\
  ~ In "price_lag7"%string (read_names features) /\
  ~ In "price_ma7"%string (read_names features) /\
  ~ In "price_ma30"%string (read_names features) /\
  ~ In "price_volatility"%string (read_names features).
Proof.
  unfold weather_features. simpl.
  destruct (String.eqb commodity_type "agricultural").
  - intros H. injection H as <-. split; [vm_compute; reflexivity|].
    repeat split; intros H; apply name_in_In in H; vm_compute in H;
      discriminate H.
  - destruct (String.eqb commodity_type "energy"); [|discriminate].
    intros H. injection H as <-. split; [vm_compute; reflexivity|].
    repeat split; intros H; apply name_in_In in H; vm_compute in H;
      discriminate H.
Qed.

Ltac look :=
  unfold getcol;
  repeat (rewrite dict_get_set_neq by discriminate);
  try rewrite dict_get_set_eq.

(** The price columns that [add_price_features] writes. *)
Lemma add_price_features_columns (d : dict column) (price : column) :
  dict_get d "commodity_price" = Some price ->
  complete_column n price ->
  Forall (fun kv => soft_column n (snd kv)) d ->
  let d' := add_price_features rolling_std d in
  Forall (fun kv => soft_column n (snd kv)) d' /\
  dict_get d' "commodity_price" = Some price /\
  dict_get d' "price_lag1" = Some (shift 1 price) /\
  dict_get d' "price_lag7" = Some (shift 7 price) /\
  dict_get d' "price_ma7" = Some (rolling 7 mean price) /\
  dict_get d' "price_ma30" = Some (rolling 30 mean price) /\
  dict_get d' "price_volatility" = Some (rolling 30 rolling_std price).
Proof.
  intros Hp Hc Hsoft d'. unfold d', add_price_features. rewrite Hp.
  assert (G : forall dd, dict_get dd "commodity_price" = Some price ->
                         getcol dd "commodity_price" = price)
    by (intros dd H; unfold getcol; now rewrite H).
  rewrite (G d Hp).
  rewrite !G by (repeat (rewrite dict_get_set_neq by discriminate); exact Hp).
  split.
  { repeat apply Forall_dict_set; try exact Hsoft.
    - apply (ready_soft 29); [lia|]. apply (rolling_ready 30); [lia | assumption].
    - apply (ready_soft 29); [lia|]. apply (rolling_ready 30); [lia | assumption].
    - apply (ready_soft 6); [lia|]. apply (rolling_ready 7); [lia | assumption].
    - apply (ready_soft 7); [lia|]. now apply shift_ready.
    - apply (ready_soft 1); [lia|]. now apply shift_ready. }
  repeat split; repeat (rewrite dict_get_set_neq by discriminate);
    try rewrite dict_get_set_eq; try reflexivity; exact Hp.
Qed.

Lemma of_dates_complete (f : Z -> Z) (ds : list Z) :
  length ds = n -> complete_column n (of_dates f ds).
Proof.
  intros Hl. unfold of_dates. split; [now rewrite length_map|].
  apply Forall_forall. intros x Hx. apply in_map_iff in Hx.
  destruct Hx as [d [<- _]]. discriminate.
Qed.

Lemma encode_complete (f : Q -> Q) (period : Q) (c : column) :
  complete_column n c -> complete_column n (encode f period c).
Proof.
  intros [Hl Hc]. unfold encode. split; [now rewrite length_map|].
  apply Forall_forall. intros x Hx. apply in_map_iff in Hx.
  destruct Hx as [y [<- Hy]]. rewrite Forall_forall in Hc.
  specialize (Hc y Hy). destruct y; [discriminate | congruence].
Qed.

(** The time columns leave the other columns alone. *)
Lemma add_time_features_columns (ds : list Z) (d : dict column) :
  length ds = n ->
  Forall (fun kv => soft_column n (snd kv)) d ->
  let d' := add_time_features month_of day_of_year_of year_of sin_2pi cos_2pi ds d in
  Forall (fun kv => soft_column n (snd kv)) d' /\
  forall name,
    ~ In name ["month"; "day_of_year"; "year"; "month_sin"; "month_cos";
               "day_sin"; "day_cos"]%string ->
    dict_get d' name = dict_get d name.
Proof.
  intros Hl Hsoft d'. unfold d', add_time_features. split.
  - assert (Hm : forall dd, getcol (dict_set dd "year" (of_dates year_of ds)) "month"
                            = getcol dd "month")
      by (intros dd; unfold getcol; now rewrite dict_get_set_neq by discriminate).
    repeat apply Forall_dict_set; try exact Hsoft;
      apply (ready_soft 0); try lia; apply complete_ready;
      try (now apply of_dates_complete);
      apply encode_complete; look; now apply of_dates_complete.
  - intros name Hname. simpl in Hname.
    rewrite !dict_get_set_neq; [reflexivity | | | | | | |];
      intros E; apply Hname; subst name; tauto.
Qed.

(** The feature table of a complete frame that has a price column. *)
Lemma create_features_columns (commodity_type : string) (features : list string)
    (df : frame) (ds : list Z) (price : column) :
  dict_get weather_features commodity_type = Some features ->
  complete_frame n df ->
  date_column df = Some ds ->
  dict_get (columns df) "commodity_price" = Some price ->
  exists out,
    create_features rolling_std month_of day_of_year_of year_of sin_2pi cos_2pi
      commodity_type df = Ok out /\
    date_column out = Some ds /\
    Forall (fun kv => soft_column n (snd kv)) (columns out) /\
    dict_get (columns out) "commodity_price" = Some price /\
    dict_get (columns out) "price_lag1" = Some (shift 1 price) /\
    dict_get (columns out) "price_lag7" = Some (shift 7 price) /\
    dict_get (columns out) "price_ma7" = Some (rolling 7 mean price) /\
    dict_get (columns out) "price_ma30" = Some (rolling 30 mean price) /\
    dict_get (columns out) "price_volatility"
      = Some (rolling 30 rolling_std price).
Proof.
  intros Hf [Hds Hcols] Hd Hp.
  destruct (known_features commodity_type features Hf) as [Hapart _].
  unfold create_features. rewrite Hf, Hd.
  assert (Hc0 : forall name c, dict_get (columns df) name = Some c ->
                               complete_column n c).
  { intros name c Hg. exact (dict_get_Forall _ _ _ _ Hcols Hg). }
  assert (Hinv : features_inv n (read_names features) (columns df)
                   (fold_left add_lag_features features (columns df))).
  { apply fold_lag_features_inv; [exact Hc0 | | now apply writes_apart_spec].
    split; [reflexivity|].
    apply Forall_forall. intros kv Hkv. apply (ready_soft 0); [lia|].
    apply complete_ready. rewrite Forall_forall in Hcols. now apply Hcols. }
  destruct Hinv as [Hget Hsoft].
  assert (Hp' : dict_get (fold_left add_lag_features features (columns df))
                  "commodity_price" = Some price).
  { rewrite Hget; [exact Hp|]. unfold read_names. apply in_or_app.
    right. now left. }
  destruct (add_price_features_columns _ price Hp' (Hc0 _ _ Hp) Hsoft)
    as [S1 [P0 [P1 [P2 [P3 [P4 P5]]]]]].
  destruct (add_time_features_columns ds _ (Hds ds Hd) S1) as [S2 Hkeep].
  eexists. split; [reflexivity|]. simpl.
  split; [reflexivity|]. split; [exact S2|].
  repeat split; rewrite Hkeep;
    try assumption; simpl; intuition discriminate.
Qed.

End FeatureColumns.

Section PrepareData.

Import Frame.

Variable rolling_std : list Q -> Q.
Variables month_of day_of_year_of year_of : Z -> Z.
Variables sin_2pi cos_2pi : Q -> Q.

Lemma present_values_iff (l : list (option Q)) :
  (exists v, present_values l = Some v) <-> Forall (fun x => x <> None) l.
Proof.
  induction l as [|[q|] l IH]; simpl.
  - split; [constructor | now exists []].
  - split.
    + intros [v Hv]. constructor; [discriminate|]. apply IH.
      destruct (present_values l) as [qs|]; [now exists qs | discriminate].
    + intros H. inversion H as [|? ? _ Hl]; subst.
      apply IH in Hl. destruct Hl as [qs ->]. now eexists.
  - split; [intros [v Hv]; discriminate|].
    intros H. inversion H; congruence.
Qed.

Lemma present_values_length (l : list (option Q)) (v : list Q) :
  present_values l = Some v -> length v = length l.
Proof.
  revert v. induction l as [|[q|] l IH]; simpl; intros v H.
  - now injection H as <-.
  - destruct (present_values l) as [qs|]; [|discriminate].
    injection H as <-. simpl. f_equal. now apply IH.
  - discriminate.
Qed.

(** Rows are dropped up to a threshold and kept from it on. *)
Lemma dropna_from (d : dict (list (option Q))) (cols : list string) (t a m : nat) :
  (forall i, (a <= i < a + m)%nat ->
     ((exists v, present_values (row_at d cols i) = Some v) <-> (t <= i)%nat)) ->
  map fst
    (flat_map (fun i => match present_values (row_at d cols i) with
                        | Some values => [(i, values)]
                        | None => []
                        end) (seq a m))
  = seq (Nat.max a t) (a + m - Nat.max a t).
Proof.
  revert a. induction m as [|m IH]; intros a H.
  - simpl. now replace (a + 0 - Nat.max a t)%nat with 0%nat by lia.
  - cbn [seq flat_map]. rewrite map_app, IH by (intros i Hi; apply H; lia).
    destruct (present_values (row_at d cols a)) as [v|] eqn:E.
    + assert (Ht : (t <= a)%nat) by (apply (H a); [lia | now exists v]).
      replace (Nat.max a t) with a by lia.
      replace (Nat.max (S a) t) with (S a) by lia.
      replace (a + S m - a)%nat with (S m) by lia.
      replace (S a + m - S a)%nat with m by lia. reflexivity.
    + assert (Ht : (a < t)%nat).
      { destruct (Nat.lt_ge_cases a t) as [Hlt|Hge]; [exact Hlt|].
        destruct (proj2 (H a ltac:(lia)) Hge) as [v Hv]. congruence. }
      replace (Nat.max a t) with t by lia.
      replace (Nat.max (S a) t) with t by lia.
      cbn [map app]. f_equal. lia.
Qed.

Lemma dropna_rows (d : dict (list (option Q))) (cols : list string) (n : nat) :
  Forall (fun row => length (snd row) = length cols) (dropna d cols n).
Proof.
  unfold dropna. apply Forall_forall. intros [i v] Hin.
  apply in_flat_map in Hin. destruct Hin as [j [_ Hj]].
  destruct (present_values (row_at d cols j)) as [w|] eqn:E; [|destruct Hj].
  destruct Hj as [Hj|[]]. injection Hj as <- <-. simpl.
  rewrite (present_values_length _ _ E). unfold row_at. apply length_map.
Qed.

Variable n : nat.

(** X15.  On a frame of [n] rows without missing cells that has a price
    column, prepare_data for the target commodity_price keeps exactly the
    rows from position 29 on, so that fewer than 30 rows leave nothing to
    train on; the targets are the prices of the kept rows; and the
    feature columns leave out the date and the target but include the
    lagged and rolling columns computed from the target. *)
Theorem prepare_data_history (commodity_type : string) (features : list string)
    (df : frame) (ds : list Z) (price : list (option Q)) :
  dict_get weather_features commodity_type = Some features ->
  complete_frame n df ->
  date_column df = Some ds ->
  dict_get (columns df) "commodity_price" = Some price ->
  exists X y cols,
    prepare_data rolling_std month_of day_of_year_of year_of sin_2pi cos_2pi
      commodity_type df "commodity_price" = Ok (X, y, cols) /\
    map fst X = seq 29 (n - 29) /\
    y = map (fun i => nth i price None) (seq 29 (n - 29)) /\
    Forall (fun row => length (snd row) = length cols) X /\
    ~ In "commodity_price"%string cols /\
    ~ In "date"%string cols /\
    In "price_lag1"%string cols /\ In "price_lag7"%string cols /\
    In "price_ma7"%string cols /\ In "price_ma30"%string cols /\
    In "price_volatility"%string cols.
Proof.
  intros Hf Hcomplete Hd Hp.
  destruct (create_features_columns rolling_std month_of day_of_year_of year_of
              sin_2pi cos_2pi n commodity_type features df ds price
              Hf Hcomplete Hd Hp)
    as [out [Hout [Hdate [Hsoft [P0 [P1 [P2 [P3 [P4 P5]]]]]]]]].
  unfold prepare_data. rewrite Hout, Hdate. cbn [String.eqb Ascii.eqb Bool.eqb].
  simpl (if String.eqb _ _ then _ else _). rewrite P0.
  assert (Hn : length ds = n) by (destruct Hcomplete as [H _]; now apply H).
  rewrite Hn.
  set (cols := filter _ (keys (columns out))).
  assert (Hcols : forall c, In c cols <->
            In c (keys (columns out)) /\
            negb (name_in c ["date"; "commodity_price"]%string)
            && negb (ends_with "_target" c) = true)
    by (intros c; apply filter_In).
  assert (Hin : forall c v, dict_get (columns out) c = Some v ->
            negb (name_in c ["date"; "commodity_price"]%string)
            && negb (ends_with "_target" c) = true -> In c cols).
  { intros c v Hg Hc. apply Hcols. split; [|exact Hc].
    apply keys_dict_get. now exists v. }
  assert (Hrows : forall i, (0 <= i < 0 + n)%nat ->
            ((exists v, present_values (row_at (columns out) cols i) = Some v)
             <-> (29 <= i)%nat)).
  { intros i Hi. rewrite present_values_iff. unfold row_at. split.
    - intros Hall. rewrite Forall_forall in Hall.
      destruct (Nat.lt_ge_cases i 29) as [Hlt|Hge]; [|exact Hge]. exfalso.
      apply (Hall (nth i (getcol (columns out) "price_ma30") None)).
      + apply in_map_iff. exists "price_ma30"%string. split; [reflexivity|].
        now apply (Hin _ _ P4).
      + unfold getcol. rewrite P4.
        destruct (rolling_ready 30 n mean price) as [_ Hr];
          [lia | exact (dict_get_Forall _ _ _ _ (proj2 Hcomplete) Hp) |].
        apply (Hr i); lia.
    - intros Hge. apply Forall_forall. intros x Hx.
      apply in_map_iff in Hx. destruct Hx as [c [<- Hc]].
      apply Hcols in Hc. destruct Hc as [Hk _].
      apply keys_dict_get in Hk. destruct Hk as [v Hv].
      unfold getcol. rewrite Hv.
      destruct (dict_get_Forall _ _ _ _ Hsoft Hv) as [k [Hk29 [_ Hr]]].
      intros E. apply (Hr i) in E; lia. }
  pose proof (dropna_from (columns out) cols 29 0 n Hrows) as Hidx.
  change (Nat.max 0 29) with 29%nat in Hidx. simpl (0 + n)%nat in Hidx.
  eexists. eexists. exists cols. split; [reflexivity|].
  split; [exact Hidx|]. split.
  { rewrite <- Hidx, map_map. reflexivity. }
  split; [apply dropna_rows|].
  split. { intros H. apply Hcols in H. destruct H as [_ H]. discriminate H. }
  split. { intros H. apply Hcols in H. destruct H as [_ H]. discriminate H. }
  repeat split;
    [ apply (Hin _ _ P1) | apply (Hin _ _ P2) | apply (Hin _ _ P3)
    | apply (Hin _ _ P4) | apply (Hin _ _ P5) ]; reflexivity.
Qed.

End PrepareData.

Section PriceWindows.

Import Frame.

Variable rolling_std : list Q -> Q.
Variables month_of day_of_year_of year_of : Z -> Z.
Variables sin_2pi cos_2pi : Q -> Q.

Lemma Qsum_app (l l' : list Q) : Qsum (l ++ l') == Qsum l + Qsum l'.
Proof.
  induction l as [|x l IH]; simpl; [ring | rewrite IH; ring].
Qed.

Lemma firstn_succ_nth (qs : list Q) (k : nat) :
  (k < length qs)%nat -> firstn (S k) qs = firstn k qs ++ [nth k qs 0].
Proof.
  revert k. induction qs as [|q qs IH]; intros k Hk; simpl in Hk; [lia|].
  destruct k as [|k]; [reflexivity|].
  change (firstn (S (S k)) (q :: qs)) with (q :: firstn (S k) qs).
  rewrite IH by lia. reflexivity.
Qed.

Lemma prefix_sum_step (qs : list Q) (k : nat) :
  (k < length qs)%nat ->
  Qsum (firstn (S k) qs) == Qsum (firstn k qs) + nth k qs 0.
Proof.
  intros Hk. rewrite firstn_succ_nth, Qsum_app by exact Hk. simpl. ring.
Qed.

(** The sum of rows [a .. b-1] as a difference of prefix sums. *)
Lemma Qsum_slice (qs : list Q) (a b : nat) :
  (a <= b)%nat ->
  Qsum (skipn a (firstn b qs)) == Qsum (firstn b qs) - Qsum (firstn a qs).
Proof.
  intros Hab.
  rewrite <- (firstn_skipn a (firstn b qs)) at 2.
  rewrite Qsum_app, firstn_firstn.
  replace (Nat.min a b) with a by lia. ring.
Qed.

Lemma length_window_slice (w i : nat) (qs : list Q) :
  (i < length qs)%nat -> (w <= S i)%nat -> length (window_slice w i qs) = w.
Proof.
  intros Hi Hw. unfold window_slice. rewrite length_skipn, length_firstn. lia.
Qed.

(** Consecutive windows differ by the row that enters and the row that
    leaves. *)
Lemma window_sum_step (w i : nat) (qs : list Q) :
  (1 <= w)%nat -> (w <= i)%nat -> (i < length qs)%nat ->
  Qsum (window_slice w i qs) - Qsum (window_slice w (i - 1) qs)
  == nth i qs 0 - nth (i - w) qs 0.
Proof.
  intros Hw Hwi Hi. unfold window_slice.
  replace (S (i - 1)) with i by lia.
  rewrite !Qsum_slice by lia.
  rewrite (prefix_sum_step qs i) by lia.
  replace (S i - w)%nat with (S (i - w)) by lia.
  rewrite (prefix_sum_step qs (i - w)) by lia. ring.
Qed.

Lemma mean_window (w i : nat) (qs : list Q) :
  (1 <= w)%nat -> (i < length qs)%nat -> (w <= S i)%nat ->
  inject_Z (Z.of_nat w) * mean (window_slice w i qs) == Qsum (window_slice w i qs).
Proof.
  intros Hw Hi Hwi. unfold mean, Qlen.
  rewrite length_window_slice by assumption.
  assert (Hpos : 0 < inject_Z (Z.of_nat w)).
  { change 0 with (inject_Z 0). rewrite <- Zlt_Qlt. lia. }
  field. lra.
Qed.

Variable n : nat.

(** X16.  On a frame without missing cells, the feature columns computed
    from the price give the target back: from row 7 on, the price of a row
    equals seven times the change of price_ma7 from the row before, plus
    the row's price_lag7.  The seven-day mean of a row is taken over a
    window that ends at the row itself. *)
Theorem price_features_reveal_target (commodity_type : string)
    (features : list string) (df : frame) (ds : list Z) (price : list (option Q)) :
  dict_get weather_features commodity_type = Some features ->
  complete_frame n df ->
  date_column df = Some ds ->
  dict_get (columns df) "commodity_price" = Some price ->
  exists out,
    create_features rolling_std month_of day_of_year_of year_of sin_2pi cos_2pi
      commodity_type df = Ok out /\
    forall i, (7 <= i < n)%nat ->
      exists p ma ma_before lag,
        nth i price None = Some p /\
        nth i (getcol (columns out) "price_ma7") None = Some ma /\
        nth (i - 1) (getcol (columns out) "price_ma7") None = Some ma_before /\
        nth i (getcol (columns out) "price_lag7") None = Some lag /\
        p == 7 * (ma - ma_before) + lag.
Proof.
  intros Hf Hcomplete Hd Hp.
  destruct (create_features_columns rolling_std month_of day_of_year_of year_of
              sin_2pi cos_2pi n commodity_type features df ds price
              Hf Hcomplete Hd Hp)
    as [out [Hout [_ [_ [_ [_ [P2 [P3 _]]]]]]]].
  exists out. split; [exact Hout|]. intros i Hi.
  destruct (complete_values n price
              (dict_get_Forall _ _ _ _ (proj2 Hcomplete) Hp)) as [qs [Hl ->]].
  unfold getcol. rewrite P2, P3.
  exists (nth i qs 0), (mean (window_slice 7 i qs)),
         (mean (window_slice 7 (i - 1) qs)), (nth (i - 7) qs 0).
  split; [apply nth_complete; lia|].
  split.
  { rewrite nth_rolling_complete by lia.
    destruct (Nat.ltb_spec (S i) 7); [lia | reflexivity]. }
  split.
  { rewrite nth_rolling_complete by lia.
    destruct (Nat.ltb_spec (S (i - 1)) 7); [lia | reflexivity]. }
  split.
  { rewrite nth_shift by (rewrite length_map; lia).
    destruct (Nat.ltb_spec i 7); [lia | apply nth_complete; lia]. }
  pose proof (window_sum_step 7 i qs ltac:(lia) ltac:(lia) ltac:(lia)) as Hstep.
  pose proof (mean_window 7 i qs ltac:(lia) ltac:(lia) ltac:(lia)) as Ha.
  pose proof (mean_window 7 (i - 1) qs ltac:(lia) ltac:(lia) ltac:(lia)) as Hb.
  change (inject_Z (Z.of_nat 7)) with 7 in Ha, Hb.
  lra.
Qed.

End PriceWindows.

Lemma demo_frame_complete : Frame.complete_frame 31 demo_frame.
Proof.
  split.
  - intros ds H. injection H as <-. reflexivity.
  - repeat constructor; discriminate.
Qed.

Lemma prepare_data_history_witness :
  exists X y cols,
    Frame.prepare_data (fun _ => 0) (fun _ => 1%Z) (fun _ => 1%Z) (fun _ => 2024%Z)
      (fun x => x) (fun x => x) "energy" demo_frame "commodity_price"
    = Ok (X, y, cols) /\
    map fst X = seq 29 (31 - 29) /\
    y = map (fun i => nth i
               (map (fun i => Some (inject_Z (Z.of_nat (i * i)))) (seq 0 31)) None)
            (seq 29 (31 - 29)) /\
    Forall (fun row => length (snd row) = length cols) X /\
    ~ In "commodity_price"%string cols /\
    ~ In "date"%string cols /\
    In "price_lag1"%string cols /\ In "price_lag7"%string cols /\
    In "price_ma7"%string cols /\ In "price_ma30"%string cols /\
    In "price_volatility"%string cols.
Proof.
  apply (prepare_data_history (fun _ => 0) (fun _ => 1%Z) (fun _ => 1%Z)
           (fun _ => 2024%Z) (fun x => x) (fun x => x) 31 "energy"
           ["temperature_avg"; "temperature_min"; "temperature_max";
            "wind_speed"; "solar_radiation"; "heating_degree_days";
            "cooling_degree_days"]%string
           demo_frame (map Z.of_nat (seq 0 31))).
  - reflexivity.
  - exact demo_frame_complete.
  - reflexivity.
  - reflexivity.
Defined.

Lemma price_features_reveal_target_witness :
  exists out,
    Frame.create_features (fun _ => 0) (fun _ => 1%Z) (fun _ => 1%Z)
      (fun _ => 2024%Z) (fun x => x) (fun x => x) "energy" demo_frame = Ok out /\
    forall i, (7 <= i < 31)%nat ->
      exists p ma ma_before lag,
        nth i (map (fun i => Some (inject_Z (Z.of_nat (i * i)))) (seq 0 31)) None
          = Some p /\
        nth i (Frame.getcol (Frame.columns out) "price_ma7") None = Some ma /\
        nth (i - 1) (Frame.getcol (Frame.columns out) "price_ma7") None
          = Some ma_before /\
        nth i (Frame.getcol (Frame.columns out) "price_lag7") None = Some lag /\
        p == 7 * (ma - ma_before) + lag.
Proof.
  apply (price_features_reveal_target (fun _ => 0) (fun _ => 1%Z) (fun _ => 1%Z)
           (fun _ => 2024%Z) (fun x => x) (fun x => x) 31 "energy"
           ["temperature_avg"; "temperature_min"; "temperature_max";
            "wind_speed"; "solar_radiation"; "heating_degree_days";
            "cooling_degree_days"]%string
           demo_frame (map Z.of_nat (seq 0 31))).
  - reflexivity.
  - exact demo_frame_complete.
  - reflexivity.
  - reflexivity.
Defined.
